(** * The WebVTT streaming block parser of shaka-packager

    A shallow embedding of [packager/media/formats/webvtt/webvtt_parser.cc]:
    the cue state machine ([Init], [Parse], [Flush], [ParseBlock],
    [ParseCue], [DispatchTextStreamInfo]) together with the helpers it calls.

    A [std::string] is a [string] (a sequence of 8-bit characters), a
    [std::vector<std::string>] is a [list string], a [uint64_t] is a [Z]
    in the range [0, 2^64).  A member function is a function from the parser
    object to an [Outcome]: the value it returns with the parser object it
    leaves behind, or a crash (an out-of-range read, a call through a null
    callback, a failed assertion).  What the two callbacks receive is
    recorded, in order, in the field [delivered] of the parser object.
    Logging is not modelled.

    The string helpers are those of Chromium's [base] library, with the
    behaviour its headers document.  The block reader, the timestamp
    parser and the sample object belong to the repository but not to the
    sources at hand; they follow the specification, and say so. *)

From Stdlib Require Import Bool Arith ZArith List Ascii String Lia.
From Stdlib Require Import DecimalString.
Import ListNotations.

Open Scope string_scope.
Open Scope Z_scope.

(* ================================================================== *)
(** ** Outcomes of a call *)

Inductive Fault : Type :=
| OutOfRange      (* an index past the end of a vector *)
| NullCallback    (* [Run] on a callback that was never bound *)
| CheckFailed (message : string)
                  (* a [DCHECK] that does not hold, in a build that has them *)
| OutOfFuel.      (* the loop budget of the model ran out; [Parse] never
                     does, see [Parse_loop_total] *)

Inductive Outcome (A : Type) : Type :=
| Returns (a : A)
| Crashes (f : Fault).

Arguments Returns {A} a.
Arguments Crashes {A} f.

Definition bind {A B : Type} (m : Outcome A) (k : A -> Outcome B) : Outcome B :=
  match m with
  | Returns a => k a
  | Crashes f => Crashes f
  end.

Notation "x <- m ;; k" := (bind m (fun x => k))
  (at level 61, m at next level, right associativity).
Notation "' pat <- m ;; k" := (bind m (fun x => match x with pat => k end))
  (at level 61, pat pattern, m at next level, right associativity).

(* ================================================================== *)
(** ** Characters and the string helpers of [base/strings] *)

Definition LF  : ascii := "010"%char.
Definition CR  : ascii := "013"%char.
Definition TAB : ascii := "009"%char.

(** [base::kWhitespaceASCII]: tab, line feed, vertical tab, form feed,
    carriage return and space. *)
Definition IsAsciiWhitespace (c : ascii) : bool :=
  let n := nat_of_ascii c in
  ((9 <=? n) && (n <=? 13))%nat || (n =? 32)%nat.

Definition is_empty (s : string) : bool :=
  match s with
  | EmptyString => true
  | String _ _ => false
  end.

Inductive TrimPositions : Type := TRIM_LEADING | TRIM_TRAILING | TRIM_ALL.

Fixpoint trim_leading (s : string) : string :=
  match s with
  | EmptyString => EmptyString
  | String c r => if IsAsciiWhitespace c then trim_leading r else s
  end.

Fixpoint trim_trailing (s : string) : string :=
  match s with
  | EmptyString => EmptyString
  | String c r =>
      let r' := trim_trailing r in
      if is_empty r' && IsAsciiWhitespace c then EmptyString else String c r'
  end.

(** [base::TrimWhitespaceASCII(input, positions)]. *)
Definition TrimWhitespaceASCII (input : string) (positions : TrimPositions) : string :=
  match positions with
  | TRIM_LEADING => trim_leading input
  | TRIM_TRAILING => trim_trailing input
  | TRIM_ALL => trim_trailing (trim_leading input)
  end.

(** [base::StartsWith(str, search_for, CompareCase::SENSITIVE)]. *)
Definition StartsWith (str search_for : string) : bool := prefix search_for str.

(** [str.find(what) != std::string::npos]. *)
Definition contains (str what : string) : bool :=
  match index 0 what str with
  | Some _ => true
  | None => false
  end.

(** [base::JoinString(parts, separator)]. *)
Definition JoinString (parts : list string) (separator : string) : string :=
  concat separator parts.

Inductive WhitespaceHandling : Type := KEEP_WHITESPACE | TRIM_WHITESPACE.
Inductive SplitResult : Type := SPLIT_WANT_ALL | SPLIT_WANT_NONEMPTY.

Definition is_separator (separators : string) (c : ascii) : bool :=
  existsb (Ascii.eqb c) (list_ascii_of_string separators).

(** The pieces of [s] between the characters that separate, empty
    pieces included: the [substr(start, end - start)] slices of
    [SplitStringT]. *)
Fixpoint split_where (separates : ascii -> bool) (s : string) : list string :=
  match s with
  | EmptyString => [EmptyString]
  | String c r =>
      if separates c then EmptyString :: split_where separates r
      else match split_where separates r with
           | p :: ps => String c p :: ps
           | [] => [String c EmptyString]
           end
  end.

Definition split_pieces (separators : string) (s : string) : list string :=
  split_where (is_separator separators) s.

(** [base::SplitString(input, separators, whitespace, result_type)]:
    nothing for the empty input; otherwise every piece between separator
    characters, trimmed on both sides when asked, empty pieces dropped
    when asked. *)
Definition SplitString (input separators : string)
    (whitespace : WhitespaceHandling) (result_type : SplitResult) : list string :=
  if is_empty input then []
  else
    let pieces := split_pieces separators input in
    let pieces :=
      match whitespace with
      | TRIM_WHITESPACE => map (fun p => TrimWhitespaceASCII p TRIM_ALL) pieces
      | KEEP_WHITESPACE => pieces
      end in
    match result_type with
    | SPLIT_WANT_ALL => pieces
    | SPLIT_WANT_NONEMPTY => filter (fun p => negb (is_empty p)) pieces
    end.

(* ================================================================== *)
(** ** Cue timestamps *)

(** A value as a [uint64_t]. *)
Definition wrap64 (z : Z) : Z := z mod 2 ^ 64.

(** Modelled from the spec: the value of a decimal digit of a timestamp. *)
Definition digit_value (c : ascii) : option Z :=
  let n := nat_of_ascii c in
  if ((48 <=? n) && (n <=? 57))%nat then Some (Z.of_nat n - 48) else None.

(** Modelled from the spec: the value of a run of decimal digits after
    the digits whose value is [acc]. *)
Fixpoint digits_value (acc : Z) (cs : list ascii) : option Z :=
  match cs with
  | [] => Some acc
  | c :: r =>
      match digit_value c with
      | Some d => digits_value (10 * acc + d) r
      | None => None
      end
  end.

(** Modelled from the spec: the value of a field of a timestamp, a
    non-empty run of decimal digits. *)
Definition number (cs : list ascii) : option Z :=
  match cs with
  | [] => None
  | _ => digits_value 0 cs
  end.

(** Modelled from the spec: the optional hours of a timestamp, nothing or
    two or more digits and a colon. *)
Definition hours_prefix (cs : list ascii) : option Z :=
  match cs with
  | [] => Some 0
  | _ =>
      match rev cs with
      | colon :: rdigits =>
          if Ascii.eqb colon ":"%char && (2 <=? List.length rdigits)%nat
          then number (rev rdigits) else None
      | [] => None
      end
  end.

(** Modelled from the spec: [WebVttTimestampToMs] of [webvtt_timestamp.cc],
    which is not among the sources.  It accepts [[HH:]MM:SS.mmm] with two or
    more hour digits, exactly two minute and two second digits, each in
    [00, 59], and exactly three millisecond digits, and rejects every other
    shape; the value is [((HH*60+MM)*60+SS)*1000+mmm] as a [uint64_t]. *)
Definition WebVttTimestampToMs (source : string) : option Z :=
  let cs := list_ascii_of_string source in
  let n := List.length cs in
  if (n <? 9)%nat then None
  else
    match skipn (n - 9) cs with
    | [m1; m2; c1; s1; s2; c2; f1; f2; f3] =>
        if Ascii.eqb c1 ":"%char && Ascii.eqb c2 "."%char then
          match hours_prefix (firstn (n - 9) cs),
                number [m1; m2], number [s1; s2], number [f1; f2; f3] with
          | Some hh, Some mm, Some ss, Some ms =>
              if (mm <=? 59) && (ss <=? 59)
              then Some (wrap64 (((hh * 60 + mm) * 60 + ss) * 1000 + ms))
              else None
          | _, _, _, _ => None
          end
        else None
    | _ => None
    end.

(* ================================================================== *)
(** ** Samples, stream descriptions and the two callbacks *)

(** Modelled from the spec: the sample object of [text_sample.cc], which is
    not among the sources.  It carries an identifier, the start and end
    times, the settings (the tokens joined by single spaces) and the
    payload (the lines joined by single newlines). *)
Record TextSample : Type := mkTextSample {
  id : string;
  start_time : Z;
  end_time : Z;
  settings : string;
  payload : string
}.

(** Modelled from the spec: the sample object as it is created. *)
Definition empty_sample : TextSample := mkTextSample "" 0 0 "" "".

(** Modelled from the spec: [set_id] of the sample object stores the
    identifier. *)
Definition set_id (s : TextSample) (i : string) : TextSample :=
  mkTextSample i (start_time s) (end_time s) (settings s) (payload s).

(** Modelled from the spec: [SetTime] of the sample object stores the
    start and the end time. *)
Definition SetTime (s : TextSample) (start_ end_ : Z) : TextSample :=
  mkTextSample (id s) start_ end_ (settings s) (payload s).

(** Modelled from the spec: one more item of a joined text ("space-joined
    tokens", "newline-joined body lines"); the separator goes between two
    items, never in front of the first. *)
Definition append_with (separator current addition : string) : string :=
  if is_empty current then addition else current ++ separator ++ addition.

(** Modelled from the spec: [AppendStyle] of the sample object adds a
    token to the settings, which are the tokens joined by single spaces. *)
Definition AppendStyle (s : TextSample) (style : string) : TextSample :=
  mkTextSample (id s) (start_time s) (end_time s)
    (append_with " " (settings s) style) (payload s).

(** Modelled from the spec: [AppendPayload] of the sample object adds a
    line to the payload, which is the lines joined by single newlines. *)
Definition AppendPayload (s : TextSample) (line : string) : TextSample :=
  mkTextSample (id s) (start_time s) (end_time s) (settings s)
    (append_with (String LF EmptyString) (payload s) line).

(** Modelled from the spec: the codec identifier, a fixed constant. *)
Inductive Codec : Type := kCodecWebVtt.

(** Modelled from the spec: the stream description of
    [text_stream_info.h], as the arguments [DispatchTextStreamInfo] gives
    to its constructor. *)
Record TextStreamInfo : Type := mkTextStreamInfo {
  track_id : Z;
  time_scale : Z;
  duration : Z;
  codec : Codec;
  codec_string : string;
  codec_config : string;
  width : Z;
  height : Z;
  language : string
}.

(** What the caller has received through the callbacks. *)
Inductive Event : Type :=
| StreamsReady (streams : list TextStreamInfo)               (* [init_cb_] *)
| NewTextSample (stream_index : Z) (sample : TextSample).    (* [new_text_sample_cb_] *)

(** A [base::Callback]: null, or bound to a function.  The state a closure
    keeps is a function of what it was called with, so a bound callback
    takes what was [delivered] so far as its first argument. *)
Inductive Callback (Sig : Type) : Type :=
| null_callback
| bound (f : Sig).

Arguments null_callback {Sig}.
Arguments bound {Sig} f.

Definition is_null {Sig : Type} (cb : Callback Sig) : bool :=
  match cb with
  | null_callback => true
  | bound _ => false
  end.

Definition InitCB : Type := Callback (list Event -> list TextStreamInfo -> unit).
Definition NewTextSampleCB : Type := Callback (list Event -> Z -> TextSample -> bool).
Definition NewMediaSampleCB : Type := Callback (list Event -> Z -> unit -> bool).

(** Modelled from the spec: a decryption key source, of which the parser
    asks only whether there is one. *)
Record KeySource : Type := mkKeySource { key_source_name : string }.

(* ================================================================== *)
(** ** The block reader *)

(** Modelled from the spec: the reader hands out lines "with trailing
    CR/LF normalized away"; this removes the carriage return that ends a
    line, if there is one. *)
Fixpoint strip_cr (s : string) : string :=
  match s with
  | EmptyString => EmptyString
  | String c r =>
      if is_empty r && Ascii.eqb c CR then EmptyString else String c (strip_cr r)
  end.

Module BlockReader.

(** Modelled from the spec: the block reader of [text_readers.cc], which
    is not among the sources.  It keeps the bytes pushed so far and not
    yet handed out, and whether [Flush] was called. *)
Record t : Type := mk { buffer : string; flushed : bool }.

(** Modelled from the spec: the block reader as it is created, with
    nothing buffered and not flushed. *)
Definition empty : t := mk "" false.

(** Modelled from the spec: [PushData] of the block reader appends the
    bytes to the buffer and never fails. *)
Definition PushData (r : t) (data : string) : t :=
  mk (buffer r ++ data) (flushed r).

(** Modelled from the spec: [Flush] of the block reader marks that no
    further data will arrive. *)
Definition Flush (r : t) : t := mk (buffer r) true.

(** Modelled from the spec: the search of the block reader for "a
    blank-line-terminated group of non-blank lines" at the front of the
    buffer, in one pass.  [line] is the text of the current line so far,
    [block] the non-blank lines already gathered.  A line ends at a line
    feed and loses the carriage return before it; a blank line ends the
    block when there is one and is skipped otherwise.  At the end of the
    buffer the gathered lines are a block only after [Flush], the
    unfinished last line included when it is not blank. *)
Fixpoint scan (flushed : bool) (buf line : string) (block : list string)
    : option (list string * string) :=
  match buf with
  | EmptyString =>
      if flushed then
        let l := strip_cr line in
        match (if is_empty l then block else (block ++ [l])%list) with
        | [] => None
        | b => Some (b, EmptyString)
        end
      else None
  | String c rest =>
      if Ascii.eqb c LF then
        let l := strip_cr line in
        if is_empty l then
          match block with
          | [] => scan flushed rest EmptyString []
          | _ => Some (block, rest)
          end
        else scan flushed rest EmptyString (block ++ [l])%list
      else scan flushed rest (line ++ String c EmptyString) block
  end.

(** Modelled from the spec: [Next] of the block reader gives the first
    block of the buffer and removes it, or gives nothing, and then
    consumes nothing. *)
Definition Next (r : t) : option (list string * t) :=
  match scan (flushed r) (buffer r) EmptyString [] with
  | Some (block, rest) => Some (block, mk rest (flushed r))
  | None => None
  end.

End BlockReader.

(* ================================================================== *)
(** ** The parser object *)

Record WebVttParser : Type := mkParser {
  init_cb_ : InitCB;
  new_text_sample_cb_ : NewTextSampleCB;
  reader_ : BlockReader.t;
  initialized_ : bool;
  saw_cue_ : bool;
  stream_info_dispatched_ : bool;
  style_region_config_ : string;
  (* not a member: what the callbacks have been called with, oldest first *)
  delivered : list Event
}.

(** Modelled from the spec: the parser as [WebVttParser::WebVttParser()]
    leaves it, with the members as [webvtt_parser.h] initializes them: the
    three flags false, the config empty, the callbacks null. *)
Definition new_parser : WebVttParser :=
  mkParser null_callback null_callback BlockReader.empty false false false "" [].

Definition set_callbacks (p : WebVttParser) (i : InitCB) (t : NewTextSampleCB) :=
  mkParser i t (reader_ p) (initialized_ p) (saw_cue_ p)
    (stream_info_dispatched_ p) (style_region_config_ p) (delivered p).

Definition set_reader (p : WebVttParser) (r : BlockReader.t) :=
  mkParser (init_cb_ p) (new_text_sample_cb_ p) r (initialized_ p) (saw_cue_ p)
    (stream_info_dispatched_ p) (style_region_config_ p) (delivered p).

Definition set_initialized (p : WebVttParser) (b : bool) :=
  mkParser (init_cb_ p) (new_text_sample_cb_ p) (reader_ p) b (saw_cue_ p)
    (stream_info_dispatched_ p) (style_region_config_ p) (delivered p).

Definition set_saw_cue (p : WebVttParser) (b : bool) :=
  mkParser (init_cb_ p) (new_text_sample_cb_ p) (reader_ p) (initialized_ p) b
    (stream_info_dispatched_ p) (style_region_config_ p) (delivered p).

Definition set_stream_info_dispatched (p : WebVttParser) (b : bool) :=
  mkParser (init_cb_ p) (new_text_sample_cb_ p) (reader_ p) (initialized_ p)
    (saw_cue_ p) b (style_region_config_ p) (delivered p).

Definition set_style_region_config (p : WebVttParser) (c : string) :=
  mkParser (init_cb_ p) (new_text_sample_cb_ p) (reader_ p) (initialized_ p)
    (saw_cue_ p) (stream_info_dispatched_ p) c (delivered p).

Definition deliver (p : WebVttParser) (e : Event) :=
  mkParser (init_cb_ p) (new_text_sample_cb_ p) (reader_ p) (initialized_ p)
    (saw_cue_ p) (stream_info_dispatched_ p) (style_region_config_ p)
    (delivered p ++ [e])%list.

(** [v[i]] on a vector: out of range is undefined behaviour. *)
Definition at_ (v : list string) (i : nat) : Outcome string :=
  match nth_error v i with
  | Some x => Returns x
  | None => Crashes OutOfRange
  end.

(** [init_cb_.Run(streams)]. *)
Definition Run_init_cb (p : WebVttParser) (streams : list TextStreamInfo)
    : Outcome WebVttParser :=
  match init_cb_ p with
  | null_callback => Crashes NullCallback
  | bound _ => Returns (deliver p (StreamsReady streams))
  end.

(** [new_text_sample_cb_.Run(stream_index, sample)]. *)
Definition Run_new_text_sample_cb (p : WebVttParser) (stream_index : Z)
    (sample : TextSample) : Outcome (bool * WebVttParser) :=
  match new_text_sample_cb_ p with
  | null_callback => Crashes NullCallback
  | bound accept =>
      Returns (accept (delivered p) stream_index sample,
               deliver p (NewTextSample stream_index sample))
  end.

(* ================================================================== *)
(** ** [webvtt_parser.cc] *)

Definition kStreamIndex : Z := 0.

Definition kNote : string := "NOTE".
Definition kHeader : string := "WEBVTT".
(** ["\xEF\xBB\xBFWEBVTT"] *)
Definition kHeaderWithBOM : string :=
  String "239"%char (String "187"%char (String "191"%char kHeader)).

Definition IsLikelyNote (line : string) : bool :=
  (line =? "NOTE")%string ||
  StartsWith line "NOTE " ||
  StartsWith line (kNote ++ String TAB EmptyString).

Definition IsLikelyCueTiming (line : string) : bool := contains line "-->".

Definition MaybeCueId (line : string) : bool := negb (contains line "-->").

Definition IsLikelyStyle (line : string) : bool :=
  (TrimWhitespaceASCII line TRIM_TRAILING =? "STYLE")%string.

Definition IsLikelyRegion (line : string) : bool :=
  (TrimWhitespaceASCII line TRIM_TRAILING =? "REGION")%string.

Definition newline : string := String LF EmptyString.

Definition UpdateConfig (block : list string) (config : string) : string :=
  let config := if negb (is_empty config) then config ++ newline ++ newline
                else config in
  config ++ JoinString block newline.

(** The debug-only assertion [DCHECK(condition) << message]: the process
    stops when it does not hold and the build has assertions, and nothing
    happens otherwise. *)
Definition DCHECK (dcheck_is_on condition : bool) (message : string)
    : Outcome unit :=
  if dcheck_is_on && negb condition then Crashes (CheckFailed message)
  else Returns tt.

(** [WebVttParser::Init]; it returns nothing. *)
Definition Init (dcheck_is_on : bool) (p : WebVttParser)
    (init_cb : InitCB) (new_media_sample_cb : NewMediaSampleCB)
    (new_text_sample_cb : NewTextSampleCB)
    (decryption_key_source : option KeySource) : Outcome WebVttParser :=
  _ <- DCHECK dcheck_is_on (is_null (init_cb_ p)) "init_cb_.is_null()" ;;
  _ <- DCHECK dcheck_is_on (negb (is_null init_cb)) "!init_cb.is_null()" ;;
  _ <- DCHECK dcheck_is_on (negb (is_null new_text_sample_cb))
         "!new_text_sample_cb.is_null()" ;;
  _ <- DCHECK dcheck_is_on
         (match decryption_key_source with None => true | Some _ => false end)
         "Encrypted WebVTT not supported" ;;
  Returns (set_callbacks p init_cb new_text_sample_cb).

(** [WebVttParser::DispatchTextStreamInfo]. *)
Definition DispatchTextStreamInfo (p : WebVttParser) : Outcome WebVttParser :=
  let p := set_stream_info_dispatched p true in
  let kTrackId := 0 in
  let kTimescale := 1000 in
  let kDuration := 0 in
  let kWebVttCodecString := "wvtt" in
  let kNoWidth := 0 in
  let kNoHeight := 0 in
  let kNoLanguage := "" in
  let streams :=
    [mkTextStreamInfo kTrackId kTimescale kDuration kCodecWebVtt
       kWebVttCodecString (style_region_config_ p) kNoWidth kNoHeight
       kNoLanguage] in
  Run_init_cb p streams.

(** The condition [parsed_time] of [ParseCue], with the two times it
    leaves in [start_time] and [end_time] when it holds. *)
Definition parsed_time (time_and_style : list string) : option (Z * Z) :=
  if (3 <=? List.length time_and_style)%nat
     && (nth 1 time_and_style "" =? "-->")%string
  then
    match WebVttTimestampToMs (nth 0 time_and_style "") with
    | Some start_time =>
        match WebVttTimestampToMs (nth 2 time_and_style "") with
        | Some end_time => Some (start_time, end_time)
        | None => None
        end
    | None => None
    end
  else None.

(** [WebVttParser::ParseCue(id, block, block_size)]; the pointer and the
    size together are the list [block]. *)
Definition ParseCue (p : WebVttParser) (id : string) (block : list string)
    : Outcome (bool * WebVttParser) :=
  block0 <- at_ block 0 ;;
  let time_and_style :=
    SplitString block0 " " TRIM_WHITESPACE SPLIT_WANT_NONEMPTY in
  match parsed_time time_and_style with
  | None => Returns (false, p)
  | Some (start_time, end_time) =>
      p <- (if negb (stream_info_dispatched_ p) then DispatchTextStreamInfo p
            else Returns p) ;;
      if end_time <=? start_time then Returns (true, p)
      else
        let sample := empty_sample in
        let sample := set_id sample id in
        let sample := SetTime sample start_time end_time in
        (* for (size_t i = 3; i < time_and_style.size(); i++) *)
        let sample := fold_left AppendStyle (skipn 3 time_and_style) sample in
        (* for (size_t i = 1; i < block_size; i++) *)
        let sample := fold_left AppendPayload (skipn 1 block) sample in
        Run_new_text_sample_cb p kStreamIndex sample
  end.

Definition ParseCueWithNoId (p : WebVttParser) (block : list string)
    : Outcome (bool * WebVttParser) :=
  ParseCue p "" block.

Definition ParseCueWithId (p : WebVttParser) (block : list string)
    : Outcome (bool * WebVttParser) :=
  block0 <- at_ block 0 ;;
  ParseCue p block0 (skipn 1 block).

(** [WebVttParser::ParseBlock]. *)
Definition ParseBlock (p : WebVttParser) (block : list string)
    : Outcome (bool * WebVttParser) :=
  block0 <- at_ block 0 ;;
  if IsLikelyNote block0 then Returns (true, p)
  else if IsLikelyStyle block0 then
    Returns (true,
             if saw_cue_ p then p
             else set_style_region_config p
                    (UpdateConfig block (style_region_config_ p)))
  else if IsLikelyRegion block0 then
    Returns (true,
             if saw_cue_ p then p
             else set_style_region_config p
                    (UpdateConfig block (style_region_config_ p)))
  else
    (* CUE with ID *)
    '(with_id, p) <-
      (if (2 <=? List.length block)%nat && MaybeCueId block0 then
         block1 <- at_ block 1 ;;
         if IsLikelyCueTiming block1 then ParseCueWithId p block
         else Returns (false, p)
       else Returns (false, p)) ;;
    if with_id then Returns (true, set_saw_cue p true)
    else
      (* CUE with no ID *)
      '(no_id, p) <-
        (if IsLikelyCueTiming block0 then ParseCueWithNoId p block
         else Returns (false, p)) ;;
      if no_id then Returns (true, set_saw_cue p true)
      else Returns (false, p).

(** The loop [while (reader_.Next(&block))] of [Parse].  Every turn takes
    at least one byte out of the reader, so a budget above the size of the
    buffer is never used up. *)
Fixpoint Parse_loop (fuel : nat) (p : WebVttParser)
    : Outcome (bool * WebVttParser) :=
  match fuel with
  | O => Crashes OutOfFuel
  | S fuel =>
      match BlockReader.Next (reader_ p) with
      | None => Returns (true, p)
      | Some (block, r) =>
          '(ok, p) <- ParseBlock (set_reader p r) block ;;
          if negb ok then Returns (false, p)
          else Parse_loop fuel p
      end
  end.

Definition loop_budget (p : WebVttParser) : nat :=
  S (String.length (BlockReader.buffer (reader_ p))).

(** [WebVttParser::Parse()]. *)
Definition Parse (p : WebVttParser) : Outcome (bool * WebVttParser) :=
  if negb (initialized_ p) then
    match BlockReader.Next (reader_ p) with
    | None => Returns (true, p)
    | Some (block, r) =>
        let p := set_reader p r in
        if negb (List.length block =? 1)%nat then Returns (false, p)
        else
          block0 <- at_ block 0 ;;
          if negb (block0 =? "WEBVTT")%string
             && negb (block0 =? kHeaderWithBOM)%string
          then Returns (false, p)
          else Parse_loop (loop_budget p) (set_initialized p true)
    end
  else Parse_loop (loop_budget p) p.

(** [WebVttParser::Parse(buf, size)]. *)
Definition Parse_buf (p : WebVttParser) (buf : string)
    : Outcome (bool * WebVttParser) :=
  Parse (set_reader p (BlockReader.PushData (reader_ p) buf)).

(** [WebVttParser::Flush]. *)
Definition Flush (p : WebVttParser) : Outcome (bool * WebVttParser) :=
  Parse (set_reader p (BlockReader.Flush (reader_ p))).

(* ================================================================== *)
(** ** Vocabulary of the statements *)

Definition nonblank (line : string) : Prop := line <> "".

(** The reader with [more] pushed behind what it holds, flushed or not. *)
Definition extend (more : string) (f : bool) (r : BlockReader.t) : BlockReader.t :=
  BlockReader.mk (BlockReader.buffer r ++ more) f.

(** Both callbacks are bound, as [Init] demands of its caller. *)
Definition wired (p : WebVttParser) : Prop :=
  is_null (init_cb_ p) = false /\ is_null (new_text_sample_cb_ p) = false.

(** The tokens [ParseCue] cuts the timing line into. *)
Definition timing_tokens (line : string) : list string :=
  SplitString line " " TRIM_WHITESPACE SPLIT_WANT_NONEMPTY.

(** The stream description [DispatchTextStreamInfo] sends for a config. *)
Definition stream_info (config : string) : TextStreamInfo :=
  mkTextStreamInfo 0 1000 0 kCodecWebVtt "wvtt" config 0 0 "".

(** The parser once the stream description has been sent: as it is when
    that happened before, and with the description delivered otherwise. *)
Definition announced (p : WebVttParser) : WebVttParser :=
  if stream_info_dispatched_ p then p
  else deliver (set_stream_info_dispatched p true)
         (StreamsReady [stream_info (style_region_config_ p)]).

(** The sample of a cue, field by field. *)
Definition cue_sample (id : string) (tokens : list string) (start_ end_ : Z)
    (body : list string) : TextSample :=
  mkTextSample id start_ end_ (JoinString (skipn 3 tokens) " ")
    (JoinString body newline).

(** How [ParseBlock] reads a block as a cue: the identifier and the lines
    from the timing line on, when the first line is neither a note, a
    style nor a region line and an arrow stands in the right line. *)
Definition cue_candidate (block : list string) : option (string * list string) :=
  match block with
  | [] => None
  | block0 :: rest =>
      if IsLikelyNote block0 || IsLikelyStyle block0 || IsLikelyRegion block0
      then None
      else if (2 <=? List.length block)%nat && MaybeCueId block0
              && IsLikelyCueTiming (nth 1 block "")
      then Some (block0, rest)
      else if IsLikelyCueTiming block0 then Some ("", block)
      else None
  end.

(** The loop of [Parse] over blocks that are given rather than read. *)
Fixpoint ParseBlocks (p : WebVttParser) (blocks : list (list string))
    : Outcome (bool * WebVttParser) :=
  match blocks with
  | [] => Returns (true, p)
  | block :: blocks =>
      '(ok, p) <- ParseBlock p block ;;
      if negb ok then Returns (false, p) else ParseBlocks p blocks
  end.

Definition is_stream_event (e : Event) : bool :=
  match e with
  | StreamsReady _ => true
  | NewTextSample _ _ => false
  end.

(** The stream descriptions and the samples among what was delivered. *)
Definition stream_events (l : list Event) : list Event := filter is_stream_event l.
Definition sample_events (l : list Event) : list Event :=
  filter (fun e => negb (is_stream_event e)) l.

(** *** The classification of a block, as the specification lists it *)

Inductive BlockKind : Type :=
| Comment
| Style
| Region
| CueWithId
| CueWithoutId
| Unclassifiable.

(** The timing line "split on whitespace into non-empty tokens", in the
    words of the specification: cut at every whitespace character, the
    empty pieces dropped. *)
Definition whitespace_tokens (line : string) : list string :=
  filter (fun piece => negb (is_empty piece)) (split_where IsAsciiWhitespace line).

(** The timing line cut at the space character only: the pieces between
    spaces, each without the whitespace at its two ends, the empty pieces
    dropped. *)
Definition space_tokens (line : string) : list string :=
  filter (fun piece => negb (is_empty piece))
    (map (fun piece => trim_trailing (trim_leading piece))
       (split_where (Ascii.eqb " "%char) line)).

(** A text that is a cue timestamp. *)
Definition is_timestamp (s : string) : bool :=
  match WebVttTimestampToMs s with
  | Some _ => true
  | None => false
  end.

(** "Parses as a valid cue", in the words of the specification: line 0 of
    the content lines is the timing line; cut into tokens it has at least
    three, the second is the arrow, the first and the third are
    timestamps.  [tokens] is the way the line is cut. *)
Definition parses_as_cue (tokens : string -> list string) (lines : list string)
    : bool :=
  let timing := tokens (nth 0 lines "") in
  (3 <=? List.length timing)%nat
  && (nth 1 timing "" =? "-->")%string
  && is_timestamp (nth 0 timing "")
  && is_timestamp (nth 2 timing "").

(** The rules in the order of the specification; the first that matches
    wins.  Comment: the first line is the note token, or starts with it and
    a space or a tab.  Style, region: the first line without its trailing
    whitespace is the token.  Cue with identifier: two lines or more, no
    arrow in line 0, an arrow in line 1, and the rest parses as a cue.  Cue
    without identifier: an arrow in line 0, and the block parses as a cue. *)
Definition classify (tokens : string -> list string) (block : list string)
    : BlockKind :=
  let line0 := nth 0 block "" in
  let line1 := nth 1 block "" in
  if (line0 =? "NOTE")%string
     || prefix "NOTE " line0
     || prefix ("NOTE" ++ String TAB "") line0 then Comment
  else if (trim_trailing line0 =? "STYLE")%string then Style
  else if (trim_trailing line0 =? "REGION")%string then Region
  else if (2 <=? List.length block)%nat
          && negb (contains line0 "-->") && contains line1 "-->"
          && parses_as_cue tokens (tl block) then CueWithId
  else if contains line0 "-->" && parses_as_cue tokens block then CueWithoutId
  else Unclassifiable.

(** The effect the specification gives each kind, as a property of what
    processing the block comes back with.  A comment changes nothing.  A
    style or region block is dropped after a cue and joins the config
    otherwise.  A cue has the stream description sent when it was not, and
    leaves the config alone; it succeeds with [saw_cue_] set, or fails
    because the sample went to the sink and the sink refused it.  A block
    of no kind fails and changes nothing. *)
Definition effect_of (kind : BlockKind) (p : WebVttParser) (block : list string)
    (out : Outcome (bool * WebVttParser)) : Prop :=
  match kind with
  | Comment => out = Returns (true, p)
  | Style | Region =>
      out = Returns (true,
                     if saw_cue_ p then p
                     else set_style_region_config p
                            (append_with (newline ++ newline)
                               (style_region_config_ p)
                               (JoinString block newline)))
  | CueWithId | CueWithoutId =>
      exists ok p',
        out = Returns (ok, p')
        /\ style_region_config_ p' = style_region_config_ p
        /\ stream_info_dispatched_ p' = true
        /\ stream_events (delivered p') = stream_events (delivered (announced p))
        /\ if ok then saw_cue_ p' = true
           else saw_cue_ p' = saw_cue_ p
                /\ exists accept sample,
                     new_text_sample_cb_ p = bound accept
                     /\ delivered p' =
                        (delivered (announced p) ++ [NewTextSample 0 sample])%list
                     /\ accept (delivered (announced p)) 0 sample = false
  | Unclassifiable => out = Returns (false, p)
  end.

(** A line whose only whitespace is the space character. *)
Definition only_spaces (line : string) : Prop :=
  Forall (fun c => IsAsciiWhitespace c = true -> c = " "%char)
    (list_ascii_of_string line).

(** No whitespace character in the string. *)
Definition whitespace_free (s : string) : Prop :=
  Forall (fun c => IsAsciiWhitespace c = false) (list_ascii_of_string s).


(** The stream description was delivered once if the flag says so, and
    never otherwise. *)
Definition dispatch_recorded (p : WebVttParser) : Prop :=
  List.length (stream_events (delivered p)) =
  if stream_info_dispatched_ p then 1%nat else 0%nat.

(** An outcome with the reader of the parser object replaced. *)
Definition with_reader (r : BlockReader.t) (out : Outcome (bool * WebVttParser))
    : Outcome (bool * WebVttParser) :=
  '(ok, p) <- out ;; Returns (ok, set_reader p r).

(** The reader hands out these blocks, one after the other, and is left
    in the last state. *)
Inductive reads : BlockReader.t -> list (list string) -> BlockReader.t -> Prop :=
| reads_nil r : reads r [] r
| reads_cons r block r1 blocks r2 :
    BlockReader.Next r = Some (block, r1) ->
    reads r1 blocks r2 ->
    reads r (block :: blocks) r2.

(** *** The config blob of a sequence of blocks, as the specification has it *)

(** A block that is not read as a cue: a note, style or region block. *)
Definition is_preamble_block (block : list string) : bool :=
  let line0 := nth 0 block "" in
  IsLikelyNote line0 || IsLikelyStyle line0 || IsLikelyRegion line0.

(** A style or region block (a note block is a comment whatever follows
    the note token). *)
Definition is_config_block (block : list string) : bool :=
  let line0 := nth 0 block "" in
  negb (IsLikelyNote line0) && (IsLikelyStyle line0 || IsLikelyRegion line0).

(** The blocks that arrive before the first block read as a cue. *)
Fixpoint before_first_cue (blocks : list (list string)) : list (list string) :=
  match blocks with
  | [] => []
  | block :: blocks =>
      if is_preamble_block block then block :: before_first_cue blocks else []
  end.

Definition config_blocks (blocks : list (list string)) : list (list string) :=
  filter is_config_block (before_first_cue blocks).

(** The style and region blocks before the first cue, in the order of
    arrival, the lines of each joined by single newlines, one blank line
    between two blocks. *)
Definition config_blob (blocks : list (list string)) : string :=
  JoinString (map (fun block => JoinString block newline) (config_blocks blocks))
    (newline ++ newline).

(** *** Concrete callers *)

(** An init callback, and sample callbacks that take or refuse everything. *)
Definition on_streams : InitCB := bound (fun _ _ => tt).
Definition accept_all : NewTextSampleCB := bound (fun _ _ _ => true).
Definition reject_all : NewTextSampleCB := bound (fun _ _ _ => false).

(** A parser after [Init] with these callbacks and no key source. *)
Definition ready_parser (sink : NewTextSampleCB) : WebVttParser :=
  set_callbacks new_parser on_streams sink.

(** The parser has got past the header: [p] itself when it is initialized,
    [p] with the header block consumed and the flag set otherwise. *)
Definition past_header (p p0 : WebVttParser) : Prop :=
  (initialized_ p = true /\ p0 = p) \/
  (initialized_ p = false /\
   exists header r,
     BlockReader.Next (reader_ p) = Some (header, r) /\
     (header = [kHeader] \/ header = [kHeaderWithBOM]) /\
     p0 = set_initialized (set_reader p r) true).

(** Feed the chunks one call after the other, stop at the first call that
    returns false, and finish with [Flush]. *)
Fixpoint feed (p : WebVttParser) (chunks : list string)
    : Outcome (bool * WebVttParser) :=
  match chunks with
  | [] => Flush p
  | chunk :: chunks =>
      '(ok, p) <- Parse_buf p chunk ;;
      if negb ok then Returns (false, p) else feed p chunks
  end.

(** What the caller sees of a run: the result and what was delivered. *)
Definition observed (out : Outcome (bool * WebVttParser))
    : Outcome (bool * list Event) :=
  '(ok, p) <- out ;; Returns (ok, delivered p).

(** The whole document, the chunks one after the other. *)
Definition document (chunks : list string) : string :=
  fold_right append "" chunks.

(** A text of lines, each ended by a line feed. *)
Definition text (lines : list string) : string :=
  fold_right (fun line rest => line ++ newline ++ rest) "" lines.

(** Two calls in a row on the same parser object, whatever the first
    returned; the result is that of the second. *)
Definition and_then (first : Outcome (bool * WebVttParser))
    (second : WebVttParser -> Outcome (bool * WebVttParser))
    : Outcome (bool * WebVttParser) :=
  '(_, p) <- first ;; second p.

(** The parser object a call leaves behind (the new parser when the call
    crashed). *)
Definition left_by (out : Outcome (bool * WebVttParser)) : WebVttParser :=
  match out with
  | Returns (_, p) => p
  | Crashes _ => new_parser
  end.

(** A parser whose reader holds [data]. *)
Definition holding (p : WebVttParser) (data : string) : WebVttParser :=
  set_reader p (BlockReader.PushData (reader_ p) data).

(** The fixture of [webvtt_parser_unittest.cc]: [Parse] on the whole text,
    then [Flush]; the two results and what the callbacks received. *)
Definition run_test (input : string) : Outcome (bool * bool * list Event) :=
  '(parsed, p) <- Parse_buf (ready_parser accept_all) input ;;
  '(flushed, p) <- Flush p ;;
  Returns (parsed, flushed, delivered p).

(** The document cut into chunks of one byte. *)
Definition one_byte_chunks (doc : string) : list string :=
  map (fun c => String c "") (list_ascii_of_string doc).

(** The parser with [more] pushed behind what its reader holds. *)
Definition extended (more : string) (f : bool) (p : WebVttParser) : WebVttParser :=
  set_reader p (extend more f (reader_ p)).

(** *** Auxiliary notions of the proofs *)

(** What [ParseCue] never touches. *)
Record same_setup (p p' : WebVttParser) : Prop := {
  same_init_cb : init_cb_ p' = init_cb_ p;
  same_sample_cb : new_text_sample_cb_ p' = new_text_sample_cb_ p;
  same_reader : reader_ p' = reader_ p;
  same_initialized : initialized_ p' = initialized_ p
}.



(** Closes a goal [Crashes f = Crashes g -> g = f]. *)
Ltac crashed :=
  let H := fresh in intros H; inversion H; subst; reflexivity.

(** The stream description that was delivered, if any, carries the
    config as it is now. *)
Definition description_current (p : WebVttParser) : Prop :=
  stream_events (delivered p) =
  if stream_info_dispatched_ p
  then [StreamsReady [stream_info (style_region_config_ p)]] else [].

(** Between two blocks of a run without failure: the description is
    current, and it was sent only once a cue had been seen. *)
Definition description_settled (p : WebVttParser) : Prop :=
  description_current p /\
  (stream_info_dispatched_ p = true -> saw_cue_ p = true).

(** Closes a goal [Returns (ok, p) = Returns (ok', p') -> P p'] when [P p]
    is at hand. *)
Ltac returned :=
  let H := fresh in intros H; inversion H; subst; assumption.

(* ================================================================== *)
(** ** Further vocabulary: what a run delivers *)

(** The description has been delivered if and only if the flag says so,
    it came first, and only samples came after it. *)
Definition description_first (p : WebVttParser) : Prop :=
  (stream_info_dispatched_ p = false /\ delivered p = []) \/
  (stream_info_dispatched_ p = true /\
   exists config samples,
     delivered p = StreamsReady [stream_info config] :: samples /\
     Forall (fun e => is_stream_event e = false) samples).

(** A sample event carries stream index 0 and a sample that ends after
    it starts. *)
Definition sound_event (e : Event) : Prop :=
  match e with
  | StreamsReady _ => True
  | NewTextSample stream_index sample =>
      stream_index = 0 /\ start_time sample < end_time sample
  end.

(** A sample event carries an identifier without the arrow. *)
Definition plain_id_event (e : Event) : Prop :=
  match e with
  | StreamsReady _ => True
  | NewTextSample _ sample => contains (id sample) "-->" = false
  end.

(** A flag that was set is still set. *)
Definition stays (before after : bool) : Prop := before = true -> after = true.

(** Only whitespace in the string. *)
Definition whitespace_only (s : string) : Prop :=
  Forall (fun c => IsAsciiWhitespace c = true) (list_ascii_of_string s).

(* ================================================================== *)
(** ** [BlockToString] *)

(** The loop of [BlockToString]: [remaining] more lines from index [i]
    on, each appended to [out] behind four spaces and ended by a line
    feed. *)
Fixpoint BlockToString_loop (block : list string) (i remaining : nat) (out : string)
    : Outcome string :=
  match remaining with
  | O => Returns out
  | S remaining =>
      line <- at_ block i ;;
      BlockToString_loop block (S i) remaining (out ++ "    " ++ line ++ newline)
  end.

(** [BlockToString(block, size)], the text of a block in a log message. *)
Definition BlockToString (block : list string) (size : nat) : Outcome string :=
  out <- BlockToString_loop block 0 size (" --- BLOCK START ---" ++ newline) ;;
  Returns (out ++ " --- BLOCK END ---").

(** No line feed in the string. *)
Definition one_line (s : string) : Prop :=
  Forall (fun c => c <> LF) (list_ascii_of_string s).

(** The lines of a block as [BlockToString] lays them out. *)
Definition indented (lines : list string) : string :=
  fold_right (fun line rest => "    " ++ line ++ newline ++ rest) "" lines.

(* ================================================================== *)
(** ** [packager/file/http_file.cc] *)

Module HttpFile.

(** The methods of [HttpMethod], as the switches of the file list them. *)
Inductive HttpMethod : Type := GET | POST | PUT | PATCH | DELETE.

(** The options of libcurl that the file sets. *)
Inductive CURLoption : Type :=
| CURLOPT_HTTPGET | CURLOPT_POST | CURLOPT_PUT | CURLOPT_CUSTOMREQUEST
| CURLOPT_URL | CURLOPT_USERAGENT | CURLOPT_TIMEOUT | CURLOPT_FAILONERROR
| CURLOPT_FOLLOWLOCATION | CURLOPT_WRITEFUNCTION | CURLOPT_WRITEDATA
| CURLOPT_SSLKEY | CURLOPT_KEYPASSWD | CURLOPT_SSLKEYTYPE | CURLOPT_SSLCERTTYPE
| CURLOPT_SSLCERT | CURLOPT_SSL_VERIFYHOST | CURLOPT_CAINFO | CURLOPT_VERBOSE
| CURLOPT_READFUNCTION | CURLOPT_READDATA | CURLOPT_UPLOAD | CURLOPT_HTTPHEADER.

(** What an option is set to: a number, a text, one of the two callbacks
    of the file, the address of the response text or of the cache, or a
    list of headers. *)
Inductive CurlValue : Type :=
| number (n : Z)
| chars (s : string)
| AppendToString_callback
| response_address
| read_callback_callback
| cache_address
| slist (headers : list string).

(** A curl handle: the options set on it, in the order of the calls. *)
Definition CURL : Type := list (CURLoption * CurlValue).

Definition curl_easy_setopt (curl : CURL) (option : CURLoption) (value : CurlValue)
    : CURL :=
  (curl ++ [(option, value)])%list.

Definition curl_slist_append (headers : list string) (header : string)
    : list string :=
  (headers ++ [header])%list.

(** The result codes of libcurl that the file tells apart. *)
Definition CURLE_OK : Z := 0.
Definition CURLE_HTTP_RETURNED_ERROR : Z := 22.
Definition CURLE_OPERATION_TIMEDOUT : Z := 28.

(** What [curl_easy_perform] comes back with: its result code, the text
    [curl_easy_strerror] has for it, the response code of the server, and
    the pieces of the response body that libcurl handed to the write
    callback. *)
Record Transfer : Type := mkTransfer {
  result : Z;
  reason : string;
  response_code : Z;
  received : list string
}.

(** The error codes of [Status] that the file uses. *)
Inductive Code : Type := OK | TIME_OUT | HTTP_FAILURE.

Record Status : Type := mkStatus { error_code : Code; error_message : string }.

(** [Status::OK]. *)
Definition Status_OK : Status := mkStatus OK "".

(** [status == Status::OK]. *)
Definition is_OK (status : Status) : bool :=
  match error_code status with
  | OK => is_empty (error_message status)
  | _ => false
  end.

(** The command line flags the file reads; the verbosity is an [int32],
    the others are texts. *)
Record Flags : Type := mkFlags {
  FLAGS_libcurl_verbosity : Z;
  FLAGS_user_agent : string;
  FLAGS_https_ca_file : string;
  FLAGS_https_cert_file : string;
  FLAGS_https_cert_private_key_file : string;
  FLAGS_https_cert_private_key_password : string;
  FLAGS_http_upload_headers : string
}.

Definition kUserAgentString : string := "shaka-packager-uploader/0.1".

(** An [int32] handed to the variadic [curl_easy_setopt] for an option that
    takes a [long]: the call passes the 32 bits of the value, and the long
    that libcurl reads has them as its low half under zeros, as the x86-64
    calling convention leaves them.  A value that is not negative is read
    as it is, a negative one as the value plus 2^32. *)
Definition int32_read_as_long (n : Z) : Z := n mod 2 ^ 32.

(** The members of [HttpFile] that the requests use; [task_exit_event_]
    is whether the event is signaled. *)
Record t : Type := mk {
  file_name_ : string;
  file_mode_ : string;
  user_agent_ : string;
  user_headers_ : string;
  ca_file_ : string;
  cert_file_ : string;
  cert_private_key_file_ : string;
  cert_private_key_pass_ : string;
  timeout_in_seconds_ : Z;
  resource_url_ : string;
  response_body_ : string;
  curl_ : CURL;
  task_exit_event_ : bool
}.

Definition set_curl (f : t) (curl : CURL) : t :=
  mk (file_name_ f) (file_mode_ f) (user_agent_ f) (user_headers_ f) (ca_file_ f)
     (cert_file_ f) (cert_private_key_file_ f) (cert_private_key_pass_ f)
     (timeout_in_seconds_ f) (resource_url_ f) (response_body_ f) curl
     (task_exit_event_ f).

Definition set_response_body (f : t) (body : string) : t :=
  mk (file_name_ f) (file_mode_ f) (user_agent_ f) (user_headers_ f) (ca_file_ f)
     (cert_file_ f) (cert_private_key_file_ f) (cert_private_key_pass_ f)
     (timeout_in_seconds_ f) (resource_url_ f) body (curl_ f)
     (task_exit_event_ f).

(** [task_exit_event_.Signal()]. *)
Definition Signal (f : t) : t :=
  mk (file_name_ f) (file_mode_ f) (user_agent_ f) (user_headers_ f) (ca_file_ f)
     (cert_file_ f) (cert_private_key_file_ f) (cert_private_key_pass_ f)
     (timeout_in_seconds_ f) (resource_url_ f) (response_body_ f) (curl_ f) true.

(** [AppendToString(ptr, size, nmemb, response)]: the first [size * nmemb]
    bytes at [ptr] appended to the response, and their number. *)
Definition AppendToString (ptr : string) (size nmemb : Z) (response : string)
    : Z * string :=
  let total_size := wrap64 (size * nmemb) in
  (total_size, response ++ substring 0 (Z.to_nat total_size) ptr).

(** [HttpFile::HttpFile(file_name, mode, https)].  [curl] is the handle
    the member [scoped_curl] holds, nothing when [curl_easy_init] failed;
    the object then deletes itself and there is no file. *)
Definition new (flags : Flags) (curl : option CURL)
    (file_name mode : string) (https : bool) : option t :=
  let resource_url :=
    if https then "https://" ++ file_name else "http://" ++ file_name in
  match curl with
  | None => None
  | Some curl =>
      Some (mk file_name mode (FLAGS_user_agent flags)
              (FLAGS_http_upload_headers flags) (FLAGS_https_ca_file flags)
              (FLAGS_https_cert_file flags)
              (FLAGS_https_cert_private_key_file flags)
              (FLAGS_https_cert_private_key_password flags)
              0 resource_url "" curl false)
  end.

(** [HttpFile::HttpFile(file_name, mode)]. *)
Definition new_http (flags : Flags) (curl : option CURL) (file_name mode : string)
    : option t :=
  new flags curl file_name mode false.

(** [HttpFile::method_as_text]. *)
Definition method_as_text (method : HttpMethod) : string :=
  let method_text := "UNKNOWN" in
  match method with
  | GET => "GET"
  | POST => "POST"
  | PUT => "PUT"
  | PATCH => "PATCH"
  | DELETE => "DELETE"
  end.

(** [HttpFile::SetupRequestBase(http_method, response)], with the response
    text of the file for [response], as both callers have it. *)
Definition SetupRequestBase (flags : Flags) (f : t) (http_method : HttpMethod) : t :=
  let f := set_response_body f "" in
  let curl := curl_ f in
  let curl :=
    match http_method with
    | GET => curl_easy_setopt curl CURLOPT_HTTPGET (number 1)
    | POST => curl_easy_setopt curl CURLOPT_POST (number 1)
    | PUT => curl_easy_setopt curl CURLOPT_PUT (number 1)
    | PATCH => curl_easy_setopt curl CURLOPT_CUSTOMREQUEST (chars "PATCH")
    | DELETE => curl_easy_setopt curl CURLOPT_CUSTOMREQUEST (chars "DELETE")
    end in
  let curl := curl_easy_setopt curl CURLOPT_URL (chars (resource_url_ f)) in
  let curl :=
    if is_empty (user_agent_ f)
    then curl_easy_setopt curl CURLOPT_USERAGENT (chars kUserAgentString)
    else curl_easy_setopt curl CURLOPT_USERAGENT (chars (user_agent_ f)) in
  let curl := curl_easy_setopt curl CURLOPT_TIMEOUT (number (timeout_in_seconds_ f)) in
  let curl := curl_easy_setopt curl CURLOPT_FAILONERROR (number 1) in
  let curl := curl_easy_setopt curl CURLOPT_FOLLOWLOCATION (number 1) in
  let curl := curl_easy_setopt curl CURLOPT_WRITEFUNCTION AppendToString_callback in
  let curl := curl_easy_setopt curl CURLOPT_WRITEDATA response_address in
  (* HTTPS *)
  let curl :=
    if negb (is_empty (cert_private_key_file_ f)) && negb (is_empty (cert_file_ f))
    then
      let curl :=
        curl_easy_setopt curl CURLOPT_SSLKEY (chars (cert_private_key_file_ f)) in
      let curl :=
        if negb (is_empty (cert_private_key_pass_ f))
        then curl_easy_setopt curl CURLOPT_KEYPASSWD
               (chars (cert_private_key_pass_ f))
        else curl in
      let curl := curl_easy_setopt curl CURLOPT_SSLKEYTYPE (chars "PEM") in
      let curl := curl_easy_setopt curl CURLOPT_SSLCERTTYPE (chars "PEM") in
      curl_easy_setopt curl CURLOPT_SSLCERT (chars (cert_file_ f))
    else curl in
  let curl :=
    if negb (is_empty (ca_file_ f))
    then
      let curl := curl_easy_setopt curl CURLOPT_SSL_VERIFYHOST (number 0) in
      curl_easy_setopt curl CURLOPT_CAINFO (chars (ca_file_ f))
    else curl in
  let curl :=
    curl_easy_setopt curl CURLOPT_VERBOSE
      (number (int32_read_as_long (FLAGS_libcurl_verbosity flags))) in
  set_curl f curl.

(** The headers [SetupRequestData] builds. *)
Definition request_headers (f : t) (http_method : HttpMethod) : list string :=
  let headers := [] in
  let headers := curl_slist_append headers "Expect:" in
  let user_headers :=
    SplitString (user_headers_ f) newline KEEP_WHITESPACE SPLIT_WANT_NONEMPTY in
  (* for (size_t i = 0; i < user_headers.size(); ++i) *)
  let headers := fold_left curl_slist_append user_headers headers in
  match http_method with
  | POST | PUT | PATCH =>
      let headers :=
        curl_slist_append headers "Content-Type: application/octet-stream" in
      curl_slist_append headers "Transfer-Encoding: chunked"
  | _ => headers
  end.

(** [HttpFile::SetupRequestData(http_method)]. *)
Definition SetupRequestData (f : t) (http_method : HttpMethod) : t :=
  let headers := request_headers f http_method in
  let curl := curl_ f in
  let curl :=
    match http_method with
    | POST | PUT | PATCH =>
        let curl :=
          curl_easy_setopt curl CURLOPT_READFUNCTION read_callback_callback in
        let curl := curl_easy_setopt curl CURLOPT_READDATA cache_address in
        curl_easy_setopt curl CURLOPT_UPLOAD (number 1)
    | _ => curl
    end in
  let curl := curl_easy_setopt curl CURLOPT_HTTPHEADER (slist headers) in
  set_curl f curl.

(** [base::StringPrintf("%ld", n)]. *)
Definition decimal (n : Z) : string := NilZero.string_of_int (Z.to_int n).

(** The error message of [Request]. *)
Definition request_error_message (f : t) (http_method : HttpMethod)
    (transfer : Transfer) : string :=
  let method_text := method_as_text http_method in
  let error_message :=
    method_text ++ " request for " ++ resource_url_ f ++ " failed. Reason: "
    ++ reason transfer ++ "." in
  if result transfer =? CURLE_HTTP_RETURNED_ERROR
  then error_message ++ " Response code: " ++ decimal (response_code transfer) ++ "."
  else error_message.

(** [HttpFile::Request(http_method, response)], with the response text of
    the file for [response], as both callers have it.  [perform] is
    [curl_easy_perform] on the handle as it is set up; libcurl hands each
    piece it receives to the write callback, with size 1. *)
Definition Request (flags : Flags) (perform : CURL -> Transfer) (f : t)
    (http_method : HttpMethod) : Status * t :=
  let f := SetupRequestBase flags f http_method in
  let f := SetupRequestData f http_method in
  let transfer := perform (curl_ f) in
  let f :=
    fold_left
      (fun f piece =>
         set_response_body f
           (snd (AppendToString piece 1 (Z.of_nat (String.length piece))
                   (response_body_ f))))
      (received transfer) f in
  let res := result transfer in
  let status := Status_OK in
  let status :=
    if negb (res =? CURLE_OK) then
      mkStatus (if res =? CURLE_OPERATION_TIMEDOUT then TIME_OUT else HTTP_FAILURE)
        (request_error_message f http_method transfer)
    else status in
  let f := Signal f in
  (status, f).

(** [HttpFile::CurlPut]. *)
Definition CurlPut (flags : Flags) (perform : CURL -> Transfer) (f : t) : t :=
  snd (Request flags perform f PUT).

(** [HttpFile::Delete()]. *)
Definition Delete (flags : Flags) (perform : CURL -> Transfer) (f : t) : bool * t :=
  let (status, f) := Request flags perform f DELETE in
  (is_OK status, f).

(** [HttpFile::Delete(file_name, https)]; nothing when the file could not
    be made. *)
Definition Delete_static (flags : Flags) (curl : option CURL)
    (perform : CURL -> Transfer) (file_name : string) (https : bool) : option bool :=
  match new flags curl file_name "w" https with
  | Some file => Some (fst (Delete flags perform file))
  | None => None
  end.

(** *** What the statements about the requests are written with *)

Definition CURLoption_eq_dec (a b : CURLoption) : {a = b} + {a <> b}.
Proof. decide equality. Defined.

(** The value an option has on a handle: the one it was last set to. *)
Definition effective (curl : CURL) (opt : CURLoption) : option CurlValue :=
  fold_left
    (fun found setting =>
       if CURLoption_eq_dec (fst setting) opt then Some (snd setting) else found)
    curl None.

(** The options set on a handle since it was [before]. *)
Definition set_since (before after : CURL) : CURL :=
  skipn (List.length before) after.

(** The methods with a body: the cases [POST], [PUT] and [PATCH] of the
    switch in [SetupRequestData]. *)
Definition sends_body (http_method : HttpMethod) : bool :=
  match http_method with
  | POST | PUT | PATCH => true
  | GET | DELETE => false
  end.

(** The handle [Request] hands to [curl_easy_perform]. *)
Definition prepared (flags : Flags) (f : t) (http_method : HttpMethod) : CURL :=
  curl_ (SetupRequestData (SetupRequestBase flags f http_method) http_method).

(** A transfer that received nothing and ended with [code]. *)
Definition ends_with (code : Z) (why : string) (curl : CURL) : Transfer :=
  mkTransfer code why 0 [].

(** A transfer that received [pieces] and ended well. *)
Definition answers (pieces : list string) (curl : CURL) : Transfer :=
  mkTransfer CURLE_OK "No error" 200 pieces.

(** Flags as they are when none is given, but for the upload headers. *)
Definition flags_with_headers (headers : string) : Flags :=
  mkFlags 0 "" "" "" "" "" headers.

(** The file the constructor makes for [name] over http, on a handle with
    nothing set, when the flags are [flags_with_headers headers]. *)
Definition upload_file (name headers : string) : t :=
  mk name "w" "" headers "" "" "" "" 0 ("http://" ++ name) "" [] false.

End HttpFile.

(* ================================================================== *)
(** ** The block reader: what it yields and what it leaves *)

Lemma is_empty_true s : is_empty s = true <-> s = "".
Proof. destruct s; simpl; split; congruence. Qed.

Lemma is_empty_false s : is_empty s = false <-> s <> "".
Proof. destruct s; simpl; split; congruence. Qed.

Lemma append_nil_r s : s ++ "" = s.
Proof. induction s as [|c s IH]; simpl; [reflexivity | now rewrite IH]. Qed.

Lemma append_assoc s1 s2 s3 : (s1 ++ s2) ++ s3 = s1 ++ (s2 ++ s3).
Proof. induction s1 as [|c s1 IH]; simpl; [reflexivity | now rewrite IH]. Qed.

Lemma length_append s1 s2 :
  String.length (s1 ++ s2) = (String.length s1 + String.length s2)%nat.
Proof. induction s1 as [|c s1 IH]; simpl; [reflexivity | now rewrite IH]. Qed.

Section Scan.
Import BlockReader.

(** Every block handed out has a line, and none of its lines is blank. *)
Lemma scan_nonblank buf : forall f line block b rest,
  Forall nonblank block ->
  scan f buf line block = Some (b, rest) ->
  b <> [] /\ Forall nonblank b.
Proof.
  induction buf as [|c buf IH]; intros f line block b rest Hblock H; simpl in H.
  - destruct f; [|discriminate].
    destruct (is_empty (strip_cr line)) eqn:E.
    + destruct block; [discriminate|]. inversion H; subst. split; [discriminate|assumption].
    + apply is_empty_false in E.
      assert (Hall : Forall nonblank (block ++ [strip_cr line])%list).
      { apply Forall_app; split; [assumption|]. constructor; [exact E|constructor]. }
      destruct (block ++ [strip_cr line])%list eqn:E2.
      * discriminate.
      * inversion H; subst. split; [discriminate|assumption].
  - destruct (Ascii.eqb c LF).
    + destruct (is_empty (strip_cr line)) eqn:E.
      * destruct block as [|l0 block].
        -- eapply IH; [|exact H]. constructor.
        -- inversion H; subst. split; [discriminate|assumption].
      * apply is_empty_false in E. eapply IH; [|exact H].
        apply Forall_app; split; [assumption|]. constructor; [exact E|constructor].
    + eapply IH; eassumption.
Qed.

(** A block is paid for with at least one byte of the buffer. *)
Lemma scan_shrinks buf : forall f line block b rest,
  scan f buf line block = Some (b, rest) ->
  (String.length rest <= String.length buf)%nat /\
  (block = [] -> is_empty (strip_cr line) = true ->
   (String.length rest < String.length buf)%nat).
Proof.
  induction buf as [|c buf IH]; intros f line block b rest H; simpl in H.
  - destruct f; [|discriminate].
    destruct (is_empty (strip_cr line)) eqn:E.
    + destruct block; [discriminate|]. inversion H; subst. simpl.
      split; [lia|discriminate].
    + destruct (block ++ [strip_cr line])%list; [discriminate|].
      inversion H; subst. simpl. split; [lia|discriminate].
  - simpl. destruct (Ascii.eqb c LF).
    + destruct (is_empty (strip_cr line)) eqn:E.
      * destruct block as [|l0 block].
        -- apply IH in H. destruct H as [_ H]. specialize (H eq_refl eq_refl).
           split; intros; lia.
        -- inversion H; subst. split; intros; lia.
      * apply IH in H. destruct H as [H _]. split; intros; lia.
    + apply IH in H. destruct H as [H _]. split; intros; lia.
Qed.

(** Before [flush], a block that is there stays the same block whatever
    is pushed behind it and whether or not the reader is flushed. *)
Lemma scan_stable buf : forall line block b rest f more,
  scan false buf line block = Some (b, rest) ->
  scan f (buf ++ more) line block = Some (b, rest ++ more).
Proof.
  induction buf as [|c buf IH]; intros line block b rest f more H; simpl in H.
  - discriminate.
  - simpl. destruct (Ascii.eqb c LF).
    + destruct (is_empty (strip_cr line)).
      * destruct block as [|l0 block].
        -- now apply IH.
        -- inversion H; subst. reflexivity.
      * now apply IH.
    + now apply IH.
Qed.

End Scan.

Lemma Next_nonblank r block r' :
  BlockReader.Next r = Some (block, r') -> block <> [] /\ Forall nonblank block.
Proof.
  unfold BlockReader.Next. intros H.
  destruct (BlockReader.scan _ _ _ _) as [[b rest]|] eqn:E; [|discriminate].
  inversion H; subst. eapply scan_nonblank; [|exact E]. constructor.
Qed.

Lemma Next_shrinks r block r' :
  BlockReader.Next r = Some (block, r') ->
  (String.length (BlockReader.buffer r') < String.length (BlockReader.buffer r))%nat
  /\ BlockReader.flushed r' = BlockReader.flushed r.
Proof.
  unfold BlockReader.Next. intros H.
  destruct (BlockReader.scan _ _ _ _) as [[b rest]|] eqn:E; [|discriminate].
  inversion H; subst. simpl. split; [|reflexivity].
  apply scan_shrinks in E. now apply E.
Qed.

Lemma Next_stable r block r' more f :
  BlockReader.flushed r = false ->
  BlockReader.Next r = Some (block, r') ->
  BlockReader.Next (extend more f r) = Some (block, extend more f r').
Proof.
  unfold BlockReader.Next, extend. intros Hf H. rewrite Hf in H. simpl.
  destruct (BlockReader.scan false _ _ _) as [[b rest]|] eqn:E; [|discriminate].
  inversion H; subst. simpl.
  now rewrite (scan_stable _ _ _ _ _ f more E).
Qed.

(* ================================================================== *)
(** ** What [ParseCue] and [ParseBlock] do, case by case *)

Lemma append_with_nonblank sep cur x : nonblank x -> nonblank (append_with sep cur x).
Proof.
  unfold append_with, nonblank. intros Hx.
  destruct cur as [|c cur]; simpl; [assumption|discriminate].
Qed.

Lemma fold_append_with sep l : forall cur,
  Forall nonblank l ->
  fold_left (append_with sep) l cur =
  match l with
  | [] => cur
  | _ => if is_empty cur then concat sep l else cur ++ sep ++ concat sep l
  end.
Proof.
  induction l as [|x l IH]; intros cur Hl; [reflexivity|].
  inversion Hl as [|? ? Hx Hl']; subst. simpl fold_left.
  rewrite (IH _ Hl').
  pose proof (append_with_nonblank sep cur x Hx) as Hne.
  apply is_empty_false in Hne.
  destruct l as [|y l].
  - unfold append_with. simpl. reflexivity.
  - rewrite Hne. unfold append_with.
    destruct (is_empty cur); simpl; [reflexivity|].
    now rewrite !append_assoc.
Qed.

Lemma fold_AppendStyle l : forall s,
  fold_left AppendStyle l s =
  mkTextSample (id s) (start_time s) (end_time s)
    (fold_left (append_with " ") l (settings s)) (payload s).
Proof.
  induction l as [|x l IH]; intros s; simpl; [now destruct s|].
  now rewrite IH.
Qed.

Lemma fold_AppendPayload l : forall s,
  fold_left AppendPayload l s =
  mkTextSample (id s) (start_time s) (end_time s) (settings s)
    (fold_left (append_with newline) l (payload s)).
Proof.
  induction l as [|x l IH]; intros s; simpl; [now destruct s|].
  now rewrite IH.
Qed.

Lemma SplitString_nonblank input seps ws :
  Forall nonblank (SplitString input seps ws SPLIT_WANT_NONEMPTY).
Proof.
  unfold SplitString. destruct (is_empty input); [constructor|].
  apply Forall_forall. intros x Hx. apply filter_In in Hx.
  destruct Hx as [_ Hx]. apply negb_true_iff in Hx. now apply is_empty_false.
Qed.

Lemma join_nonblank x l sep : nonblank x -> nonblank (concat sep (x :: l)).
Proof.
  unfold nonblank. intros Hx. destruct x; [congruence|].
  destruct l; simpl; discriminate.
Qed.

Lemma Forall_skipn {A} (P : A -> Prop) n : forall l, Forall P l -> Forall P (skipn n l).
Proof.
  induction n as [|n IH]; intros l H; [assumption|].
  destruct l; [constructor|]. inversion H; subst. simpl. now apply IH.
Qed.

Lemma built_sample_from id styles start_ end_ body :
  Forall nonblank styles -> Forall nonblank body ->
  fold_left AppendPayload body
    (fold_left AppendStyle styles (SetTime (set_id empty_sample id) start_ end_))
  = mkTextSample id start_ end_ (concat " " styles) (concat newline body).
Proof.
  intros Hs Hb. rewrite fold_AppendPayload, fold_AppendStyle.
  rewrite !fold_append_with by assumption.
  destruct styles, body; reflexivity.
Qed.

(** The sample [ParseCue] builds. *)
Lemma built_sample id tokens start_ end_ body :
  Forall nonblank tokens -> Forall nonblank body ->
  fold_left AppendPayload body
    (fold_left AppendStyle (skipn 3 tokens)
       (SetTime (set_id empty_sample id) start_ end_))
  = cue_sample id tokens start_ end_ body.
Proof.
  intros Ht Hb. apply built_sample_from; [|assumption].
  now apply Forall_skipn.
Qed.

Lemma ParseCue_eq p id line body :
  ParseCue p id (line :: body) =
  match parsed_time (timing_tokens line) with
  | None => Returns (false, p)
  | Some (start_, end_) =>
      p1 <- (if negb (stream_info_dispatched_ p) then DispatchTextStreamInfo p
             else Returns p) ;;
      if end_ <=? start_ then Returns (true, p1)
      else Run_new_text_sample_cb p1 kStreamIndex
             (fold_left AppendPayload body
                (fold_left AppendStyle (skipn 3 (timing_tokens line))
                   (SetTime (set_id empty_sample id) start_ end_)))
  end.
Proof. reflexivity. Qed.

Lemma ParseCue_unparsed p id line body :
  parsed_time (timing_tokens line) = None ->
  ParseCue p id (line :: body) = Returns (false, p).
Proof. intros H. now rewrite ParseCue_eq, H. Qed.

Lemma announce_eq p :
  is_null (init_cb_ p) = false ->
  (if negb (stream_info_dispatched_ p) then DispatchTextStreamInfo p
   else Returns p) = Returns (announced p).
Proof.
  intros Hcb. unfold announced, DispatchTextStreamInfo, Run_init_cb.
  destruct (stream_info_dispatched_ p); [reflexivity|]. simpl.
  destruct (init_cb_ p); [discriminate|reflexivity].
Qed.


Lemma ParseCue_sample p id line body start_ end_ accept :
  is_null (init_cb_ p) = false ->
  new_text_sample_cb_ p = bound accept ->
  Forall nonblank body ->
  parsed_time (timing_tokens line) = Some (start_, end_) ->
  start_ < end_ ->
  let sample := cue_sample id (timing_tokens line) start_ end_ body in
  ParseCue p id (line :: body) =
  Returns (accept (delivered (announced p)) kStreamIndex sample,
           deliver (announced p) (NewTextSample kStreamIndex sample)).
Proof.
  intros Hcb Hs Hbody H Hlt sample.
  rewrite ParseCue_eq, H, (announce_eq p Hcb). unfold bind.
  assert (Hgt : (end_ <=? start_) = false) by (apply Z.leb_gt; lia).
  rewrite Hgt, built_sample; [|apply SplitString_nonblank|assumption].
  assert (Hcb' : new_text_sample_cb_ (announced p) = bound accept).
  { unfold announced. destruct (stream_info_dispatched_ p); simpl; assumption. }
  unfold Run_new_text_sample_cb. now rewrite Hcb'.
Qed.

Lemma MaybeCueId_not_timing line :
  MaybeCueId line = negb (IsLikelyCueTiming line).
Proof. reflexivity. Qed.

Lemma ParseBlock_note p block0 rest :
  IsLikelyNote block0 = true ->
  ParseBlock p (block0 :: rest) = Returns (true, p).
Proof. intros H. unfold ParseBlock, at_. cbn [nth_error bind]. now rewrite H. Qed.

Lemma ParseBlock_config p block0 rest :
  IsLikelyNote block0 = false ->
  IsLikelyStyle block0 || IsLikelyRegion block0 = true ->
  ParseBlock p (block0 :: rest) =
  Returns (true,
           if saw_cue_ p then p
           else set_style_region_config p
                  (UpdateConfig (block0 :: rest) (style_region_config_ p))).
Proof.
  intros Hn H. unfold ParseBlock, at_. cbn [nth_error bind]. rewrite Hn.
  destruct (IsLikelyStyle block0); [reflexivity|].
  simpl in H. now rewrite H.
Qed.

Lemma ParseBlock_cue p block id lines :
  cue_candidate block = Some (id, lines) ->
  ParseBlock p block =
  '(ok, p') <- ParseCue p id lines ;;
  Returns (ok, if ok then set_saw_cue p' true else p').
Proof.
  destruct block as [|block0 rest]; [discriminate|].
  unfold cue_candidate.
  destruct (IsLikelyNote block0) eqn:Hn; [discriminate|].
  destruct (IsLikelyStyle block0) eqn:Hs; [discriminate|].
  destruct (IsLikelyRegion block0) eqn:Hr; [discriminate|].
  cbn [orb].
  unfold ParseBlock, at_. cbn [nth_error bind]. rewrite Hn, Hs, Hr.
  destruct ((2 <=? List.length (block0 :: rest))%nat && MaybeCueId block0) eqn:Hshape.
  - (* two lines or more, and no arrow in the first *)
    apply andb_true_iff in Hshape. destruct Hshape as [Hlen Hid].
    destruct rest as [|block1 rest]; [discriminate|].
    cbn [nth nth_error bind andb].
    assert (Hno : IsLikelyCueTiming block0 = false).
    { rewrite MaybeCueId_not_timing in Hid. now apply negb_true_iff in Hid. }
    destruct (IsLikelyCueTiming block1) eqn:Ht.
    + intros H. inversion H; subst.
      unfold ParseCueWithId, at_. cbn [nth_error bind skipn].
      destruct (ParseCue p id (block1 :: rest)) as [[[|] p']|f]; cbn [bind].
      * reflexivity.
      * rewrite Hno. reflexivity.
      * reflexivity.
    + rewrite Hno. discriminate.
  - (* the first line is the timing line *)
    cbn [andb bind].
    destruct (IsLikelyCueTiming block0) eqn:Ht; [|discriminate].
    intros H. inversion H; subst. unfold ParseCueWithNoId.
    destruct (ParseCue p "" (block0 :: rest)) as [[[|] p']|f]; reflexivity.
Qed.

Lemma ParseBlock_unclassified p block0 rest :
  IsLikelyNote block0 = false ->
  IsLikelyStyle block0 = false ->
  IsLikelyRegion block0 = false ->
  cue_candidate (block0 :: rest) = None ->
  ParseBlock p (block0 :: rest) = Returns (false, p).
Proof.
  intros Hn Hs Hr. unfold cue_candidate. rewrite Hn, Hs, Hr. cbn [orb].
  unfold ParseBlock, at_. cbn [nth_error bind]. rewrite Hn, Hs, Hr.
  destruct ((2 <=? List.length (block0 :: rest))%nat && MaybeCueId block0) eqn:Hshape.
  - apply andb_true_iff in Hshape. destruct Hshape as [Hlen Hid].
    destruct rest as [|block1 rest]; [discriminate|].
    cbn [nth nth_error bind andb].
    destruct (IsLikelyCueTiming block1); [discriminate|].
    destruct (IsLikelyCueTiming block0); [discriminate|]. reflexivity.
  - cbn [andb bind].
    destruct (IsLikelyCueTiming block0); [discriminate|]. reflexivity.
Qed.

(** The four ways a block with a first line can go. *)
Lemma block_cases block0 rest :
  IsLikelyNote block0 = true \/
  (IsLikelyNote block0 = false /\ IsLikelyStyle block0 || IsLikelyRegion block0 = true) \/
  (IsLikelyNote block0 = false /\ IsLikelyStyle block0 = false /\
   IsLikelyRegion block0 = false /\
   exists id lines, cue_candidate (block0 :: rest) = Some (id, lines)) \/
  (IsLikelyNote block0 = false /\ IsLikelyStyle block0 = false /\
   IsLikelyRegion block0 = false /\ cue_candidate (block0 :: rest) = None).
Proof.
  destruct (IsLikelyNote block0); [now left|right].
  destruct (IsLikelyStyle block0); [now left|].
  destruct (IsLikelyRegion block0); [now left|right].
  destruct (cue_candidate (block0 :: rest)) as [[id lines]|].
  - left. repeat split; eauto.
  - right. repeat split; reflexivity.
Qed.

(** A candidate has a timing line. *)
Lemma cue_candidate_lines block id lines :
  cue_candidate block = Some (id, lines) ->
  exists line body, lines = line :: body /\
    ((id = "" /\ lines = block /\ IsLikelyCueTiming line = true) \/
     (block = id :: lines /\ MaybeCueId id = true /\ IsLikelyCueTiming line = true)).
Proof.
  destruct block as [|block0 rest]; [discriminate|]. unfold cue_candidate.
  destruct (_ || _ || _); [discriminate|].
  destruct ((2 <=? _)%nat && MaybeCueId block0 && _) eqn:E.
  - intros H; inversion H; subst.
    apply andb_true_iff in E. destruct E as [E Ht].
    apply andb_true_iff in E. destruct E as [Hlen Hid].
    destruct lines as [|line body]; [discriminate|].
    exists line, body. split; [reflexivity|]. right. auto.
  - destruct (IsLikelyCueTiming block0) eqn:Ht; [|discriminate].
    intros H; inversion H; subst.
    exists block0, rest. split; [reflexivity|]. left. auto.
Qed.

Lemma same_setup_refl p : same_setup p p.
Proof. now constructor. Qed.

Lemma same_setup_trans p q r : same_setup p q -> same_setup q r -> same_setup p r.
Proof. intros [] []. constructor; congruence. Qed.

Lemma announced_setup p : same_setup p (announced p).
Proof. unfold announced. destruct (stream_info_dispatched_ p); now constructor. Qed.

Lemma announced_flags p :
  saw_cue_ (announced p) = saw_cue_ p /\
  style_region_config_ (announced p) = style_region_config_ p /\
  stream_info_dispatched_ (announced p) = true.
Proof. unfold announced. destruct (stream_info_dispatched_ p) eqn:E; simpl; auto. Qed.

Lemma announce_returns p p1 :
  (if negb (stream_info_dispatched_ p) then DispatchTextStreamInfo p
   else Returns p) = Returns p1 ->
  p1 = announced p.
Proof.
  unfold announced, DispatchTextStreamInfo, Run_init_cb.
  destruct (stream_info_dispatched_ p); simpl.
  - congruence.
  - destruct (init_cb_ p); [discriminate|]. intros H; inversion H. reflexivity.
Qed.

(** The ways [ParseCue] comes back on lines that begin with a timing line. *)
Lemma ParseCue_returns p id line body ok p' :
  ParseCue p id (line :: body) = Returns (ok, p') ->
  (parsed_time (timing_tokens line) = None /\ ok = false /\ p' = p) \/
  (exists start_ end_,
     parsed_time (timing_tokens line) = Some (start_, end_) /\
     ((end_ <= start_ /\ ok = true /\ p' = announced p) \/
      (start_ < end_ /\ exists accept sample,
         new_text_sample_cb_ p = bound accept /\
         ok = accept (delivered (announced p)) kStreamIndex sample /\
         p' = deliver (announced p) (NewTextSample kStreamIndex sample)))).
Proof.
  rewrite ParseCue_eq.
  destruct (parsed_time (timing_tokens line)) as [[start_ end_]|].
  - intros H. right. exists start_, end_. split; [reflexivity|].
    destruct (if negb (stream_info_dispatched_ p) then _ else _) as [p1|f] eqn:E;
      [|discriminate].
    apply announce_returns in E. subst p1. cbn [bind] in H.
    destruct (end_ <=? start_) eqn:Hle.
    + left. apply Z.leb_le in Hle. inversion H; subst. auto.
    + right. apply Z.leb_gt in Hle. split; [lia|].
      unfold Run_new_text_sample_cb in H.
      destruct (new_text_sample_cb_ (announced p)) as [|accept] eqn:Hcb;
        [discriminate|].
      inversion H; subst. exists accept. eexists. split; [|split; reflexivity].
      rewrite <- Hcb. symmetry. apply announced_setup.
  - intros H; inversion H; subst. left. auto.
Qed.

Lemma ParseCue_frame p id block ok p' :
  ParseCue p id block = Returns (ok, p') ->
  same_setup p p' /\ saw_cue_ p' = saw_cue_ p /\
  style_region_config_ p' = style_region_config_ p.
Proof.
  destruct block as [|line body]; [discriminate|]. intros H.
  apply ParseCue_returns in H.
  destruct (announced_flags p) as (Hs & Hc & _).
  pose proof (announced_setup p) as [].
  destruct H as [(_ & _ & ->) | (s & e & _ & [(_ & _ & ->) | (_ & a & x & _ & _ & ->)])].
  - split; [apply same_setup_refl|auto].
  - split; [now constructor|auto].
  - split; [now constructor|auto].
Qed.

Lemma ParseBlock_frame p block ok p' :
  ParseBlock p block = Returns (ok, p') -> same_setup p p'.
Proof.
  destruct block as [|block0 rest]; [discriminate|].
  destruct (block_cases block0 rest)
    as [Hn | [[Hn Hc] | [(Hn & Hs & Hr & id & lines & Hq) | (Hn & Hs & Hr & Hq)]]].
  - rewrite ParseBlock_note by assumption. intros H; inversion H. apply same_setup_refl.
  - rewrite ParseBlock_config by assumption. intros H; inversion H.
    destruct (saw_cue_ p); now constructor.
  - rewrite (ParseBlock_cue _ _ _ _ Hq).
    destruct (ParseCue p id lines) as [[ok1 p1]|f] eqn:E; [|discriminate].
    cbn [bind]. intros H; inversion H; subst.
    apply ParseCue_frame in E. destruct E as [[] _].
    destruct ok; now constructor.
  - rewrite ParseBlock_unclassified by assumption. intros H; inversion H.
    apply same_setup_refl.
Qed.

Lemma UpdateConfig_eq block config :
  UpdateConfig block config =
  append_with (newline ++ newline) config (JoinString block newline).
Proof.
  unfold UpdateConfig, append_with. destruct config as [|c config].
  - reflexivity.
  - cbn [is_empty negb]. now rewrite !append_assoc.
Qed.

Lemma ParseCue_wired p id line body :
  wired p -> exists ok p', ParseCue p id (line :: body) = Returns (ok, p').
Proof.
  intros [Hi Hs]. rewrite ParseCue_eq.
  destruct (parsed_time (timing_tokens line)) as [[start_ end_]|]; [|eauto].
  rewrite (announce_eq p Hi). cbn [bind].
  destruct (end_ <=? start_); [eauto|].
  unfold Run_new_text_sample_cb.
  replace (new_text_sample_cb_ (announced p)) with (new_text_sample_cb_ p)
    by (symmetry; apply announced_setup).
  destruct (new_text_sample_cb_ p); [discriminate|eauto].
Qed.

(* ================================================================== *)
(** ** The tokens of a timing line *)

Lemma split_where_cons f s : exists p ps, split_where f s = p :: ps.
Proof.
  destruct s as [|c r]; simpl; [eauto|].
  destruct (f c); [eauto|]. destruct (split_where f r); eauto.
Qed.

Lemma split_where_sep f c r :
  f c = true -> split_where f (String c r) = "" :: split_where f r.
Proof. intros H. simpl. now rewrite H. Qed.

Lemma split_where_char f c r p ps :
  f c = false -> split_where f r = p :: ps ->
  split_where f (String c r) = String c p :: ps.
Proof. intros H E. simpl. now rewrite H, E. Qed.

(** Cutting at a separator cuts the text in two. *)
Lemma split_where_app f c a : forall b,
  f c = true ->
  split_where f (a ++ String c b) = (split_where f a ++ split_where f b)%list.
Proof.
  induction a as [|d a IH]; intros b Hc.
  - simpl. now rewrite Hc.
  - simpl. rewrite (IH b Hc). destruct (f d); [reflexivity|].
    destruct (split_where_cons f a) as (p & ps & ->). reflexivity.
Qed.

Lemma concat_String sep c p ps :
  concat sep (String c p :: ps) = String c (concat sep (p :: ps)).
Proof. now destruct ps. Qed.

(** The pieces, joined by the separator, are the text. *)
Lemma join_split_where sp s :
  concat (String sp "") (split_where (Ascii.eqb sp) s) = s.
Proof.
  induction s as [|c r IH]; [reflexivity|].
  destruct (split_where_cons (Ascii.eqb sp) r) as (p & ps & E).
  destruct (Ascii.eqb sp c) eqn:Hc.
  - rewrite (split_where_sep _ _ _ Hc), E. apply Ascii.eqb_eq in Hc. subst c.
    change (concat (String sp "") ("" :: p :: ps))
      with (String sp (concat (String sp "") (p :: ps))).
    now rewrite <- E, IH.
  - rewrite (split_where_char _ _ _ _ _ Hc E), concat_String.
    now rewrite <- E, IH.
Qed.










Lemma is_separator_space c : is_separator " " c = Ascii.eqb " "%char c.
Proof. unfold is_separator. simpl. rewrite orb_false_r. apply Ascii.eqb_sym. Qed.

Lemma split_where_ext f g s :
  (forall c, f c = g c) -> split_where f s = split_where g s.
Proof.
  intros H. induction s as [|c r IH]; [reflexivity|]. simpl. now rewrite H, IH.
Qed.


(** *** Timestamps hold no whitespace *)










Lemma stream_events_app l1 l2 :
  stream_events (l1 ++ l2) = (stream_events l1 ++ stream_events l2)%list.
Proof. apply filter_app. Qed.

Lemma sample_events_app l1 l2 :
  sample_events (l1 ++ l2) = (sample_events l1 ++ sample_events l2)%list.
Proof. apply filter_app. Qed.

Lemma announced_delivered p :
  delivered (announced p) =
  (delivered p ++
   if stream_info_dispatched_ p then []
   else [StreamsReady [stream_info (style_region_config_ p)]])%list.
Proof.
  unfold announced. destruct (stream_info_dispatched_ p); simpl;
    [now rewrite app_nil_r|reflexivity].
Qed.

Lemma announced_recorded p :
  dispatch_recorded p ->
  dispatch_recorded (announced p) /\
  List.length (stream_events (delivered (announced p))) = 1%nat /\
  sample_events (delivered (announced p)) = sample_events (delivered p).
Proof.
  unfold dispatch_recorded. rewrite announced_delivered.
  destruct (announced_flags p) as (_ & _ & ->).
  rewrite stream_events_app, sample_events_app, length_app.
  destruct (stream_info_dispatched_ p); simpl; intros ->.
  - rewrite app_nil_r. auto.
  - rewrite app_nil_r. auto.
Qed.


(* ================================================================== *)
(** ** The loop of [Parse] *)

Lemma announce_crash p f :
  (if negb (stream_info_dispatched_ p) then DispatchTextStreamInfo p
   else Returns p) = Crashes f ->
  f = NullCallback.
Proof.
  unfold DispatchTextStreamInfo, Run_init_cb.
  destruct (stream_info_dispatched_ p); cbn [negb]; [discriminate|].
  cbn [init_cb_ set_stream_info_dispatched].
  destruct (init_cb_ p); [crashed|discriminate].
Qed.

Lemma ParseCue_crash p id line body f :
  ParseCue p id (line :: body) = Crashes f -> f = NullCallback.
Proof.
  rewrite ParseCue_eq.
  destruct (parsed_time (timing_tokens line)) as [[start_ end_]|]; [|discriminate].
  destruct (if negb (stream_info_dispatched_ p) then _ else _) as [p1|f1] eqn:E;
    cbn [bind].
  - destruct (end_ <=? start_); [discriminate|].
    unfold Run_new_text_sample_cb.
    destruct (new_text_sample_cb_ p1); [crashed|discriminate].
  - apply announce_crash in E. subst. crashed.
Qed.

Lemma ParseBlock_crash p block0 rest f :
  ParseBlock p (block0 :: rest) = Crashes f -> f = NullCallback.
Proof.
  destruct (block_cases block0 rest)
    as [Hn | [[Hn Hc] | [(Hn & Hs & Hr & id & lines & Hq) | (Hn & Hs & Hr & Hq)]]].
  - now rewrite ParseBlock_note.
  - now rewrite ParseBlock_config.
  - rewrite (ParseBlock_cue _ _ _ _ Hq).
    destruct (cue_candidate_lines _ _ _ Hq) as (line & body & -> & _).
    destruct (ParseCue p id (line :: body)) as [[ok p']|f'] eqn:E; [discriminate|].
    cbn [bind]. intros H; inversion H; subst. now apply ParseCue_crash in E.
  - now rewrite ParseBlock_unclassified.
Qed.

Lemma Parse_loop_fuel n : forall m p,
  (String.length (BlockReader.buffer (reader_ p)) < n)%nat ->
  (String.length (BlockReader.buffer (reader_ p)) < m)%nat ->
  Parse_loop n p = Parse_loop m p.
Proof.
  induction n as [|n IH]; intros m p Hn Hm; [lia|].
  destruct m as [|m]; [lia|]. cbn [Parse_loop].
  destruct (BlockReader.Next (reader_ p)) as [[block r]|] eqn:E; [|reflexivity].
  destruct (ParseBlock (set_reader p r) block) as [[ok p']|f] eqn:E2;
    [|reflexivity].
  cbn [bind]. destruct ok; [|reflexivity]. cbn [negb].
  apply ParseBlock_frame in E2. destruct E2 as [_ _ Hr _]. simpl in Hr.
  apply Next_shrinks in E. destruct E as [E _].
  apply IH; rewrite Hr; lia.
Qed.

(** The budget [Parse] gives its loop is never used up. *)
Lemma Parse_loop_total n : forall p,
  (String.length (BlockReader.buffer (reader_ p)) < n)%nat ->
  Parse_loop n p <> Crashes OutOfFuel.
Proof.
  induction n as [|n IH]; intros p Hn; [lia|]. cbn [Parse_loop].
  destruct (BlockReader.Next (reader_ p)) as [[block r]|] eqn:E; [|discriminate].
  destruct (Next_nonblank _ _ _ E) as [Hne _].
  destruct block as [|block0 rest]; [congruence|].
  destruct (ParseBlock (set_reader p r) (block0 :: rest)) as [[ok p']|f] eqn:E2.
  - cbn [bind]. destruct ok; [|discriminate]. cbn [negb].
    apply ParseBlock_frame in E2. destruct E2 as [_ _ Hr _]. simpl in Hr.
    apply Next_shrinks in E. destruct E as [E _].
    apply IH. rewrite Hr. lia.
  - cbn [bind]. apply ParseBlock_crash in E2. congruence.
Qed.

Lemma Parse_loop_in_range n : forall p, Parse_loop n p <> Crashes OutOfRange.
Proof.
  induction n as [|n IH]; intros p; [discriminate|]. cbn [Parse_loop].
  destruct (BlockReader.Next (reader_ p)) as [[block r]|] eqn:E; [|discriminate].
  destruct (Next_nonblank _ _ _ E) as [Hne _].
  destruct block as [|block0 rest]; [congruence|].
  destruct (ParseBlock (set_reader p r) (block0 :: rest)) as [[ok p']|f] eqn:E2.
  - cbn [bind]. destruct ok; [apply IH|discriminate].
  - cbn [bind]. apply ParseBlock_crash in E2. congruence.
Qed.

Lemma Parse_loop_frame n : forall p ok p',
  Parse_loop n p = Returns (ok, p') ->
  init_cb_ p' = init_cb_ p /\ new_text_sample_cb_ p' = new_text_sample_cb_ p /\
  initialized_ p' = initialized_ p /\
  BlockReader.flushed (reader_ p') = BlockReader.flushed (reader_ p).
Proof.
  induction n as [|n IH]; intros p ok p'; [discriminate|]. cbn [Parse_loop].
  destruct (BlockReader.Next (reader_ p)) as [[block r]|] eqn:E.
  - destruct (ParseBlock (set_reader p r) block) as [[ok1 p1]|f] eqn:E2;
      [|discriminate].
    apply ParseBlock_frame in E2. destruct E2 as [Hi Hs Hr Hz]. simpl in *.
    apply Next_shrinks in E. destruct E as [_ Hf].
    cbn [bind]. destruct ok1; cbn [negb].
    + intros H. apply IH in H. destruct H as (? & ? & ? & ?).
      repeat split; congruence.
    + intros H. inversion H; subst. repeat split; congruence.
  - intros H. inversion H; subst. auto.
Qed.

Lemma Parse_initialized p :
  initialized_ p = true -> Parse p = Parse_loop (loop_budget p) p.
Proof. intros H. unfold Parse. now rewrite H. Qed.

Lemma loop_budget_enough p :
  (String.length (BlockReader.buffer (reader_ p)) < loop_budget p)%nat.
Proof. unfold loop_budget. lia. Qed.

(** [Parse] comes back: it never runs out of budget. *)
Lemma Parse_total p : Parse p <> Crashes OutOfFuel.
Proof.
  unfold Parse. destruct (initialized_ p); cbn [negb].
  - apply Parse_loop_total, loop_budget_enough.
  - destruct (BlockReader.Next (reader_ p)) as [[block r]|]; [|discriminate].
    destruct (negb (List.length block =? 1)%nat); [discriminate|].
    destruct (at_ block 0) as [block0|f] eqn:E; cbn [bind].
    + destruct (_ && _); [discriminate|].
      apply Parse_loop_total. unfold loop_budget. simpl. lia.
    + unfold at_ in E. destruct (nth_error block 0); [discriminate|].
      inversion E. discriminate.
Qed.

(* ================================================================== *)
(** ** Cutting at spaces and cutting at whitespace *)

Lemma space_tokens_eq line : space_tokens line = timing_tokens line.
Proof.
  unfold space_tokens, timing_tokens, SplitString, split_pieces.
  destruct line as [|c r]; [reflexivity|]. cbn [is_empty].
  rewrite (split_where_ext (is_separator " ") (Ascii.eqb " "%char)
             (String c r) is_separator_space).
  reflexivity.
Qed.

Lemma only_spaces_pieces line :
  only_spaces line ->
  Forall whitespace_free (split_where (Ascii.eqb " "%char) line).
Proof.
  unfold only_spaces, whitespace_free.
  induction line as [|c r IH]; intros H.
  - repeat constructor.
  - inversion H as [|? ? Hc Hr]; subst. specialize (IH Hr).
    destruct (Ascii.eqb " "%char c) eqn:E.
    + rewrite (split_where_sep _ _ _ E). constructor; [constructor | exact IH].
    + assert (Hw : IsAsciiWhitespace c = false).
      { destruct (IsAsciiWhitespace c) eqn:W; [|reflexivity].
        rewrite (Hc eq_refl) in E. discriminate E. }
      destruct (split_where_cons (Ascii.eqb " "%char) r) as (q & qs & Eq).
      rewrite (split_where_char _ _ _ _ _ E Eq). rewrite Eq in IH.
      inversion IH; subst. constructor; [|assumption].
      cbn [list_ascii_of_string]. constructor; assumption.
Qed.

Lemma only_spaces_split line :
  only_spaces line ->
  split_where IsAsciiWhitespace line = split_where (Ascii.eqb " "%char) line.
Proof.
  unfold only_spaces. induction line as [|c r IH]; intros H; [reflexivity|].
  inversion H as [|? ? Hc Hr]; subst.
  destruct (split_where_cons (Ascii.eqb " "%char) r) as (q & qs & Eq).
  destruct (IsAsciiWhitespace c) eqn:W.
  - rewrite (split_where_sep _ _ _ W), (IH Hr).
    rewrite (Hc eq_refl). symmetry. now apply split_where_sep.
  - assert (E : Ascii.eqb " "%char c = false).
    { destruct (Ascii.eqb " "%char c) eqn:E; [|reflexivity].
      apply Ascii.eqb_eq in E. subst c. discriminate W. }
    rewrite (split_where_char _ _ _ _ _ E Eq).
    apply split_where_char; [exact W|]. now rewrite (IH Hr).
Qed.

Lemma trim_leading_free s : whitespace_free s -> trim_leading s = s.
Proof.
  unfold whitespace_free. destruct s as [|c r]; [reflexivity|].
  intros H. inversion H as [|? ? Hc _]; subst. simpl. now rewrite Hc.
Qed.

Lemma trim_trailing_free s : whitespace_free s -> trim_trailing s = s.
Proof.
  unfold whitespace_free. induction s as [|c r IH]; [reflexivity|].
  intros H. inversion H as [|? ? Hc Hr]; subst. simpl.
  rewrite (IH Hr), Hc. now rewrite andb_false_r.
Qed.

(** On a line whose only whitespace is the space, cutting at whitespace
    and cutting at spaces give the same tokens. *)
Lemma only_spaces_tokens line :
  only_spaces line -> whitespace_tokens line = space_tokens line.
Proof.
  intros H. unfold whitespace_tokens, space_tokens.
  rewrite (only_spaces_split _ H). f_equal.
  pose proof (only_spaces_pieces _ H) as Hp.
  induction Hp as [|q qs Hq _ IH]; [reflexivity|].
  cbn [map]. now rewrite (trim_leading_free _ Hq), (trim_trailing_free _ Hq), <- IH.
Qed.


Lemma Parse_in_range p : Parse p <> Crashes OutOfRange.
Proof.
  unfold Parse. destruct (initialized_ p); cbn [negb].
  - apply Parse_loop_in_range.
  - destruct (BlockReader.Next (reader_ p)) as [[block r]|]; [|discriminate].
    destruct block as [|block0 [|block1 rest]]; try discriminate.
    cbn [List.length Nat.eqb negb at_ nth_error bind].
    destruct (_ && _); [discriminate|]. apply Parse_loop_in_range.
Qed.

(** C10.  The block reader hands out only blocks with at least one line
    and no blank line, so the read of [block[0]] in [ParseBlock] is in
    range for every block that [Parse], [Parse(buf, size)] and [Flush]
    pass to it: none of them ends in an out-of-range read, whatever the
    parser object and the bytes. *)
Theorem first_line_read_in_range :
  (forall r block r',
     BlockReader.Next r = Some (block, r') ->
     block <> [] /\ Forall nonblank block /\
     exists line, at_ block 0 = Returns line) /\
  (forall p block, block <> [] -> ParseBlock p block <> Crashes OutOfRange) /\
  (forall p, Parse p <> Crashes OutOfRange) /\
  (forall p buf, Parse_buf p buf <> Crashes OutOfRange) /\
  (forall p, Flush p <> Crashes OutOfRange).
Proof.
  split; [|split; [|split; [|split]]].
  - intros r block r' H. destruct (Next_nonblank _ _ _ H) as [Hne Hall].
    repeat split; try assumption.
    destruct block as [|line rest]; [congruence|]. now exists line.
  - intros p [|block0 rest] Hne H; [congruence|].
    apply ParseBlock_crash in H. discriminate.
  - apply Parse_in_range.
  - intros p buf. apply Parse_in_range.
  - intros p. apply Parse_in_range.
Qed.

(** C2.  The first block of a parser that is not initialized.  When the
    reader has no block yet, [Parse] returns true and the parser object,
    its reader included, is as before.  When the block is the one line
    [WEBVTT], with or without the byte-order mark in front, the parser is
    initialized and [Parse] goes on with the loop over the blocks that
    follow, ending initialized.  Any other block makes [Parse] return
    false, with the block consumed and the parser still not initialized. *)
Theorem header_block p :
  initialized_ p = false ->
  (BlockReader.Next (reader_ p) = None -> Parse p = Returns (true, p))
  /\ (forall block r,
        BlockReader.Next (reader_ p) = Some (block, r) ->
        block = [kHeader] \/ block = [kHeaderWithBOM] ->
        Parse p = Parse_loop (loop_budget (set_reader p r))
                    (set_initialized (set_reader p r) true)
        /\ Parse p <> Crashes OutOfFuel
        /\ (forall ok p', Parse p = Returns (ok, p') -> initialized_ p' = true))
  /\ (forall block r,
        BlockReader.Next (reader_ p) = Some (block, r) ->
        block <> [kHeader] -> block <> [kHeaderWithBOM] ->
        Parse p = Returns (false, set_reader p r)
        /\ initialized_ (set_reader p r) = false
        /\ delivered (set_reader p r) = delivered p).
Proof.
  intros Hinit. split; [|split].
  - intros H. unfold Parse. now rewrite Hinit, H.
  - intros block r H Hhdr.
    assert (E : Parse p = Parse_loop (loop_budget (set_reader p r))
                            (set_initialized (set_reader p r) true)).
    { unfold Parse. rewrite Hinit, H. destruct Hhdr as [-> | ->]; reflexivity. }
    split; [exact E|]. split; [apply Parse_total|].
    intros ok p' H'. rewrite E in H'. apply Parse_loop_frame in H'.
    destruct H' as (_ & _ & H' & _). exact H'.
  - intros block r H Hn1 Hn2. split; [|split; [exact Hinit|reflexivity]].
    unfold Parse. rewrite Hinit, H. cbn [negb].
    destruct block as [|block0 [|block1 rest]]; try reflexivity.
    cbn [List.length Nat.eqb negb at_ nth_error bind].
    destruct (block0 =? "WEBVTT")%string eqn:E1.
    { apply String.eqb_eq in E1. subst. exfalso. now apply Hn1. }
    destruct (block0 =? kHeaderWithBOM)%string eqn:E2.
    { apply String.eqb_eq in E2. subst. exfalso. now apply Hn2. }
    reflexivity.
Qed.

(** C6, amended.  A block read as a cue, with no blank line, whose timing
    line parses with an end after its start: the sample carries the
    identifier line (the empty string when the block starts with the timing
    line), the two times, the tokens of the timing line cut at the space
    character only, from the fourth on, joined by single spaces, and the
    lines after the timing line joined by single newlines; it goes to the
    sample callback with stream index 0, after the stream description if
    that was still to be sent; [ParseBlock] returns what the callback
    answers, and when the answer is false [Parse] returns false.  When the
    only whitespace in the timing line is the space, the settings are the
    tokens of the line cut at whitespace, from the fourth on, joined by
    single spaces. *)
Theorem valid_cue_sample p block id line body start_ end_ accept :
  is_null (init_cb_ p) = false ->
  new_text_sample_cb_ p = bound accept ->
  cue_candidate block = Some (id, line :: body) ->
  Forall nonblank block ->
  parsed_time (timing_tokens line) = Some (start_, end_) ->
  start_ < end_ ->
  let sample :=
    mkTextSample id start_ end_
      (JoinString (skipn 3 (timing_tokens line)) " ")
      (JoinString body newline) in
  let answer := accept (delivered (announced p)) 0 sample in
  let p' := deliver (announced p) (NewTextSample 0 sample) in
  ((block = line :: body /\ id = "") \/ block = id :: line :: body)
  /\ ParseCue p id (line :: body) = Returns (answer, p')
  /\ ParseBlock p block =
     Returns (answer, if answer then set_saw_cue p' true else p')
  /\ (answer = false ->
      forall q r,
        initialized_ q = true ->
        BlockReader.Next (reader_ q) = Some (block, r) ->
        p = set_reader q r ->
        Parse q = Returns (false, p'))
  /\ settings sample = JoinString (skipn 3 (space_tokens line)) " "
  /\ (only_spaces line ->
      settings sample = JoinString (skipn 3 (whitespace_tokens line)) " ").
Proof.
  intros Hcb Hs Hq Hall Ht Hlt sample answer p'.
  assert (Hshape : (block = line :: body /\ id = "") \/ block = id :: line :: body).
  { destruct (cue_candidate_lines _ _ _ Hq) as (l & b & E & [(? & ? & _) | (? & _)]).
    - left. split; congruence.
    - right. assumption. }
  assert (Hbody : Forall nonblank body).
  { destruct Hshape as [[-> _] | ->].
    - now inversion Hall.
    - inversion Hall as [|? ? _ Hall']; subst. now inversion Hall'. }
  pose proof (ParseCue_sample p id line body start_ end_ accept
                Hcb Hs Hbody Ht Hlt) as Hcue.
  cbv zeta in Hcue. fold answer in Hcue.
  assert (Hblock : ParseBlock p block =
                   Returns (answer, if answer then set_saw_cue p' true else p')).
  { rewrite (ParseBlock_cue _ _ _ _ Hq), Hcue. reflexivity. }
  split; [exact Hshape|]. split; [exact Hcue|]. split; [exact Hblock|].
  split; [|split].
  - intros Hno q r Hinit Hnext ->.
    rewrite (Parse_initialized _ Hinit). unfold loop_budget. cbn [Parse_loop].
    rewrite Hnext, Hblock, Hno. reflexivity.
  - unfold sample. cbn [settings]. now rewrite space_tokens_eq.
  - intros Ho. unfold sample. cbn [settings].
    now rewrite (only_spaces_tokens _ Ho), space_tokens_eq.
Qed.

(* ================================================================== *)
(** ** The precedence of the rules *)

Lemma parses_as_cue_parsed_time line body :
  parses_as_cue space_tokens (line :: body) =
  match parsed_time (timing_tokens line) with
  | Some _ => true
  | None => false
  end.
Proof.
  unfold parses_as_cue, parsed_time, is_timestamp. cbn [nth].
  rewrite space_tokens_eq.
  destruct ((3 <=? List.length (timing_tokens line))%nat); [|reflexivity].
  destruct (nth 1 (timing_tokens line) "" =? "-->")%string; [|reflexivity].
  cbn [andb].
  destruct (WebVttTimestampToMs (nth 0 (timing_tokens line) "")); [|reflexivity].
  destruct (WebVttTimestampToMs (nth 2 (timing_tokens line) "")); reflexivity.
Qed.

Lemma classify_eq tokens block0 rest :
  classify tokens (block0 :: rest) =
  if IsLikelyNote block0 then Comment
  else if IsLikelyStyle block0 then Style
  else if IsLikelyRegion block0 then Region
  else if (2 <=? List.length (block0 :: rest))%nat && MaybeCueId block0
          && IsLikelyCueTiming (nth 1 (block0 :: rest) "")
          && parses_as_cue tokens rest then CueWithId
  else if IsLikelyCueTiming block0 && parses_as_cue tokens (block0 :: rest)
       then CueWithoutId
  else Unclassifiable.
Proof. reflexivity. Qed.

(** What a block read as a cue comes back with, when its timing line
    parses. *)
Lemma cue_block_effect p block id line body kind :
  wired p ->
  kind = CueWithId \/ kind = CueWithoutId ->
  cue_candidate block = Some (id, line :: body) ->
  (exists times, parsed_time (timing_tokens line) = Some times) ->
  effect_of kind p block (ParseBlock p block).
Proof.
  intros Hw Hk Hq [times Ht].
  assert (Hgoal : effect_of CueWithId p block (ParseBlock p block)).
  { rewrite (ParseBlock_cue _ _ _ _ Hq).
    destruct (ParseCue_wired p id line body Hw) as (ok & p' & E).
    rewrite E. cbn [bind].
    destruct (ParseCue_returns _ _ _ _ _ _ E)
      as [(Hnone & _) | (start_ & end_ & _ & [(_ & -> & ->) | (_ & accept & sample & Hcb & Hok & ->)])].
    - congruence.
    - destruct (announced_flags p) as (Hs & Hc & Hd).
      exists true, (set_saw_cue (announced p) true). repeat split; assumption.
    - destruct (announced_flags p) as (Hs & Hc & Hd).
      exists ok. eexists. split; [reflexivity|].
      destruct ok; cbn [style_region_config_ stream_info_dispatched_ saw_cue_
                        delivered deliver set_saw_cue];
        (split; [exact Hc|]); (split; [exact Hd|]);
        (split; [rewrite stream_events_app; cbn; apply app_nil_r|]).
      + reflexivity.
      + split; [exact Hs|]. exists accept, sample.
        split; [exact Hcb|]. split; [reflexivity|]. symmetry. exact Hok. }
  destruct Hk as [-> | ->]; exact Hgoal.
Qed.

(** C1, amended.  A block with at least one line, handed to [ParseBlock]
    of a parser whose callbacks are bound, is treated by the first rule
    that matches in the order comment, style, region, cue with identifier,
    cue without identifier, with the timing line of a cue cut at the space
    character only, and [ParseBlock] has the effect of that rule; when no
    rule matches, as for a block of one line that is no note, style or
    region line and holds no arrow, [ParseBlock] returns false and changes
    nothing.  When the only whitespace in the lines of the block is the
    space, this is the classification of the specification, which cuts at
    every whitespace character. *)
Theorem ParseBlock_follows_precedence p block :
  block <> [] -> wired p ->
  effect_of (classify space_tokens block) p block (ParseBlock p block)
  /\ (forall line,
        block = [line] ->
        IsLikelyNote line = false -> IsLikelyStyle line = false ->
        IsLikelyRegion line = false -> contains line "-->" = false ->
        forall tokens,
          classify tokens block = Unclassifiable /\
          ParseBlock p block = Returns (false, p))
  /\ (Forall only_spaces block ->
      classify whitespace_tokens block = classify space_tokens block /\
      effect_of (classify whitespace_tokens block) p block (ParseBlock p block)).
Proof.
  intros Hne Hw. destruct block as [|block0 rest]; [congruence|]. clear Hne.
  assert (Hmain : effect_of (classify space_tokens (block0 :: rest)) p
                    (block0 :: rest) (ParseBlock p (block0 :: rest))).
  { rewrite classify_eq.
    destruct (block_cases block0 rest)
      as [Hn | [[Hn Hc] | [(Hn & Hs & Hr & id & lines & Hq) | (Hn & Hs & Hr & Hq)]]].
    - rewrite Hn. simpl. now apply ParseBlock_note.
    - rewrite Hn, (ParseBlock_config _ _ _ Hn Hc), UpdateConfig_eq.
      destruct (IsLikelyStyle block0); [reflexivity|].
      simpl in Hc. rewrite Hc. reflexivity.
    - rewrite Hn, Hs, Hr.
      pose proof Hq as Hq0.
      unfold cue_candidate in Hq. rewrite Hn, Hs, Hr in Hq. cbn [orb] in Hq.
      destruct ((2 <=? List.length (block0 :: rest))%nat && MaybeCueId block0
                && IsLikelyCueTiming (nth 1 (block0 :: rest) "")) eqn:Hshape.
      + (* the identifier reading *)
        inversion Hq; subst id lines. cbn [andb].
        assert (Hno : IsLikelyCueTiming block0 = false).
        { apply andb_true_iff in Hshape. destruct Hshape as [Hshape _].
          apply andb_true_iff in Hshape. destruct Hshape as [_ Hid].
          rewrite MaybeCueId_not_timing in Hid. now apply negb_true_iff in Hid. }
        destruct rest as [|line body]; [discriminate|].
        rewrite parses_as_cue_parsed_time, Hno. cbn [andb].
        destruct (parsed_time (timing_tokens line)) as [times|] eqn:Ht.
        * apply (cue_block_effect p _ block0 line body); eauto.
        * cbn [effect_of]. rewrite (ParseBlock_cue _ _ _ _ Hq0).
          now rewrite (ParseCue_unparsed _ _ _ _ Ht).
      + (* the first line is the timing line *)
        cbn [andb].
        destruct (IsLikelyCueTiming block0) eqn:Ht0; [|discriminate].
        inversion Hq; subst id lines.
        rewrite parses_as_cue_parsed_time. cbn [andb].
        destruct (parsed_time (timing_tokens block0)) as [times|] eqn:Ht.
        * apply (cue_block_effect p _ "" block0 rest); eauto.
        * cbn [effect_of]. rewrite (ParseBlock_cue _ _ _ _ Hq0).
          now rewrite (ParseCue_unparsed _ _ _ _ Ht).
    - rewrite Hn, Hs, Hr, (ParseBlock_unclassified _ _ _ Hn Hs Hr Hq).
      unfold cue_candidate in Hq. rewrite Hn, Hs, Hr in Hq. cbn [orb] in Hq.
      destruct ((2 <=? List.length (block0 :: rest))%nat && MaybeCueId block0
                && IsLikelyCueTiming (nth 1 (block0 :: rest) "")); [discriminate|].
      destruct (IsLikelyCueTiming block0); [discriminate|].
      reflexivity. }
  split; [exact Hmain|]. split.
  - intros line Hb Hn Hs Hr Ht tokens. inversion Hb; subst.
    assert (Ht' : IsLikelyCueTiming line = false) by exact Ht.
    rewrite classify_eq, Hn, Hs, Hr, Ht'. split; [reflexivity|].
    apply ParseBlock_unclassified; try assumption.
    unfold cue_candidate. now rewrite Hn, Hs, Hr, Ht'.
  - intros Hall.
    assert (E : classify whitespace_tokens (block0 :: rest)
                = classify space_tokens (block0 :: rest)).
    { rewrite !classify_eq. unfold parses_as_cue.
      inversion Hall as [|? ? H0 Hrest]; subst.
      destruct rest as [|line body]; cbn [nth];
        rewrite (only_spaces_tokens _ H0); [reflexivity|].
      inversion Hrest as [|? ? H1 _]; subst.
      now rewrite (only_spaces_tokens _ H1). }
    split; [exact E|]. rewrite E. exact Hmain.
Qed.

(* ================================================================== *)
(** ** The blocks do not depend on the reader they came from *)

Lemma set_reader_same p : set_reader p (reader_ p) = p.
Proof. now destruct p. Qed.

Lemma set_reader_twice p r r' : set_reader (set_reader p r) r' = set_reader p r'.
Proof. reflexivity. Qed.

Lemma announced_set_reader p r :
  announced (set_reader p r) = set_reader (announced p) r.
Proof. unfold announced. simpl. now destruct (stream_info_dispatched_ p). Qed.

Lemma announce_set_reader p r :
  (if negb (stream_info_dispatched_ (set_reader p r))
   then DispatchTextStreamInfo (set_reader p r) else Returns (set_reader p r))
  = p1 <- (if negb (stream_info_dispatched_ p) then DispatchTextStreamInfo p
           else Returns p) ;; Returns (set_reader p1 r).
Proof.
  unfold DispatchTextStreamInfo, Run_init_cb. simpl.
  destruct (stream_info_dispatched_ p); [reflexivity|]. simpl.
  now destruct (init_cb_ p).
Qed.

Lemma ParseCue_set_reader p r id block :
  ParseCue (set_reader p r) id block = with_reader r (ParseCue p id block).
Proof.
  destruct block as [|line body]; [reflexivity|]. rewrite !ParseCue_eq.
  destruct (parsed_time (timing_tokens line)) as [[start_ end_]|]; [|reflexivity].
  rewrite announce_set_reader.
  destruct (if negb (stream_info_dispatched_ p) then _ else _) as [p1|f];
    [|reflexivity].
  cbn [bind]. unfold with_reader.
  destruct (end_ <=? start_); [reflexivity|].
  unfold Run_new_text_sample_cb. simpl.
  now destruct (new_text_sample_cb_ p1).
Qed.

Lemma ParseBlock_set_reader p r block :
  ParseBlock (set_reader p r) block = with_reader r (ParseBlock p block).
Proof.
  destruct block as [|block0 rest]; [reflexivity|].
  destruct (block_cases block0 rest)
    as [Hn | [[Hn Hc] | [(Hn & Hs & Hr & id & lines & Hq) | (Hn & Hs & Hr & Hq)]]].
  - now rewrite !ParseBlock_note.
  - rewrite !ParseBlock_config by assumption. simpl. now destruct (saw_cue_ p).
  - rewrite !(ParseBlock_cue _ _ _ _ Hq), ParseCue_set_reader.
    destruct (ParseCue p id lines) as [[ok p1]|f]; [|reflexivity].
    simpl. now destruct ok.
  - now rewrite !ParseBlock_unclassified.
Qed.

Lemma ParseBlocks_set_reader blocks : forall p r,
  ParseBlocks (set_reader p r) blocks = with_reader r (ParseBlocks p blocks).
Proof.
  induction blocks as [|block blocks IH]; intros p r; [reflexivity|].
  cbn [ParseBlocks]. rewrite ParseBlock_set_reader.
  destruct (ParseBlock p block) as [[ok p1]|f]; [|reflexivity].
  cbn [with_reader bind]. destruct ok; cbn [negb]; [apply IH|reflexivity].
Qed.

Lemma ParseBlocks_app before : forall p after,
  ParseBlocks p (before ++ after) =
  '(ok, q) <- ParseBlocks p before ;;
  if negb ok then Returns (false, q) else ParseBlocks q after.
Proof.
  induction before as [|block before IH]; intros p after; [reflexivity|].
  cbn [ParseBlocks app]. destruct (ParseBlock p block) as [[ok p1]|f]; [|reflexivity].
  cbn [bind]. destruct ok; cbn [negb]; [apply IH|reflexivity].
Qed.

Lemma reads_app r1 before r2 after r3 :
  reads r1 before r2 -> reads r2 after r3 -> reads r1 (before ++ after) r3.
Proof.
  induction 1; intros H'; [assumption|]. simpl. econstructor; eauto.
Qed.

(** The loop of [Parse] is [ParseBlocks] over the blocks it reads.  It
    ends with true when the reader has no block left, and with false at
    the first block on which [ParseBlock] returns false, which is the last
    block it has read. *)
Lemma Parse_loop_run n : forall p ok p',
  Parse_loop n p = Returns (ok, p') ->
  exists blocks,
    reads (reader_ p) blocks (reader_ p') /\
    ParseBlocks (set_reader p (reader_ p')) blocks = Returns (ok, p') /\
    if ok then BlockReader.Next (reader_ p') = None
    else exists before block q,
        blocks = (before ++ [block])%list /\
        ParseBlocks (set_reader p (reader_ p')) before = Returns (true, q) /\
        ParseBlock q block = Returns (false, p').
Proof.
  induction n as [|n IH]; intros p ok p'; [discriminate|]. cbn [Parse_loop].
  destruct (BlockReader.Next (reader_ p)) as [[block r]|] eqn:E.
  - rewrite ParseBlock_set_reader.
    destruct (ParseBlock p block) as [[ok1 p1]|f] eqn:E1; [|discriminate].
    cbn [with_reader bind]. destruct ok1; cbn [negb].
    + intros H. destruct (IH _ _ _ H) as (blocks & Hreads & Hrun & Hend).
      simpl in Hreads. exists (block :: blocks). split; [|split].
      * econstructor; eassumption.
      * cbn [ParseBlocks]. rewrite ParseBlock_set_reader, E1.
        cbn [with_reader bind negb]. rewrite <- Hrun. reflexivity.
      * destruct ok; [assumption|].
        destruct Hend as (before & last & q & -> & Hbefore & Hlast).
        exists (block :: before), last, q. split; [reflexivity|].
        split; [|assumption].
        cbn [ParseBlocks]. rewrite ParseBlock_set_reader, E1.
        cbn [with_reader bind negb]. rewrite <- Hbefore. reflexivity.
    + intros H. inversion H; subst. simpl.
      exists [block]. split; [|split].
      * econstructor; [eassumption|constructor].
      * cbn [ParseBlocks]. rewrite ParseBlock_set_reader, E1. reflexivity.
      * exists [], block, (set_reader p r). split; [reflexivity|].
        split; [reflexivity|].
        rewrite ParseBlock_set_reader, E1. reflexivity.
  - intros H. inversion H; subst. exists []. split; [constructor|].
    split; [|assumption]. simpl. now rewrite set_reader_same.
Qed.

(* ================================================================== *)
(** ** The config blob and the stream description *)

Lemma config_fold blocks : forall config,
  fold_left (fun c block => UpdateConfig block c) blocks config =
  fold_left (append_with (newline ++ newline))
    (map (fun block => JoinString block newline) blocks) config.
Proof.
  induction blocks as [|block blocks IH]; intros config; [reflexivity|].
  simpl. now rewrite IH, UpdateConfig_eq.
Qed.

Lemma config_block_nonblank block :
  is_config_block block = true -> nonblank (JoinString block newline).
Proof.
  unfold is_config_block. intros H. apply andb_true_iff in H. destruct H as [_ H].
  destruct block as [|block0 rest]; [discriminate|].
  apply join_nonblank. intros ->. discriminate.
Qed.

Lemma config_blob_fold blocks :
  fold_left (fun c block => UpdateConfig block c) (config_blocks blocks) "" =
  config_blob blocks.
Proof.
  rewrite config_fold, fold_append_with.
  - unfold config_blob, JoinString.
    now destruct (map _ (config_blocks blocks)).
  - apply Forall_forall. intros x Hx. apply in_map_iff in Hx.
    destruct Hx as (block & <- & Hin). apply config_block_nonblank.
    unfold config_blocks in Hin. apply filter_In in Hin. tauto.
Qed.

(** What the blocks make of the config. *)
Lemma ParseBlocks_config blocks : forall p ok p',
  ParseBlocks p blocks = Returns (ok, p') ->
  style_region_config_ p' =
  if saw_cue_ p then style_region_config_ p
  else fold_left (fun c block => UpdateConfig block c) (config_blocks blocks)
         (style_region_config_ p).
Proof.
  induction blocks as [|block blocks IH]; intros p ok p'.
  - intros H; inversion H; subst. simpl. now destruct (saw_cue_ p').
  - cbn [ParseBlocks]. destruct block as [|block0 rest]; [discriminate|].
    unfold config_blocks. cbn [before_first_cue].
    unfold is_preamble_block. cbn [nth].
    destruct (block_cases block0 rest)
      as [Hn | [[Hn Hc] | [(Hn & Hs & Hr & id & lines & Hq) | (Hn & Hs & Hr & Hq)]]].
    + rewrite ParseBlock_note by assumption. cbn [bind negb]. rewrite Hn.
      cbn [orb filter]. unfold is_config_block at 1. cbn [nth]. rewrite Hn.
      cbn [negb andb]. apply IH.
    + rewrite ParseBlock_config by assumption. cbn [bind negb]. rewrite Hn.
      cbn [orb]. rewrite Hc. cbn [filter]. unfold is_config_block at 1.
      cbn [nth]. rewrite Hn, Hc. cbn [negb andb].
      destruct (saw_cue_ p) eqn:Hsaw; intros H; apply IH in H; rewrite H.
      * now rewrite Hsaw.
      * simpl. now rewrite Hsaw.
    + rewrite (ParseBlock_cue _ _ _ _ Hq), Hn, Hs, Hr. cbn [orb filter fold_left].
      destruct (ParseCue p id lines) as [[okc pc]|f] eqn:E; [|discriminate].
      apply ParseCue_frame in E. destruct E as (_ & Hsaw & Hcfg).
      cbn [bind]. destruct okc; cbn [negb].
      * intros H. apply IH in H. simpl in H. rewrite H, Hcfg.
        now destruct (saw_cue_ p).
      * intros H. inversion H; subst. rewrite Hcfg. now destruct (saw_cue_ p).
    + rewrite ParseBlock_unclassified by assumption. rewrite Hn, Hs, Hr.
      cbn [bind negb orb filter fold_left]. intros H. inversion H; subst.
      now destruct (saw_cue_ p').
Qed.

Lemma announced_current p :
  description_current p -> description_current (announced p).
Proof.
  unfold description_current. rewrite announced_delivered, stream_events_app.
  destruct (announced_flags p) as (_ & -> & ->).
  destruct (stream_info_dispatched_ p); intros ->; reflexivity.
Qed.

Lemma ParseBlock_settled p block ok p' :
  description_settled p ->
  ParseBlock p block = Returns (ok, p') ->
  description_current p' /\ (ok = true -> description_settled p').
Proof.
  intros [Hcur Hsaw]. destruct block as [|block0 rest]; [discriminate|].
  destruct (block_cases block0 rest)
    as [Hn | [[Hn Hc] | [(Hn & Hs & Hr & id & lines & Hq) | (Hn & Hs & Hr & Hq)]]].
  - rewrite ParseBlock_note by assumption. intros H; inversion H; subst.
    split; [assumption|]. intros _. now split.
  - rewrite ParseBlock_config by assumption. intros H; inversion H; subst.
    destruct (saw_cue_ p) eqn:E.
    + split; [assumption|]. intros _. now split.
    + assert (Hd : stream_info_dispatched_ p = false).
      { destruct (stream_info_dispatched_ p); [|reflexivity].
        specialize (Hsaw eq_refl). congruence. }
      unfold description_settled, description_current in *. simpl.
      rewrite Hd in *. split; [assumption|]. intros _. split; [assumption|].
      discriminate.
  - rewrite (ParseBlock_cue _ _ _ _ Hq).
    destruct (cue_candidate_lines _ _ _ Hq) as (line & body & -> & _).
    destruct (ParseCue p id (line :: body)) as [[okc pc]|f] eqn:E; [|discriminate].
    cbn [bind]. intros H; inversion H; subst. clear H.
    pose proof (announced_current p Hcur) as Hcur'.
    destruct (announced_flags p) as (_ & Hcfg & Hd).
    apply ParseCue_returns in E.
    destruct E as [(_ & -> & ->) |
                   (s & e & _ & [(_ & -> & ->) | (_ & a & x & _ & -> & ->)])].
    + split; [assumption|discriminate].
    + unfold description_settled, description_current. simpl.
      split; [assumption|]. intros _. split; [assumption|reflexivity].
    + assert (Hcur'' : description_current
                         (deliver (announced p) (NewTextSample kStreamIndex x))).
      { unfold description_current in *. simpl.
        rewrite stream_events_app. simpl. now rewrite app_nil_r. }
      destruct (a _ _ _).
      * unfold description_settled, description_current in *. simpl in *.
        split; [assumption|]. intros _. split; [assumption|reflexivity].
      * split; [assumption|discriminate].
  - rewrite ParseBlock_unclassified by assumption. intros H; inversion H; subst.
    split; [assumption|discriminate].
Qed.

Lemma ParseBlocks_current blocks : forall p ok p',
  description_settled p ->
  ParseBlocks p blocks = Returns (ok, p') ->
  description_current p'.
Proof.
  induction blocks as [|block blocks IH]; intros p ok p' Hp.
  - intros H; inversion H; subst. apply Hp.
  - cbn [ParseBlocks].
    destruct (ParseBlock p block) as [[ok1 p1]|f] eqn:E; [|discriminate].
    destruct (ParseBlock_settled _ _ _ _ Hp E) as [Hcur Hnext].
    cbn [bind]. destruct ok1; cbn [negb].
    + apply IH. now apply Hnext.
    + intros H; inversion H; subst. assumption.
Qed.

(** The same of the loop of [Parse] itself, for the blocks it reads. *)
Lemma Parse_loop_config_blob n p ok p' :
  saw_cue_ p = false ->
  stream_info_dispatched_ p = false ->
  style_region_config_ p = "" ->
  delivered p = [] ->
  Parse_loop n p = Returns (ok, p') ->
  exists blocks,
    reads (reader_ p) blocks (reader_ p') /\
    style_region_config_ p' = config_blob blocks /\
    description_current p'.
Proof.
  intros Hsaw Hd Hcfg Hdel H. apply Parse_loop_run in H.
  destruct H as (blocks & Hreads & Hrun & _). exists blocks.
  split; [exact Hreads|]. split.
  - rewrite (ParseBlocks_config _ _ _ _ Hrun). simpl. rewrite Hsaw, Hcfg.
    apply config_blob_fold.
  - eapply ParseBlocks_current; [|exact Hrun].
    unfold description_settled, description_current. simpl.
    rewrite Hdel, Hd. split; [reflexivity|discriminate].
Qed.

(** C5.  A parser that has seen no cue, sent no stream description and
    holds an empty config processes a sequence of blocks, up to the end or
    to the first block that fails.  Its config is then the style and
    region blocks that came before the first block read as a cue, in the
    order of arrival, the lines of a block joined by single newlines and
    two blocks separated by one blank line.  Once [saw_cue_] is set a style
    or region block changes nothing.  The stream description was delivered
    at most once, and the one delivered carries that very config. *)
Theorem config_blob_is_frozen p blocks ok p' :
  saw_cue_ p = false ->
  stream_info_dispatched_ p = false ->
  style_region_config_ p = "" ->
  delivered p = [] ->
  ParseBlocks p blocks = Returns (ok, p') ->
  style_region_config_ p' = config_blob blocks
  /\ (stream_events (delivered p') = [] \/
      stream_events (delivered p') =
      [StreamsReady [stream_info (config_blob blocks)]])
  /\ (forall q block,
        saw_cue_ q = true -> is_config_block block = true ->
        ParseBlock q block = Returns (true, q))
  /\ (forall q block,
        saw_cue_ q = false -> is_config_block block = true ->
        ParseBlock q block =
        Returns (true,
                 set_style_region_config q
                   (append_with (newline ++ newline) (style_region_config_ q)
                      (JoinString block newline)))).
Proof.
  intros Hsaw Hd Hcfg Hdel Hrun.
  assert (Hblob : style_region_config_ p' = config_blob blocks).
  { rewrite (ParseBlocks_config _ _ _ _ Hrun), Hsaw, Hcfg. apply config_blob_fold. }
  assert (Hp : description_settled p).
  { unfold description_settled, description_current. rewrite Hdel, Hd.
    split; [reflexivity|discriminate]. }
  pose proof (ParseBlocks_current _ _ _ _ Hp Hrun) as Hcur.
  unfold description_current in Hcur. rewrite Hblob in Hcur.
  split; [exact Hblob|]. split.
  { destruct (stream_info_dispatched_ p'); auto. }
  assert (Hshape : forall block,
            is_config_block block = true ->
            exists block0 rest, block = block0 :: rest /\
              IsLikelyNote block0 = false /\
              IsLikelyStyle block0 || IsLikelyRegion block0 = true).
  { intros [|block0 rest] H; [discriminate|]. unfold is_config_block in H.
    cbn [nth] in H. apply andb_true_iff in H. destruct H as [Hn Hc].
    apply negb_true_iff in Hn. eauto. }
  split.
  - intros q block Hq Hb. destruct (Hshape _ Hb) as (b0 & rest & -> & Hn & Hc).
    rewrite ParseBlock_config by assumption. now rewrite Hq.
  - intros q block Hq Hb. destruct (Hshape _ Hb) as (b0 & rest & -> & Hn & Hc).
    rewrite ParseBlock_config by assumption. now rewrite Hq, UpdateConfig_eq.
Qed.

(* ================================================================== *)
(** ** [Init] and the key source *)

(** C9, as stated, fails: in a build without assertions [Init] takes a
    key source and binds the callbacks as if there were none. *)
Lemma Init_takes_key_source_without_dcheck :
  Init false new_parser on_streams null_callback accept_all
    (Some (mkKeySource "widevine"))
  = Returns (ready_parser accept_all).
Proof. reflexivity. Qed.

(** C9, amended.  [Init] returns nothing and has no error to report.  A
    key source breaks a debug-only assertion: in a build with assertions
    [Init] stops the process, with the message of that assertion when the
    assertions before it hold, and nothing has been parsed; in a build
    without assertions [Init] does exactly what it does without a key
    source. *)
Theorem Init_with_key_source p init_cb media_cb text_cb key :
  (exists message,
     Init true p init_cb media_cb text_cb (Some key) = Crashes (CheckFailed message))
  /\ (is_null (init_cb_ p) = true ->
      is_null init_cb = false ->
      is_null text_cb = false ->
      Init true p init_cb media_cb text_cb (Some key)
      = Crashes (CheckFailed "Encrypted WebVTT not supported")
      /\ Init true p init_cb media_cb text_cb None
         = Returns (set_callbacks p init_cb text_cb))
  /\ Init false p init_cb media_cb text_cb (Some key)
     = Returns (set_callbacks p init_cb text_cb)
  /\ Init false p init_cb media_cb text_cb (Some key)
     = Init false p init_cb media_cb text_cb None.
Proof.
  split; [|split; [|split]].
  - unfold Init, DCHECK.
    destruct (is_null (init_cb_ p)); cbn [negb andb bind]; [|eauto].
    destruct (is_null init_cb); cbn [negb andb bind]; [eauto|].
    destruct (is_null text_cb); cbn [negb andb bind]; eauto.
  - intros H1 H2 H3. unfold Init, DCHECK. rewrite H1, H2, H3. split; reflexivity.
  - reflexivity.
  - reflexivity.
Qed.

(* ================================================================== *)
(** ** A call that returns false *)

(** C8, as stated, fails: the first call returns false on a block that is
    no cue, and the next call on the same parser returns true and
    delivers the sample of the cue it is given. *)
Lemma failure_is_not_latched :
  observed (Parse_buf (ready_parser accept_all)
              (text ["WEBVTT"; ""; "not a cue"; ""]))
  = Returns (false, [])
  /\ observed (and_then
                 (Parse_buf (ready_parser accept_all)
                    (text ["WEBVTT"; ""; "not a cue"; ""]))
                 (fun p => Parse_buf p
                    (text ["00:00:01.000 --> 00:00:02.000"; "hello"; ""])))
     = Returns (true,
                [StreamsReady [stream_info ""];
                 NewTextSample 0 (mkTextSample "" 1000 2000 "" "hello")]).
Proof. split; vm_compute; reflexivity. Qed.

Lemma Parse_nothing_to_read p :
  BlockReader.Next (reader_ p) = None -> Parse p = Returns (true, p).
Proof.
  intros H. unfold Parse, loop_budget. destruct (initialized_ p); cbn [negb].
  - cbn [Parse_loop]. now rewrite H.
  - now rewrite H.
Qed.

(** C8, amended.  A call that returns false has stopped at the block that
    failed: either the header check failed on the first block, or the
    blocks before were processed, [ParseBlock] returned false on this one,
    and the reader is left right behind it, with whatever follows still
    in it.  The parser keeps no mark of the failure: a later call goes on
    with what the reader holds, and returns true when the reader has no
    block for it. *)
Theorem failing_call_stops_at_its_block p p' :
  Parse p = Returns (false, p') ->
  ((initialized_ p = false /\
    exists block,
      BlockReader.Next (reader_ p) = Some (block, reader_ p') /\
      block <> [kHeader] /\ block <> [kHeaderWithBOM] /\
      p' = set_reader p (reader_ p'))
   \/
   (exists p0 before block q,
      past_header p p0 /\
      reads (reader_ p0) (before ++ [block]) (reader_ p') /\
      ParseBlocks (set_reader p0 (reader_ p')) before = Returns (true, q) /\
      ParseBlock q block = Returns (false, p')))
  /\ (forall r,
        BlockReader.Next r = None ->
        Parse (set_reader p' r) = Returns (true, set_reader p' r)).
Proof.
  intros H. split; [|intros r Hr; now apply Parse_nothing_to_read].
  unfold Parse in H. destruct (initialized_ p) eqn:Hinit; cbn [negb] in H.
  - right. apply Parse_loop_run in H.
    destruct H as (blocks & Hreads & _ & before & block & q & -> & Hb & Hl).
    exists p, before, block, q. repeat split; try assumption. now left.
  - destruct (BlockReader.Next (reader_ p)) as [[block r]|] eqn:E; [|discriminate].
    destruct block as [|block0 [|block1 rest]].
    + left. inversion H; subst. split; [first [assumption | reflexivity]|]. exists []. simpl.
      repeat split; try assumption; discriminate.
    + cbn [List.length Nat.eqb negb at_ nth_error bind] in H.
      destruct (block0 =? "WEBVTT")%string eqn:E1;
        [|destruct (block0 =? kHeaderWithBOM)%string eqn:E2].
      * right. apply String.eqb_eq in E1. subst block0. cbn [negb andb] in H.
        apply Parse_loop_run in H.
        destruct H as (blocks & Hreads & _ & before & block & q & -> & Hb & Hl).
        exists (set_initialized (set_reader p r) true), before, block, q.
        repeat split; try assumption. right. split; [first [assumption | reflexivity]|].
        exists ["WEBVTT"], r. repeat split; auto.
      * right. apply String.eqb_eq in E2. subst block0. cbn [negb andb] in H.
        apply Parse_loop_run in H.
        destruct H as (blocks & Hreads & _ & before & block & q & -> & Hb & Hl).
        exists (set_initialized (set_reader p r) true), before, block, q.
        repeat split; try assumption. right. split; [first [assumption | reflexivity]|].
        exists [kHeaderWithBOM], r. repeat split; auto.
      * left. cbn [negb andb] in H. inversion H; subst. split; [first [assumption | reflexivity]|].
        exists [block0]. simpl. repeat split; try assumption.
        -- intros Heq. inversion Heq; subst. discriminate.
        -- intros Heq. inversion Heq; subst.
           rewrite String.eqb_refl in E2. discriminate.
    + left. inversion H; subst. split; [first [assumption | reflexivity]|].
      exists (block0 :: block1 :: rest). simpl.
      repeat split; try assumption; discriminate.
Qed.

(* ================================================================== *)
(** ** Chunks *)

Lemma ParseBlock_extended more f p r block :
  ParseBlock (set_reader (extended more f p) (extend more f r)) block =
  '(ok, p1) <- ParseBlock (set_reader p r) block ;;
  Returns (ok, extended more f p1).
Proof.
  unfold extended. rewrite set_reader_twice, !ParseBlock_set_reader.
  destruct (ParseBlock p block) as [[ok p1]|e]; reflexivity.
Qed.

(** What the loop does when more data stands behind the buffer: the same
    up to where it stopped, and then it goes on. *)
Lemma Parse_loop_extended more f n : forall p,
  BlockReader.flushed (reader_ p) = false ->
  (String.length (BlockReader.buffer (reader_ p)) < n)%nat ->
  let q := extended more f p in
  match Parse_loop n p with
  | Returns (true, p1) =>
      let q1 := extended more f p1 in
      Parse_loop (loop_budget q) q = Parse_loop (loop_budget q1) q1
  | Returns (false, p1) =>
      Parse_loop (loop_budget q) q = Returns (false, extended more f p1)
  | Crashes e => Parse_loop (loop_budget q) q = Crashes e
  end.
Proof.
  induction n as [|n IH]; intros p Hf Hn q; [lia|]. cbn [Parse_loop].
  destruct (BlockReader.Next (reader_ p)) as [[block r]|] eqn:E; [|reflexivity].
  pose proof (Next_stable _ _ _ more f Hf E) as E'.
  destruct (Next_shrinks _ _ _ E) as [Hlen Hf'].
  assert (Hq : Parse_loop (loop_budget q) q =
               '(ok, p1) <- ParseBlock (set_reader p r) block ;;
               if negb ok then Returns (false, extended more f p1)
               else Parse_loop (String.length (BlockReader.buffer (reader_ q)))
                      (extended more f p1)).
  { unfold loop_budget. cbn [Parse_loop]. unfold q at 1 2. unfold extended at 1 2.
    cbn [reader_ set_reader]. rewrite E'.
    change (set_reader (set_reader p (extend more f (reader_ p))) (extend more f r))
      with (set_reader (extended more f p) (extend more f r)).
    rewrite ParseBlock_extended.
    destruct (ParseBlock (set_reader p r) block) as [[ok p1]|e]; [|reflexivity].
    cbn [bind]. now destruct ok. }
  rewrite Hq.
  destruct (ParseBlock (set_reader p r) block) as [[ok p1]|e] eqn:E1;
    [|reflexivity].
  cbn [bind]. destruct ok; cbn [negb]; [|reflexivity].
  apply ParseBlock_frame in E1. destruct E1 as [_ _ Hr _]. simpl in Hr.
  assert (Hf1 : BlockReader.flushed (reader_ p1) = false) by congruence.
  assert (Hn1 : (String.length (BlockReader.buffer (reader_ p1)) < n)%nat)
    by (rewrite Hr; lia).
  assert (Hfuel : Parse_loop (String.length (BlockReader.buffer (reader_ q)))
                    (extended more f p1)
                  = Parse_loop (loop_budget (extended more f p1))
                      (extended more f p1)).
  { apply Parse_loop_fuel; [|apply loop_budget_enough].
    unfold q, extended, extend. cbn [reader_ set_reader BlockReader.buffer].
    rewrite Hr, !length_append. lia. }
  rewrite Hfuel. apply (IH p1 Hf1 Hn1).
Qed.

Lemma Parse_flushed p ok p' :
  Parse p = Returns (ok, p') ->
  BlockReader.flushed (reader_ p') = BlockReader.flushed (reader_ p)
  /\ (initialized_ p = true -> initialized_ p' = true).
Proof.
  unfold Parse. destruct (initialized_ p) eqn:Hinit; cbn [negb].
  - intros H. apply Parse_loop_frame in H. destruct H as (_ & _ & Hi & Hf).
    split; [assumption|]. intros _. congruence.
  - destruct (BlockReader.Next (reader_ p)) as [[block r]|] eqn:E.
    + destruct (Next_shrinks _ _ _ E) as [_ Hf].
      destruct (negb (List.length block =? 1)%nat).
      { intros H; inversion H; subst. simpl. split; [assumption|discriminate]. }
      destruct (at_ block 0) as [block0|e]; [|discriminate]. cbn [bind].
      destruct (_ && _).
      { intros H; inversion H; subst. simpl. split; [assumption|discriminate]. }
      intros H. apply Parse_loop_frame in H. simpl in H.
      split; [|discriminate]. destruct H as (_ & _ & _ & H). congruence.
    + intros H; inversion H; subst. split; [reflexivity|discriminate].
Qed.

(** The same for a whole call. *)
Lemma Parse_extended more f p :
  BlockReader.flushed (reader_ p) = false ->
  match Parse p with
  | Returns (true, p1) => Parse (extended more f p) = Parse (extended more f p1)
  | Returns (false, p1) =>
      Parse (extended more f p) = Returns (false, extended more f p1)
  | Crashes e => Parse (extended more f p) = Crashes e
  end.
Proof.
  intros Hf. destruct (initialized_ p) eqn:Hinit.
  - assert (Hq : initialized_ (extended more f p) = true) by exact Hinit.
    rewrite (Parse_initialized _ Hinit), (Parse_initialized _ Hq).
    pose proof (Parse_loop_extended more f _ p Hf (loop_budget_enough p)) as H.
    cbv zeta in H.
    destruct (Parse_loop (loop_budget p) p) as [[[|] p1]|e] eqn:E; try assumption.
    rewrite H. apply Parse_loop_frame in E. destruct E as (_ & _ & Hi & _).
    symmetry. apply Parse_initialized. simpl. congruence.
  - destruct (BlockReader.Next (reader_ p)) as [[block r]|] eqn:E.
    + pose proof (Next_stable _ _ _ more f Hf E) as E'.
      destruct (Next_shrinks _ _ _ E) as [_ Hf'].
      set (p0 := set_initialized (set_reader p r) true).
      assert (Hf0 : BlockReader.flushed (reader_ p0) = false) by (simpl; congruence).
      assert (Hq : Parse (extended more f p) =
                   if negb (List.length block =? 1)%nat
                   then Returns (false, extended more f (set_reader p r))
                   else
                     block0 <- at_ block 0 ;;
                     if negb (block0 =? "WEBVTT")%string
                        && negb (block0 =? kHeaderWithBOM)%string
                     then Returns (false, extended more f (set_reader p r))
                     else Parse_loop (loop_budget (extended more f p0))
                            (extended more f p0)).
      { unfold Parse.
        change (initialized_ (extended more f p)) with (initialized_ p).
        rewrite Hinit. cbn [negb]. unfold extended at 1. cbn [reader_ set_reader].
        rewrite E'. reflexivity. }
      assert (Hp : Parse p =
                   if negb (List.length block =? 1)%nat
                   then Returns (false, set_reader p r)
                   else
                     block0 <- at_ block 0 ;;
                     if negb (block0 =? "WEBVTT")%string
                        && negb (block0 =? kHeaderWithBOM)%string
                     then Returns (false, set_reader p r)
                     else Parse_loop (loop_budget p0) p0).
      { unfold Parse. rewrite Hinit, E. reflexivity. }
      rewrite Hq, Hp. clear Hq Hp.
      destruct (negb (List.length block =? 1)%nat); [reflexivity|].
      destruct (at_ block 0) as [block0|e]; [|reflexivity]. cbn [bind].
      destruct (_ && _); [reflexivity|].
      pose proof (Parse_loop_extended more f _ p0 Hf0 (loop_budget_enough p0)) as H.
      cbv zeta in H.
      destruct (Parse_loop (loop_budget p0) p0) as [[[|] p1]|e] eqn:E0;
        try assumption.
      rewrite H. apply Parse_loop_frame in E0. destruct E0 as (_ & _ & Hi & _).
      assert (Hi1 : initialized_ (extended more f p1) = true)
        by (simpl; rewrite Hi; reflexivity).
      rewrite (Parse_initialized _ Hi1). reflexivity.
    + rewrite Parse_nothing_to_read by assumption. reflexivity.
Qed.

Lemma PushData_extend r data :
  BlockReader.flushed r = false ->
  BlockReader.PushData r data = extend data false r.
Proof. unfold BlockReader.PushData, extend. now intros ->. Qed.

Lemma Flush_extend r : BlockReader.Flush r = extend "" true r.
Proof. unfold BlockReader.Flush, extend. now rewrite append_nil_r. Qed.

Lemma extended_twice a fa b fb p :
  extended b fb (extended a fa p) = extended (a ++ b) fb p.
Proof.
  unfold extended, extend. simpl. now rewrite append_assoc.
Qed.

(** Feeding the chunks and finishing comes to the same as one call on the
    whole document with the reader flushed. *)
Lemma feed_as_one_call chunks : forall p,
  BlockReader.flushed (reader_ p) = false ->
  observed (feed p chunks) = observed (Parse (extended (document chunks) true p)).
Proof.
  induction chunks as [|chunk chunks IH]; intros p Hf.
  - cbn [feed]. change (document []) with "".
    unfold Flush, extended. now rewrite Flush_extend.
  - cbn [feed]. change (document (chunk :: chunks)) with (chunk ++ document chunks).
    unfold Parse_buf. rewrite (PushData_extend _ _ Hf).
    fold (extended chunk false p).
    assert (Hfc : BlockReader.flushed (reader_ (extended chunk false p)) = false)
      by reflexivity.
    pose proof (Parse_extended (document chunks) true _ Hfc) as H.
    rewrite extended_twice in H.
    destruct (Parse (extended chunk false p)) as [[[|] p1]|e] eqn:E.
    + cbn [bind negb]. rewrite H. apply IH.
      apply Parse_flushed in E. destruct E as [E _]. now rewrite E.
    + cbn [bind negb]. rewrite H. reflexivity.
    + now rewrite H.
Qed.

Lemma document_one_byte_chunks doc : document (one_byte_chunks doc) = doc.
Proof.
  unfold one_byte_chunks. induction doc as [|c doc IH]; [reflexivity|].
  simpl. now rewrite IH.
Qed.

(** C7.  On a parser that has not been flushed, a document fed as any
    sequence of chunks, down to one byte per call, and finished with
    [Flush] gives the caller what the same document gives in one chunk:
    the same deliveries in the same order and the same result, true when
    every call returned true and false at the first call that returned
    false, after which the caller makes no further call. *)
Theorem chunking_is_invisible p doc chunks :
  BlockReader.flushed (reader_ p) = false ->
  document chunks = doc ->
  observed (feed p chunks) = observed (feed p [doc])
  /\ observed (feed p (one_byte_chunks doc)) = observed (feed p [doc]).
Proof.
  intros Hf <-.
  assert (Hone : forall d, observed (feed p [d]) = observed (Parse (extended d true p))).
  { intros d. rewrite (feed_as_one_call [d] p Hf).
    change (document [d]) with (d ++ ""). now rewrite append_nil_r. }
  split.
  - now rewrite Hone, feed_as_one_call.
  - rewrite Hone, feed_as_one_call by assumption.
    now rewrite document_one_byte_chunks.
Qed.

(* ================================================================== *)
(** ** The stream description is delivered once *)

Lemma ParseBlock_dispatch_recorded p block ok p' :
  dispatch_recorded p ->
  ParseBlock p block = Returns (ok, p') ->
  dispatch_recorded p'.
Proof.
  intros Hrec. destruct block as [|block0 rest]; [discriminate|].
  destruct (block_cases block0 rest)
    as [Hn | [[Hn Hc] | [(Hn & Hs & Hr & id & lines & Hq) | (Hn & Hs & Hr & Hq)]]].
  - rewrite ParseBlock_note by assumption. returned.
  - rewrite ParseBlock_config by assumption. intros H. inversion H; subst.
    now destruct (saw_cue_ p).
  - rewrite (ParseBlock_cue _ _ _ _ Hq).
    destruct (cue_candidate_lines _ _ _ Hq) as (line & body & -> & _).
    destruct (ParseCue p id (line :: body)) as [[okc pc]|f] eqn:E; [|discriminate].
    cbn [bind]. intros H. inversion H; subst. clear H.
    destruct (announced_recorded p Hrec) as (Hrec' & _ & _).
    apply ParseCue_returns in E.
    destruct E as [(_ & -> & ->) |
                   (s & e & _ & [(_ & -> & ->) | (_ & a & x & _ & -> & ->)])].
    + assumption.
    + exact Hrec'.
    + assert (Hd : dispatch_recorded
                     (deliver (announced p) (NewTextSample kStreamIndex x))).
      { unfold dispatch_recorded in *. simpl. rewrite stream_events_app, length_app.
        simpl. now rewrite Nat.add_0_r. }
      now destruct (a _ _ _).
  - rewrite ParseBlock_unclassified by assumption. returned.
Qed.

Lemma Parse_loop_dispatch_recorded n : forall p ok p',
  dispatch_recorded p ->
  Parse_loop n p = Returns (ok, p') ->
  dispatch_recorded p'.
Proof.
  induction n as [|n IH]; intros p ok p' Hrec; [discriminate|]. cbn [Parse_loop].
  destruct (BlockReader.Next (reader_ p)) as [[block r]|]; [|returned].
  destruct (ParseBlock (set_reader p r) block) as [[ok1 p1]|f] eqn:E; [|discriminate].
  apply ParseBlock_dispatch_recorded in E; [|exact Hrec].
  cbn [bind]. destruct ok1; cbn [negb]; [now apply IH|returned].
Qed.

(** From the new parser on, whatever is fed: the description has been
    delivered once if the flag is set, and never if it is not. *)
Lemma Parse_dispatch_recorded p ok p' :
  dispatch_recorded p -> Parse p = Returns (ok, p') -> dispatch_recorded p'.
Proof.
  intros Hrec. unfold Parse. destruct (initialized_ p); cbn [negb].
  - now apply Parse_loop_dispatch_recorded.
  - destruct (BlockReader.Next (reader_ p)) as [[block r]|]; [|returned].
    destruct (negb (List.length block =? 1)%nat); [returned|].
    destruct (at_ block 0) as [block0|e]; [|discriminate]. cbn [bind].
    destruct (_ && _); [returned|].
    now apply Parse_loop_dispatch_recorded.
Qed.

Lemma new_parser_dispatch_recorded sink : dispatch_recorded (ready_parser sink).
Proof. reflexivity. Qed.

(* ================================================================== *)
(** ** The theorems at work *)

(** A note block wins over the cue its second line would make. *)
Lemma ParseBlock_follows_precedence_witness :
  classify space_tokens ["NOTE"; "00:00:01.000 --> 00:00:02.000"] = Comment
  /\ ParseBlock (ready_parser accept_all) ["NOTE"; "00:00:01.000 --> 00:00:02.000"]
     = Returns (true, ready_parser accept_all).
Proof.
  split; [reflexivity|].
  exact (proj1 (ParseBlock_follows_precedence (ready_parser accept_all)
                  ["NOTE"; "00:00:01.000 --> 00:00:02.000"]
                  ltac:(discriminate) (conj eq_refl eq_refl))).
Defined.

(** The header alone: the parser ends initialized. *)
Lemma header_block_witness :
  initialized_ (holding (ready_parser accept_all) (text ["WEBVTT"; ""])) = false
  /\ Parse (holding (ready_parser accept_all) (text ["WEBVTT"; ""]))
     = Returns (true,
                set_initialized
                  (set_reader (ready_parser accept_all) BlockReader.empty) true)
  /\ initialized_
       (left_by (Parse (holding (ready_parser accept_all) (text ["WEBVTT"; ""]))))
     = true.
Proof.
  split; [reflexivity|]. split; [reflexivity|].
  apply (proj2 (proj2 (proj1 (proj2
           (header_block (holding (ready_parser accept_all) (text ["WEBVTT"; ""]))
              eq_refl))
           ["WEBVTT"] BlockReader.empty eq_refl (or_introl eq_refl))) true).
  reflexivity.
Defined.



(** Style, region, cue, and a style block that comes too late. *)
Lemma config_blob_is_frozen_witness :
  style_region_config_
    (left_by (ParseBlocks (ready_parser accept_all)
                [["STYLE"; "::cue { color:lime }"];
                 ["REGION"; "id:scroll"; "scrol:up"];
                 ["00:01:00.000 --> 01:00:00.000"; "subtitle"];
                 ["STYLE"; "::cue { color:red }"]]))
  = config_blob [["STYLE"; "::cue { color:lime }"];
                 ["REGION"; "id:scroll"; "scrol:up"];
                 ["00:01:00.000 --> 01:00:00.000"; "subtitle"];
                 ["STYLE"; "::cue { color:red }"]]
  /\ config_blob [["STYLE"; "::cue { color:lime }"];
                  ["REGION"; "id:scroll"; "scrol:up"];
                  ["00:01:00.000 --> 01:00:00.000"; "subtitle"];
                  ["STYLE"; "::cue { color:red }"]]
     = text ["STYLE"; "::cue { color:lime }"; ""; "REGION"; "id:scroll"]
       ++ "scrol:up".
Proof.
  split; [|reflexivity].
  apply (config_blob_is_frozen (ready_parser accept_all)
           [["STYLE"; "::cue { color:lime }"];
            ["REGION"; "id:scroll"; "scrol:up"];
            ["00:01:00.000 --> 01:00:00.000"; "subtitle"];
            ["STYLE"; "::cue { color:red }"]]
           true _ eq_refl eq_refl eq_refl eq_refl).
  vm_compute. reflexivity.
Defined.

(** The cue of the tests [ParseOneCueWithId] and [ParseOneCueWithSettings]
    in one. *)
Lemma valid_cue_sample_witness :
  observed (ParseBlock (ready_parser accept_all)
              ["id"; "00:01:00.000 --> 01:00:00.000 size:50% line:0"; "sub"; "title"])
  = Returns (true,
             [StreamsReady [stream_info ""];
              NewTextSample 0
                (mkTextSample "id" 60000 3600000 "size:50% line:0"
                   (text ["sub"] ++ "title"))]).
Proof.
  rewrite (proj1 (proj2 (proj2
             (valid_cue_sample (ready_parser accept_all)
                ["id"; "00:01:00.000 --> 01:00:00.000 size:50% line:0"; "sub"; "title"]
                "id" "00:01:00.000 --> 01:00:00.000 size:50% line:0" ["sub"; "title"]
                60000 3600000 (fun _ _ _ => true)
                eq_refl eq_refl eq_refl
                ltac:(repeat constructor; discriminate)
                eq_refl ltac:(lia))))).
  reflexivity.
Defined.

(** A document in one chunk, in chunks that cut through lines, and byte
    by byte. *)
Lemma chunking_is_invisible_witness :
  observed (feed (ready_parser accept_all)
              ["WEBV"; "TT" ++ newline; newline ++ "00:00:01.000 -->";
               " 00:00:05.200" ++ newline ++ "subtitle A"; newline])
  = Returns (true,
             [StreamsReady [stream_info ""];
              NewTextSample 0 (mkTextSample "" 1000 5200 "" "subtitle A")])
  /\ observed (feed (ready_parser accept_all)
                 (one_byte_chunks
                    (text ["WEBVTT"; ""; "00:00:01.000 --> 00:00:05.200";
                           "subtitle A"])))
     = Returns (true,
                [StreamsReady [stream_info ""];
                 NewTextSample 0 (mkTextSample "" 1000 5200 "" "subtitle A")]).
Proof.
  destruct (chunking_is_invisible (ready_parser accept_all)
              (text ["WEBVTT"; ""; "00:00:01.000 --> 00:00:05.200"; "subtitle A"])
              ["WEBV"; "TT" ++ newline; newline ++ "00:00:01.000 -->";
               " 00:00:05.200" ++ newline ++ "subtitle A"; newline]
              eq_refl eq_refl) as [H1 H2].
  split; [rewrite H1|rewrite H2]; vm_compute; reflexivity.
Defined.

(** After the failure on a block that is no cue, a call with nothing new
    to read returns true. *)
Lemma failing_call_stops_at_its_block_witness :
  Parse (holding (ready_parser accept_all) (text ["WEBVTT"; ""; "not a cue"; ""]))
  = Returns (false,
             left_by (Parse (holding (ready_parser accept_all)
                               (text ["WEBVTT"; ""; "not a cue"; ""]))))
  /\ Parse (set_reader
              (left_by (Parse (holding (ready_parser accept_all)
                                 (text ["WEBVTT"; ""; "not a cue"; ""]))))
              BlockReader.empty)
     = Returns (true,
                set_reader
                  (left_by (Parse (holding (ready_parser accept_all)
                                     (text ["WEBVTT"; ""; "not a cue"; ""]))))
                  BlockReader.empty).
Proof.
  assert (H : Parse (holding (ready_parser accept_all)
                       (text ["WEBVTT"; ""; "not a cue"; ""]))
              = Returns (false,
                         left_by (Parse (holding (ready_parser accept_all)
                                           (text ["WEBVTT"; ""; "not a cue"; ""])))))
    by (vm_compute; reflexivity).
  split; [exact H|].
  exact (proj2 (failing_call_stops_at_its_block _ _ H) BlockReader.empty eq_refl).
Defined.

(* ================================================================== *)
(** ** Timing lines with tabs *)

(** C1, as stated, fails: by the rules of the specification, which cut the
    timing line at every whitespace character, this block is a cue without
    identifier; [ParseBlock] cuts at spaces, finds one token, returns false
    and sends nothing. *)
Lemma tab_separated_cue_is_refused :
  classify whitespace_tokens
    ["00:00:01.000" ++ String TAB "-->" ++ String TAB "00:00:05.200"; "subtitle A"]
  = CueWithoutId
  /\ ParseBlock (ready_parser accept_all)
       ["00:00:01.000" ++ String TAB "-->" ++ String TAB "00:00:05.200"; "subtitle A"]
     = Returns (false, ready_parser accept_all)
  /\ ~ effect_of CueWithoutId (ready_parser accept_all)
        ["00:00:01.000" ++ String TAB "-->" ++ String TAB "00:00:05.200"; "subtitle A"]
        (ParseBlock (ready_parser accept_all)
           ["00:00:01.000" ++ String TAB "-->" ++ String TAB "00:00:05.200";
            "subtitle A"]).
Proof.
  split; [vm_compute; reflexivity|].
  assert (E : ParseBlock (ready_parser accept_all)
                ["00:00:01.000" ++ String TAB "-->" ++ String TAB "00:00:05.200";
                 "subtitle A"]
              = Returns (false, ready_parser accept_all))
    by (vm_compute; reflexivity).
  split; [exact E|]. rewrite E.
  intros (ok & p' & H & _ & Hd & _). inversion H; subst. discriminate Hd.
Qed.

(** C6, as stated, fails: the settings of this cue are separated by a tab;
    cut at whitespace and joined by single spaces they would hold a space
    there, and the sample that is delivered holds the tab. *)
Lemma settings_keep_the_tab :
  observed (ParseBlock (ready_parser accept_all)
              ["00:00:01.000 --> 00:00:05.200 align:start" ++ String TAB "line:0";
               "subtitle A"])
  = Returns (true,
             [StreamsReady [stream_info ""];
              NewTextSample 0
                (mkTextSample "" 1000 5200
                   ("align:start" ++ String TAB "line:0") "subtitle A")])
  /\ JoinString
       (skipn 3 (whitespace_tokens
                   ("00:00:01.000 --> 00:00:05.200 align:start"
                    ++ String TAB "line:0"))) " "
     = "align:start line:0".
Proof. split; vm_compute; reflexivity. Qed.

(* ================================================================== *)
(** ** The tests of [webvtt_parser_unittest.cc], run on the model *)

Example test_FailToParseEmptyFile :
  run_test "" = Returns (true, true, []).
Proof. reflexivity. Qed.

Example test_ParseOnlyHeader :
  run_test (text ["WEBVTT"; ""]) = Returns (true, true, []).
Proof. reflexivity. Qed.

Example test_ParseHeaderWithBOM :
  run_test (text [kHeaderWithBOM; ""]) = Returns (true, true, []).
Proof. reflexivity. Qed.

Example test_FailToParseHeaderWrongWord :
  observed (Parse_buf (ready_parser accept_all) (text ["NOT WEBVTT"; ""]))
  = Returns (false, []).
Proof. reflexivity. Qed.

Example test_FailToParseHeaderNotOneLine :
  observed (Parse_buf (ready_parser accept_all) (text ["WEBVTT"; "WEBVTT"; ""]))
  = Returns (false, []).
Proof. reflexivity. Qed.

Example test_SendsStreamInfo :
  run_test (text ["WEBVTT"; ""; "00:00:00.000 --> 00:01:00.000"; "Testing"])
  = Returns (true, true,
             [StreamsReady [mkTextStreamInfo 0 1000 0 kCodecWebVtt "wvtt" "" 0 0 ""];
              NewTextSample 0 (mkTextSample "" 0 60000 "" "Testing")]).
Proof. vm_compute. reflexivity. Qed.

Example test_IgnoresZeroDurationCues :
  run_test (text ["WEBVTT"; ""; "00:01:00.000 --> 00:01:00.000";
                  "This subtitle would never show"])
  = Returns (true, true, [StreamsReady [stream_info ""]]).
Proof. vm_compute. reflexivity. Qed.

Example test_ParseOneCue :
  run_test (text ["WEBVTT"; ""; "00:01:00.000 --> 01:00:00.000"; "subtitle"])
  = Returns (true, true,
             [StreamsReady [stream_info ""];
              NewTextSample 0 (mkTextSample "" 60000 3600000 "" "subtitle")]).
Proof. vm_compute. reflexivity. Qed.

Example test_ParseOneCueWithStyleAndRegion :
  run_test (text ["WEBVTT"; ""; "STYLE"; "::cue { color:lime }"; "";
                  "REGION"; "id:scroll"; "scrol:up"; "";
                  "00:01:00.000 --> 01:00:00.000"; "subtitle"])
  = Returns (true, true,
             [StreamsReady
                [stream_info
                   (text ["STYLE"; "::cue { color:lime }"; ""; "REGION"; "id:scroll"]
                    ++ "scrol:up")];
              NewTextSample 0 (mkTextSample "" 60000 3600000 "" "subtitle")]).
Proof. vm_compute. reflexivity. Qed.

Example test_ParseOneEmptyCue :
  run_test (text ["WEBVTT"; ""; "00:01:00.000 --> 01:00:00.000"; ""])
  = Returns (true, true,
             [StreamsReady [stream_info ""];
              NewTextSample 0 (mkTextSample "" 60000 3600000 "" "")]).
Proof. vm_compute. reflexivity. Qed.

Example test_FailToParseCueWithArrowInId :
  run_test (text ["WEBVTT"; ""; "-->"; "00:01:00.000 --> 01:00:00.000"; "subtitle"])
  = Returns (true, false, []).
Proof. vm_compute. reflexivity. Qed.

Example test_ParseOneCueWithId :
  run_test (text ["WEBVTT"; ""; "id"; "00:01:00.000 --> 01:00:00.000"; "subtitle"])
  = Returns (true, true,
             [StreamsReady [stream_info ""];
              NewTextSample 0 (mkTextSample "id" 60000 3600000 "" "subtitle")]).
Proof. vm_compute. reflexivity. Qed.

Example test_ParseOneEmptyCueWithId :
  run_test (text ["WEBVTT"; ""; "id"; "00:01:00.000 --> 01:00:00.000"; ""])
  = Returns (true, true,
             [StreamsReady [stream_info ""];
              NewTextSample 0 (mkTextSample "id" 60000 3600000 "" "")]).
Proof. vm_compute. reflexivity. Qed.

Example test_ParseOneCueWithSettings :
  run_test (text ["WEBVTT"; ""; "00:01:00.000 --> 01:00:00.000 size:50%"; "subtitle"])
  = Returns (true, true,
             [StreamsReady [stream_info ""];
              NewTextSample 0 (mkTextSample "" 60000 3600000 "size:50%" "subtitle")]).
Proof. vm_compute. reflexivity. Qed.

Example test_ParseMultipleCues :
  run_test (text ["WEBVTT"; "";
                  "00:00:01.000 --> 00:00:05.200"; "subtitle A"; "";
                  "00:00:02.321 --> 00:00:07.000"; "subtitle B"; "";
                  "00:00:05.800 --> 00:00:08.000"; "subtitle C"])
  = Returns (true, true,
             [StreamsReady [stream_info ""];
              NewTextSample 0 (mkTextSample "" 1000 5200 "" "subtitle A");
              NewTextSample 0 (mkTextSample "" 2321 7000 "" "subtitle B");
              NewTextSample 0 (mkTextSample "" 5800 8000 "" "subtitle C")]).
Proof. vm_compute. reflexivity. Qed.

Example test_ParseWithComments :
  run_test (text ["WEBVTT"; "";
                  "NOTE This is a one line comment"; "";
                  "00:00:01.000 --> 00:00:05.200"; "subtitle A"; "";
                  "NOTE"; "This is a multi-line comment"; "";
                  "00:00:02.321 --> 00:00:07.000"; "subtitle B"; "";
                  "NOTE This is a single line comment that"; "spans two lines"; "";
                  kNote ++ String TAB "This is a comment that using a tab"; "";
                  "00:00:05.800 --> 00:00:08.000"; "subtitle C"])
  = Returns (true, true,
             [StreamsReady [stream_info ""];
              NewTextSample 0 (mkTextSample "" 1000 5200 "" "subtitle A");
              NewTextSample 0 (mkTextSample "" 2321 7000 "" "subtitle B");
              NewTextSample 0 (mkTextSample "" 5800 8000 "" "subtitle C")]).
Proof. vm_compute. reflexivity. Qed.

(** A sample callback that refuses the sample: the call returns false, and
    the stream description and the sample have been handed over. *)
Example sink_rejection_fails_the_call :
  observed (and_then
              (Parse_buf (ready_parser reject_all)
                 (text ["WEBVTT"; ""; "00:00:01.000 --> 00:00:05.200"; "subtitle A"]))
              Flush)
  = Returns (false,
             [StreamsReady [stream_info ""];
              NewTextSample 0 (mkTextSample "" 1000 5200 "" "subtitle A")]).
Proof. vm_compute. reflexivity. Qed.

(** A timing line whose tokens are separated by tabs is one token for
    [ParseCue], and the block fails. *)
Example tab_separated_timing_line :
  timing_tokens ("00:00:01.000" ++ String TAB "-->" ++ String TAB "00:00:05.200")
  = ["00:00:01.000" ++ String TAB "-->" ++ String TAB "00:00:05.200"]
  /\ ParseBlock (ready_parser accept_all)
       ["00:00:01.000" ++ String TAB "-->" ++ String TAB "00:00:05.200"; "subtitle A"]
     = Returns (false, ready_parser accept_all).
Proof. split; vm_compute; reflexivity. Qed.

(* ================================================================== *)
(** ** What a block and a call deliver *)

Lemma ParseCue_new_events p ident line body ok p' :
  ParseCue p ident (line :: body) = Returns (ok, p') ->
  p' = p \/ p' = announced p \/
  exists sample,
    p' = deliver (announced p) (NewTextSample kStreamIndex sample) /\
    id sample = ident /\ start_time sample < end_time sample.
Proof.
  rewrite ParseCue_eq.
  destruct (parsed_time (timing_tokens line)) as [[start_ end_]|];
    [|intros H; inversion H; auto].
  destruct (if negb (stream_info_dispatched_ p) then _ else _) as [p1|f] eqn:E;
    [|discriminate].
  apply announce_returns in E. subst p1. cbn [bind].
  destruct (end_ <=? start_) eqn:Hle; [intros H; inversion H; auto|].
  apply Z.leb_gt in Hle. unfold Run_new_text_sample_cb.
  destruct (new_text_sample_cb_ (announced p)); [discriminate|].
  intros H; inversion H; subst. right. right. eexists. split; [reflexivity|].
  rewrite fold_AppendPayload, fold_AppendStyle. simpl. split; [reflexivity|lia].
Qed.

Lemma cue_candidate_id block ident lines :
  cue_candidate block = Some (ident, lines) -> contains ident "-->" = false.
Proof.
  intros H. destruct (cue_candidate_lines _ _ _ H)
    as (line & body & _ & [(-> & _) | (_ & Hid & _)]).
  - reflexivity.
  - unfold MaybeCueId in Hid. now apply negb_true_iff in Hid.
Qed.

(** What one block adds to the deliveries. *)
Lemma ParseBlock_new_events p block ok p' :
  ParseBlock p block = Returns (ok, p') ->
  exists description samples,
    delivered p' = (delivered p ++ description ++ samples)%list /\
    (description = [] \/
     (stream_info_dispatched_ p = false /\ stream_info_dispatched_ p' = true /\
      description = [StreamsReady [stream_info (style_region_config_ p)]])) /\
    (samples = [] \/
     exists sample,
       samples = [NewTextSample 0 sample] /\
       stream_info_dispatched_ p' = true /\
       start_time sample < end_time sample /\
       contains (id sample) "-->" = false) /\
    (description = [] -> stream_info_dispatched_ p' = stream_info_dispatched_ p).
Proof.
  assert (Hnone : forall q, exists description samples : list Event,
             delivered q = (delivered q ++ description ++ samples)%list /\
             (description = [] \/
              (stream_info_dispatched_ q = false /\ stream_info_dispatched_ q = true /\
               description = [StreamsReady [stream_info (style_region_config_ q)]])) /\
             (samples = [] \/
              exists sample,
                samples = [NewTextSample 0 sample] /\
                stream_info_dispatched_ q = true /\
                start_time sample < end_time sample /\
                contains (id sample) "-->" = false) /\
             (description = [] -> stream_info_dispatched_ q = stream_info_dispatched_ q)).
  { intros q. exists [], []. rewrite app_nil_r. auto. }
  destruct block as [|block0 rest]; [discriminate|].
  destruct (block_cases block0 rest)
    as [Hn | [[Hn Hc] | [(Hn & Hs & Hr & ident & lines & Hq) | (Hn & Hs & Hr & Hq)]]].
  - rewrite ParseBlock_note by assumption. intros H; inversion H; subst. apply Hnone.
  - rewrite ParseBlock_config by assumption. intros H; inversion H; subst.
    destruct (saw_cue_ p); [apply Hnone|]. exists [], []. simpl.
    rewrite app_nil_r. auto.
  - rewrite (ParseBlock_cue _ _ _ _ Hq).
    pose proof (cue_candidate_id _ _ _ Hq) as Hid.
    destruct (cue_candidate_lines _ _ _ Hq) as (line & body & -> & _).
    destruct (ParseCue p ident (line :: body)) as [[okc pc]|f] eqn:E; [|discriminate].
    cbn [bind]. intros H; inversion H; subst. clear H.
    destruct (announced_flags p) as (_ & _ & Hd).
    assert (Hdel : forall q, delivered (if ok then set_saw_cue q true else q) = delivered q)
      by (intros q; now destruct ok).
    assert (Hflag : forall q, stream_info_dispatched_ (if ok then set_saw_cue q true else q)
                              = stream_info_dispatched_ q)
      by (intros q; now destruct ok).
    rewrite Hdel, Hflag.
    apply ParseCue_new_events in E.
    destruct E as [-> | [-> | (sample & -> & Hsid & Hlt)]].
    + apply Hnone.
    + rewrite announced_delivered, Hd.
      destruct (stream_info_dispatched_ p) eqn:Hp.
      * exists [], []. auto.
      * eexists _, []. rewrite app_nil_r. split; [reflexivity|].
        split; [auto|]. split; [auto|discriminate].
    + cbn [delivered deliver stream_info_dispatched_]. rewrite announced_delivered, Hd.
      exists (if stream_info_dispatched_ p then []
              else [StreamsReady [stream_info (style_region_config_ p)]]),
             [NewTextSample 0 sample].
      split; [now rewrite <- app_assoc|]. split; [|split].
      * destruct (stream_info_dispatched_ p); auto.
      * right. exists sample. rewrite Hsid. auto.
      * destruct (stream_info_dispatched_ p); [reflexivity|discriminate].
  - rewrite ParseBlock_unclassified by assumption. intros H; inversion H; subst.
    apply Hnone.
Qed.

(** X1.  A block adds at most one stream description and at most one
    sample to what has been delivered, in this order and behind what was
    delivered before; the description only when none had been sent, and it
    carries the config of that moment; the sample with stream index 0, an
    end after its start and an identifier without the arrow.  The flag
    [stream_info_dispatched_] changes only when the description is sent. *)
Theorem block_delivers_at_most_one_sample p block ok p' :
  ParseBlock p block = Returns (ok, p') ->
  exists description samples,
    delivered p' = (delivered p ++ description ++ samples)%list /\
    (description = [] \/
     (stream_info_dispatched_ p = false /\ stream_info_dispatched_ p' = true /\
      description = [StreamsReady [stream_info (style_region_config_ p)]])) /\
    (samples = [] \/
     exists sample,
       samples = [NewTextSample 0 sample] /\
       stream_info_dispatched_ p' = true /\
       start_time sample < end_time sample /\
       contains (id sample) "-->" = false) /\
    (description = [] -> stream_info_dispatched_ p' = stream_info_dispatched_ p).
Proof. apply ParseBlock_new_events. Qed.

(** A property of the parser object that every block keeps is kept by
    [Parse]. *)
Lemma Parse_keeps (Inv : WebVttParser -> Prop) :
  (forall p r, Inv p -> Inv (set_reader p r)) ->
  (forall p, Inv p -> Inv (set_initialized p true)) ->
  (forall p block ok p', Inv p -> ParseBlock p block = Returns (ok, p') -> Inv p') ->
  forall p ok p', Inv p -> Parse p = Returns (ok, p') -> Inv p'.
Proof.
  intros Hreader Hinit Hblock.
  assert (Hloop : forall n p ok p', Inv p -> Parse_loop n p = Returns (ok, p') -> Inv p').
  { induction n as [|n IH]; intros p ok p' Hp; [discriminate|]. cbn [Parse_loop].
    destruct (BlockReader.Next (reader_ p)) as [[block r]|]; [|returned].
    destruct (ParseBlock (set_reader p r) block) as [[ok1 p1]|f] eqn:E; [|discriminate].
    apply Hblock in E; [|now apply Hreader].
    cbn [bind]. destruct ok1; cbn [negb]; [now apply IH|returned]. }
  intros p ok p' Hp. unfold Parse. destruct (initialized_ p); cbn [negb].
  - now apply Hloop.
  - destruct (BlockReader.Next (reader_ p)) as [[block r]|]; [|returned].
    specialize (Hreader p r Hp).
    destruct (negb (List.length block =? 1)%nat); [returned|].
    destruct (at_ block 0) as [block0|e]; [|discriminate]. cbn [bind].
    destruct (_ && _); [returned|].
    apply Hloop. now apply Hinit.
Qed.

(* ================================================================== *)
(** ** What every call keeps *)

Lemma ParseBlock_description_first p block ok p' :
  description_first p ->
  ParseBlock p block = Returns (ok, p') ->
  description_first p'.
Proof.
  intros Hp E. apply ParseBlock_new_events in E.
  destruct E as (description & samples & E & Hdesc & Hsamples & Hflag).
  assert (Hs : Forall (fun e => is_stream_event e = false) samples).
  { destruct Hsamples as [-> | (sample & -> & _)]; repeat constructor. }
  destruct Hp as [[Hd Hnil] | (Hd & config & rest & Hdel & Hrest)].
  - rewrite Hnil in E. simpl in E.
    destruct Hdesc as [-> | (_ & Hd' & ->)].
    + specialize (Hflag eq_refl). left. split; [congruence|].
      destruct Hsamples as [-> | (sample & _ & Hd' & _)]; [assumption|congruence].
    + right. split; [assumption|]. eauto.
  - destruct Hdesc as [-> | (Hd' & _)]; [|congruence].
    specialize (Hflag eq_refl). right. split; [congruence|].
    exists config, (rest ++ samples)%list. split.
    + now rewrite E, Hdel.
    + apply Forall_app. now split.
Qed.

(** X3.  From a parser that has delivered nothing and sent no stream
    description, or one that has the description at the head of its
    deliveries, every call leaves the deliveries in this shape: nothing at
    all while the flag [stream_info_dispatched_] is false, and otherwise
    one stream description followed by samples only.  No sample reaches
    the caller before the stream description, and no second description
    is ever sent. *)
Theorem description_comes_first p ok p' :
  description_first p ->
  Parse p = Returns (ok, p') ->
  description_first p'.
Proof.
  apply (Parse_keeps description_first).
  - intros x r Hx. exact Hx.
  - intros x Hx. exact Hx.
  - intros x block ok1 x'. apply ParseBlock_description_first.
Qed.

(** X4.  If every sample delivered so far went out with stream index 0
    and ends after it starts, the same holds after any call: [ParseCue]
    never hands over a cue whose end is not after its start. *)
Theorem samples_end_after_they_start p ok p' :
  Forall sound_event (delivered p) ->
  Parse p = Returns (ok, p') ->
  Forall sound_event (delivered p').
Proof.
  apply (Parse_keeps (fun x => Forall sound_event (delivered x))).
  - intros x r Hx. exact Hx.
  - intros x Hx. exact Hx.
  - intros x block ok1 x' Hx E. apply ParseBlock_new_events in E.
    destruct E as (description & samples & -> & Hdesc & Hsamples & _).
    apply Forall_app. split; [assumption|]. apply Forall_app. split.
    + destruct Hdesc as [-> | (_ & _ & ->)]; repeat constructor.
    + destruct Hsamples as [-> | (sample & -> & _ & Hlt & _)];
        repeat constructor. assumption.
Qed.

(** X5.  If no sample delivered so far has the arrow in its identifier,
    none has after any call: the identifier is the empty string or a first
    line that passed [MaybeCueId]. *)
Theorem sample_ids_hold_no_arrow p ok p' :
  Forall plain_id_event (delivered p) ->
  Parse p = Returns (ok, p') ->
  Forall plain_id_event (delivered p').
Proof.
  apply (Parse_keeps (fun x => Forall plain_id_event (delivered x))).
  - intros x r Hx. exact Hx.
  - intros x Hx. exact Hx.
  - intros x block ok1 x' Hx E. apply ParseBlock_new_events in E.
    destruct E as (description & samples & -> & Hdesc & Hsamples & _).
    apply Forall_app. split; [assumption|]. apply Forall_app. split.
    + destruct Hdesc as [-> | (_ & _ & ->)]; repeat constructor.
    + destruct Hsamples as [-> | (sample & -> & _ & _ & Hid)];
        repeat constructor. assumption.
Qed.

(** What a block does to the flags and the config. *)
Lemma ParseBlock_changes p block ok p' :
  ParseBlock p block = Returns (ok, p') ->
  same_setup p p' /\
  stays (saw_cue_ p) (saw_cue_ p') /\
  stays (stream_info_dispatched_ p) (stream_info_dispatched_ p') /\
  (style_region_config_ p' = style_region_config_ p \/
   (saw_cue_ p = false /\
    style_region_config_ p' = UpdateConfig block (style_region_config_ p))).
Proof.
  intros E. split; [exact (ParseBlock_frame _ _ _ _ E)|].
  unfold stays. destruct block as [|block0 rest]; [discriminate|]. revert E.
  destruct (block_cases block0 rest)
    as [Hn | [[Hn Hc] | [(Hn & Hs & Hr & ident & lines & Hq) | (Hn & Hs & Hr & Hq)]]].
  - rewrite ParseBlock_note by assumption. intros H; inversion H; subst.
    repeat split; auto.
  - rewrite ParseBlock_config by assumption. intros H; inversion H; subst.
    destruct (saw_cue_ p) eqn:Hsaw; simpl.
    + rewrite Hsaw. auto.
    + split; [discriminate|]. split; [auto|]. right. auto.
  - rewrite (ParseBlock_cue _ _ _ _ Hq).
    destruct (cue_candidate_lines _ _ _ Hq) as (line & body & -> & _).
    destruct (ParseCue p ident (line :: body)) as [[okc pc]|f] eqn:E; [|discriminate].
    cbn [bind]. intros H; inversion H; subst. clear H.
    destruct (ParseCue_frame _ _ _ _ _ E) as (_ & Hsaw & Hcfg).
    destruct (announced_flags p) as (_ & _ & Hd).
    assert (Hdis : stream_info_dispatched_ p = true ->
                   stream_info_dispatched_ pc = true).
    { apply ParseCue_new_events in E.
      destruct E as [-> | [-> | (sample & -> & _)]]; auto. }
    destruct ok; simpl; rewrite ?Hsaw, ?Hcfg; repeat split; auto.
  - rewrite ParseBlock_unclassified by assumption. intros H; inversion H; subst.
    repeat split; auto.
Qed.

(** X6.  No call takes back a flag: [initialized_], [saw_cue_] and
    [stream_info_dispatched_], once true, are true after every later call;
    and no call touches the two callbacks. *)
Theorem flags_are_never_reset p ok p' :
  Parse p = Returns (ok, p') ->
  stays (initialized_ p) (initialized_ p') /\
  stays (saw_cue_ p) (saw_cue_ p') /\
  stays (stream_info_dispatched_ p) (stream_info_dispatched_ p') /\
  init_cb_ p' = init_cb_ p /\
  new_text_sample_cb_ p' = new_text_sample_cb_ p.
Proof.
  apply (Parse_keeps (fun x =>
           stays (initialized_ p) (initialized_ x) /\
           stays (saw_cue_ p) (saw_cue_ x) /\
           stays (stream_info_dispatched_ p) (stream_info_dispatched_ x) /\
           init_cb_ x = init_cb_ p /\
           new_text_sample_cb_ x = new_text_sample_cb_ p)).
  - intros x r Hx. exact Hx.
  - intros x (_ & Hx). split; [intros _; reflexivity|exact Hx].
  - intros x block ok1 x' (Hi & Hs & Hd & Hc1 & Hc2) E.
    apply ParseBlock_changes in E.
    destruct E as ([Hcb1 Hcb2 _ Hinit] & Hs' & Hd' & _).
    unfold stays in *. simpl in *. split; [|split; [|split; [|split]]].
    + intros H. rewrite Hinit. auto.
    + auto.
    + auto.
    + congruence.
    + congruence.
  - unfold stays. auto.
Qed.

Lemma UpdateConfig_extends block config :
  exists more, UpdateConfig block config = config ++ more.
Proof.
  unfold UpdateConfig. destruct (negb (is_empty config)).
  - eexists. now rewrite !append_assoc.
  - eexists. reflexivity.
Qed.

(** X7.  The config only grows: after any call the config of before is
    the beginning of the config, and once [saw_cue_] is set no call
    changes the config at all. *)
Theorem config_only_grows p ok p' :
  Parse p = Returns (ok, p') ->
  (exists more, style_region_config_ p' = style_region_config_ p ++ more) /\
  (saw_cue_ p = true -> style_region_config_ p' = style_region_config_ p).
Proof.
  intros H.
  cut ((exists more, style_region_config_ p' = style_region_config_ p ++ more) /\
       (saw_cue_ p = true ->
        saw_cue_ p' = true /\ style_region_config_ p' = style_region_config_ p)).
  { intros [H1 H2]. split; [exact H1|]. intros Hs. now apply H2. }
  revert H.
  apply (Parse_keeps (fun x =>
           (exists more, style_region_config_ x = style_region_config_ p ++ more) /\
           (saw_cue_ p = true ->
            saw_cue_ x = true /\ style_region_config_ x = style_region_config_ p))).
  - intros x r Hx. exact Hx.
  - intros x Hx. exact Hx.
  - intros x block ok1 x' [[more Hmore] Hfrozen] E.
    apply ParseBlock_changes in E. destruct E as (_ & Hs & _ & Hcfg).
    split.
    + destruct Hcfg as [-> | (_ & ->)]; [eauto|].
      destruct (UpdateConfig_extends block (style_region_config_ x)) as [more' ->].
      exists (more ++ more'). now rewrite Hmore, append_assoc.
    + intros Hp. destruct (Hfrozen Hp) as [Hx Hc]. split; [now apply Hs|].
      destruct Hcfg as [-> | (Habs & _)]; [assumption|congruence].
  - split; [exists ""; now rewrite append_nil_r|auto].
Qed.

Lemma Parse_drains p p' :
  Parse p = Returns (true, p') -> BlockReader.Next (reader_ p') = None.
Proof.
  unfold Parse. destruct (initialized_ p); cbn [negb].
  - intros H. apply Parse_loop_run in H. destruct H as (_ & _ & _ & H). exact H.
  - destruct (BlockReader.Next (reader_ p)) as [[block r]|] eqn:E.
    + destruct (negb (List.length block =? 1)%nat); [discriminate|].
      destruct (at_ block 0) as [block0|e]; [|discriminate]. cbn [bind].
      destruct (_ && _); [discriminate|].
      intros H. apply Parse_loop_run in H. destruct H as (_ & _ & _ & H). exact H.
    + intros H; inversion H; subst. exact E.
Qed.

Lemma reader_eta r :
  BlockReader.mk (BlockReader.buffer r) (BlockReader.flushed r) = r.
Proof. now destruct r. Qed.

(** X8.  A call that returned true has taken every block the reader had:
    the same call again, with no new data, returns true and leaves the
    parser object as it is.  So does [Parse(buf, 0)], and so does a second
    [Flush] after a [Flush]. *)
Theorem a_call_without_new_data_does_nothing p p' :
  Parse p = Returns (true, p') ->
  BlockReader.Next (reader_ p') = None
  /\ Parse p' = Returns (true, p')
  /\ Parse_buf p' "" = Returns (true, p')
  /\ (BlockReader.flushed (reader_ p) = true -> Flush p' = Returns (true, p')).
Proof.
  intros H. pose proof (Parse_drains _ _ H) as Hnone.
  pose proof (Parse_nothing_to_read _ Hnone) as Hagain.
  split; [exact Hnone|]. split; [exact Hagain|]. split.
  - unfold Parse_buf, BlockReader.PushData.
    rewrite append_nil_r, reader_eta, set_reader_same. exact Hagain.
  - intros Hf. apply Parse_flushed in H. destruct H as [H _].
    assert (Hr : BlockReader.mk (BlockReader.buffer (reader_ p')) true = reader_ p').
    { rewrite <- Hf, <- H. apply reader_eta. }
    unfold Flush, BlockReader.Flush. rewrite Hr, set_reader_same. exact Hagain.
Qed.

(* ================================================================== *)
(** ** The tests on the first line *)

Lemma trim_trailing_rest s :
  exists w, s = trim_trailing s ++ w /\ whitespace_only w.
Proof.
  induction s as [|c r (w & Hr & Hw)].
  - exists "". split; [reflexivity|constructor].
  - cbn [trim_trailing]. destruct (is_empty (trim_trailing r)) eqn:He.
    + apply is_empty_true in He. rewrite He in Hr. simpl in Hr. subst w.
      destruct (IsAsciiWhitespace c) eqn:Hc; cbn [andb].
      * exists (String c r). split; [reflexivity|]. constructor; assumption.
      * exists r. rewrite He. split; [reflexivity|assumption].
    + cbn [andb]. exists w. simpl. now rewrite <- Hr.
Qed.

Lemma no_arrow_without_dash s :
  Forall (fun c => c <> "-"%char) (list_ascii_of_string s) ->
  contains s "-->" = false.
Proof.
  unfold contains. induction s as [|c r IH]; [reflexivity|].
  intros H. inversion H as [|? ? Hc Hr]; subst. specialize (IH Hr).
  cbn [index prefix]. destruct (ascii_dec "-" c) as [E|_]; [now subst|].
  now destruct (index 0 "-->" r).
Qed.

Lemma list_ascii_app a b :
  list_ascii_of_string (a ++ b) = (list_ascii_of_string a ++ list_ascii_of_string b)%list.
Proof. induction a as [|c a IH]; simpl; [reflexivity|now rewrite IH]. Qed.

Lemma whitespace_no_dash w :
  whitespace_only w -> Forall (fun c => c <> "-"%char) (list_ascii_of_string w).
Proof.
  unfold whitespace_only. apply Forall_impl. intros c Hc ->. discriminate.
Qed.

(** X9.  A line that passes the style test or the region test passes no
    other test of [ParseBlock]: it is no note line, it holds no arrow (so
    it is a possible identifier and no timing line), and it does not pass
    both tests.  Of the five rules only the note rule can take a block
    away from another rule. *)
Theorem style_and_region_lines_pass_one_test line :
  IsLikelyStyle line = true \/ IsLikelyRegion line = true ->
  IsLikelyNote line = false
  /\ IsLikelyCueTiming line = false
  /\ MaybeCueId line = true
  /\ (IsLikelyStyle line = true -> IsLikelyRegion line = false).
Proof.
  intros H. destruct (trim_trailing_rest line) as (w & Hline & Hw).
  assert (Hdash : forall token,
            trim_trailing line = token ->
            Forall (fun c => c <> "-"%char) (list_ascii_of_string token) ->
            IsLikelyCueTiming line = false).
  { intros token Ht Hf. unfold IsLikelyCueTiming. apply no_arrow_without_dash.
    rewrite Hline, Ht, list_ascii_app. apply Forall_app. split; [assumption|].
    now apply whitespace_no_dash. }
  assert (Hcases : trim_trailing line = "STYLE" \/ trim_trailing line = "REGION").
  { unfold IsLikelyStyle, IsLikelyRegion, TrimWhitespaceASCII in H.
    destruct H as [H | H]; apply String.eqb_eq in H; auto. }
  assert (Htiming : IsLikelyCueTiming line = false).
  { destruct Hcases as [Ht | Ht]; apply (Hdash _ Ht);
      repeat constructor; discriminate. }
  split; [|split; [exact Htiming|split]].
  - rewrite Hline. destruct Hcases as [-> | ->]; reflexivity.
  - unfold MaybeCueId. unfold IsLikelyCueTiming in Htiming. now rewrite Htiming.
  - unfold IsLikelyStyle, IsLikelyRegion, TrimWhitespaceASCII.
    intros Hs. apply String.eqb_eq in Hs. now rewrite Hs.
Qed.

(* ================================================================== *)
(** ** [Init], once *)

(** X10.  [Init] binds the two callbacks and changes nothing else of the
    parser.  In a build with assertions a returning [Init] has taken no
    key source and leaves both callbacks bound, and [Init] again on the
    same parser stops at its first assertion, whatever it is given. *)
Theorem Init_binds_the_callbacks_once dcheck p init_cb media_cb text_cb key p' :
  Init dcheck p init_cb media_cb text_cb key = Returns p' ->
  p' = set_callbacks p init_cb text_cb
  /\ (dcheck = true ->
      wired p' /\ key = None /\
      forall init_cb2 media_cb2 text_cb2 key2,
        Init true p' init_cb2 media_cb2 text_cb2 key2
        = Crashes (CheckFailed "init_cb_.is_null()")).
Proof.
  unfold Init, DCHECK, wired. destruct dcheck; cbn [andb].
  - destruct (is_null (init_cb_ p)); cbn [negb bind]; [|discriminate].
    destruct (is_null init_cb) eqn:H1; cbn [negb bind]; [discriminate|].
    destruct (is_null text_cb) eqn:H2; cbn [negb bind]; [discriminate|].
    destruct key; cbn [negb bind]; [discriminate|].
    intros H; inversion H; subst. split; [reflexivity|]. intros _.
    split; [split; assumption|]. split; [reflexivity|].
    intros i2 m2 t2 k2. simpl. now rewrite H1.
  - cbn [bind]. intros H; inversion H; subst. split; [reflexivity|discriminate].
Qed.

(* ================================================================== *)
(** ** The text of a block in a log message *)

Lemma BlockToString_loop_in_range block : forall remaining i out,
  (i + remaining <= List.length block)%nat ->
  BlockToString_loop block i remaining out
  = Returns (out ++ indented (firstn remaining (skipn i block))).
Proof.
  induction remaining as [|n IH]; intros i out Hlen.
  - cbn [BlockToString_loop firstn indented fold_right]. now rewrite append_nil_r.
  - cbn [BlockToString_loop]. unfold at_.
    destruct (nth_error block i) as [line|] eqn:E.
    + cbn [bind]. rewrite IH by lia.
      assert (Hskip : skipn i block = line :: skipn (S i) block).
      { clear -E. revert block E. induction i as [|i IHi]; intros [|x l] E;
          try discriminate; simpl in *; [congruence|now apply IHi]. }
      rewrite Hskip. cbn [firstn indented fold_right].
      fold (indented (firstn n (skipn (S i) block))).
      now rewrite !append_assoc.
    + apply nth_error_None in E. lia.
Qed.

Lemma BlockToString_loop_out_of_range block : forall remaining i out,
  (List.length block < i + remaining)%nat -> (i <= List.length block)%nat ->
  BlockToString_loop block i remaining out = Crashes OutOfRange.
Proof.
  induction remaining as [|n IH]; intros i out Hlen Hi; [lia|].
  cbn [BlockToString_loop]. unfold at_.
  destruct (nth_error block i) as [line|] eqn:E; [|reflexivity].
  cbn [bind]. apply IH; [lia|].
  assert (i < List.length block)%nat by (apply nth_error_Some; congruence). lia.
Qed.

Lemma append_cancel_r a : forall b c, a ++ c = b ++ c -> a = b.
Proof.
  induction a as [|x a IH]; intros [|y b] c H; simpl in H.
  - reflexivity.
  - exfalso. apply (f_equal String.length) in H. simpl in H.
    rewrite length_append in H. lia.
  - exfalso. apply (f_equal String.length) in H. simpl in H.
    rewrite length_append in H. lia.
  - inversion H; subst. f_equal. eapply IH; eassumption.
Qed.

Lemma append_cancel_l a b c : a ++ b = a ++ c -> b = c.
Proof. induction a as [|x a IH]; simpl; intros H; [assumption|]. inversion H; auto. Qed.

Lemma first_line_unique l1 : forall l2 r1 r2,
  one_line l1 -> one_line l2 ->
  l1 ++ newline ++ r1 = l2 ++ newline ++ r2 -> l1 = l2 /\ r1 = r2.
Proof.
  unfold one_line. induction l1 as [|c l1 IH]; intros [|d l2] r1 r2 H1 H2 H;
    simpl in *.
  - inversion H; auto.
  - inversion H; subst. inversion H2; subst. congruence.
  - inversion H; subst. inversion H1; subst. congruence.
  - inversion H; subst. inversion H1; inversion H2; subst.
    destruct (IH l2 r1 r2) as [-> ->]; auto.
Qed.

Lemma indented_unique b1 : forall b2,
  Forall one_line b1 -> Forall one_line b2 ->
  indented b1 = indented b2 -> b1 = b2.
Proof.
  induction b1 as [|l1 b1 IH]; intros [|l2 b2] H1 H2 H; try discriminate.
  - reflexivity.
  - inversion H1 as [|? ? Hl1 Hb1]; inversion H2 as [|? ? Hl2 Hb2]; subst.
    cbn [indented fold_right] in H. apply append_cancel_l in H.
    destruct (first_line_unique _ _ _ _ Hl1 Hl2 H) as [-> Hr].
    f_equal. now apply IH.
Qed.

(** X11.  [BlockToString] reads [size] lines: it comes back with the
    start mark, each of the first [size] lines behind four spaces and
    ended by a line feed, and the end mark when the block has that many
    lines, and reads out of range when it has fewer.  On whole blocks
    whose lines hold no line feed, as the reader hands them out, two
    blocks with the same text are the same block. *)
Theorem BlockToString_shows_the_block block size :
  ((size <= List.length block)%nat ->
   BlockToString block size
   = Returns (" --- BLOCK START ---" ++ newline
              ++ indented (firstn size block) ++ " --- BLOCK END ---"))
  /\ ((List.length block < size)%nat ->
      BlockToString block size = Crashes OutOfRange)
  /\ (forall other,
        Forall one_line block -> Forall one_line other ->
        BlockToString block (List.length block)
        = BlockToString other (List.length other) ->
        block = other).
Proof.
  assert (Hin : forall b n, (n <= List.length b)%nat ->
            BlockToString b n
            = Returns (" --- BLOCK START ---" ++ newline
                       ++ indented (firstn n b) ++ " --- BLOCK END ---")).
  { intros b n Hn. unfold BlockToString.
    rewrite BlockToString_loop_in_range by (simpl; lia).
    cbn [bind skipn]. now rewrite !append_assoc. }
  split; [apply Hin|]. split.
  - intros Hlen. unfold BlockToString.
    rewrite BlockToString_loop_out_of_range by (simpl; lia). reflexivity.
  - intros other H1 H2. rewrite !Hin, !firstn_all by lia.
    intros H. inversion H as [H']. apply append_cancel_r in H'.
    now apply indented_unique.
Qed.

(* ================================================================== *)
(** ** After a refused sample *)

Lemma append_grows a b : b <> "" -> a ++ b <> a.
Proof.
  intros Hb H. apply (f_equal String.length) in H. rewrite length_append in H.
  destruct b; [congruence|]. simpl in H. lia.
Qed.

Lemma UpdateConfig_changes block config :
  is_config_block block = true -> UpdateConfig block config <> config.
Proof.
  intros Hb. pose proof (config_block_nonblank _ Hb) as Hn.
  unfold UpdateConfig. destruct (negb (is_empty config)).
  - rewrite !append_assoc. apply append_grows. discriminate.
  - now apply append_grows.
Qed.

(** X12.  When the sample callback refuses the first cue, [ParseBlock]
    returns false with the stream description already sent and
    [saw_cue_] still unset.  If the caller goes on all the same, a style
    or region block is added to the config, so that the description that
    was sent, and is never sent again, no longer carries the config of
    the parser. *)
Theorem refused_cue_leaves_the_config_open
    p cue ident line body start_ end_ accept late :
  is_null (init_cb_ p) = false ->
  new_text_sample_cb_ p = bound accept ->
  saw_cue_ p = false ->
  stream_info_dispatched_ p = false ->
  cue_candidate cue = Some (ident, line :: body) ->
  Forall nonblank body ->
  parsed_time (timing_tokens line) = Some (start_, end_) ->
  start_ < end_ ->
  accept (delivered (announced p)) kStreamIndex
    (cue_sample ident (timing_tokens line) start_ end_ body) = false ->
  is_config_block late = true ->
  exists p1 p2,
    ParseBlock p cue = Returns (false, p1)
    /\ stream_info_dispatched_ p1 = true
    /\ saw_cue_ p1 = false
    /\ ParseBlock p1 late = Returns (true, p2)
    /\ style_region_config_ p2 = UpdateConfig late (style_region_config_ p)
    /\ style_region_config_ p2 <> style_region_config_ p
    /\ stream_events (delivered p2)
       = (stream_events (delivered p)
          ++ [StreamsReady [stream_info (style_region_config_ p)]])%list
    /\ stream_info_dispatched_ p2 = true.
Proof.
  intros Hcb Hs Hsaw Hd Hq Hbody Ht Hlt Hno Hlate.
  pose proof (ParseCue_sample p ident line body start_ end_ accept
                Hcb Hs Hbody Ht Hlt) as Hcue.
  cbv zeta in Hcue. rewrite Hno in Hcue.
  set (p1 := deliver (announced p)
               (NewTextSample kStreamIndex
                  (cue_sample ident (timing_tokens line) start_ end_ body))) in *.
  destruct (announced_flags p) as (Hsaw1 & Hcfg1 & Hd1).
  assert (Hlate' : exists block0 rest, late = block0 :: rest /\
            IsLikelyNote block0 = false /\
            IsLikelyStyle block0 || IsLikelyRegion block0 = true).
  { destruct late as [|block0 rest]; [discriminate|]. unfold is_config_block in Hlate.
    cbn [nth] in Hlate. apply andb_true_iff in Hlate. destruct Hlate as [Hn Hc].
    apply negb_true_iff in Hn. eauto. }
  destruct Hlate' as (block0 & rest & Heq & Hn & Hc).
  exists p1, (set_style_region_config p1 (UpdateConfig late (style_region_config_ p1))).
  assert (Hcfg : style_region_config_ p1 = style_region_config_ p) by exact Hcfg1.
  repeat split.
  - now rewrite (ParseBlock_cue _ _ _ _ Hq), Hcue.
  - exact Hd1.
  - unfold p1. simpl. congruence.
  - rewrite Heq, ParseBlock_config by assumption.
    replace (saw_cue_ p1) with false by (unfold p1; simpl; congruence).
    reflexivity.
  - cbn [style_region_config_ set_style_region_config]. now rewrite Hcfg.
  - cbn [style_region_config_ set_style_region_config]. rewrite Hcfg.
    now apply UpdateConfig_changes.
  - cbn [delivered set_style_region_config]. unfold p1. cbn [delivered deliver].
    rewrite stream_events_app, announced_delivered, Hd, stream_events_app.
    simpl. now rewrite app_nil_r.
  - exact Hd1.
Qed.

(* ================================================================== *)
(** ** The properties above, on the documents of the tests *)

(** One cue block on a parser that has sent nothing yet. *)
Lemma block_delivers_at_most_one_sample_witness :
  exists description samples,
    delivered (left_by (ParseBlock (ready_parser accept_all)
                          ["00:01:00.000 --> 01:00:00.000"; "subtitle"]))
    = (delivered (ready_parser accept_all) ++ description ++ samples)%list.
Proof.
  assert (H : ParseBlock (ready_parser accept_all)
                ["00:01:00.000 --> 01:00:00.000"; "subtitle"]
              = Returns (true, left_by (ParseBlock (ready_parser accept_all)
                                ["00:01:00.000 --> 01:00:00.000"; "subtitle"])))
    by (vm_compute; reflexivity).
  destruct (block_delivers_at_most_one_sample _ _ _ _ H) as (d & s & E & _).
  exists d, s. exact E.
Defined.

(** The document of the test [ParseOneCue], held by the reader. *)
Lemma description_comes_first_witness :
  description_first
    (left_by (Parse (holding (ready_parser accept_all)
                       (text ["WEBVTT"; ""; "00:01:00.000 --> 01:00:00.000";
                              "subtitle"; ""])))).
Proof.
  apply (description_comes_first
           (holding (ready_parser accept_all)
              (text ["WEBVTT"; ""; "00:01:00.000 --> 01:00:00.000";
                     "subtitle"; ""])) true).
  - left. split; reflexivity.
  - vm_compute; reflexivity.
Defined.

Lemma samples_end_after_they_start_witness :
  Forall sound_event
    (delivered
       (left_by (Parse (holding (ready_parser accept_all)
                          (text ["WEBVTT"; ""; "00:01:00.000 --> 01:00:00.000";
                                 "subtitle"; ""]))))).
Proof.
  apply (samples_end_after_they_start
           (holding (ready_parser accept_all)
              (text ["WEBVTT"; ""; "00:01:00.000 --> 01:00:00.000";
                     "subtitle"; ""])) true).
  - constructor.
  - vm_compute; reflexivity.
Defined.

(** The document of the test [ParseOneCueWithId]. *)
Lemma sample_ids_hold_no_arrow_witness :
  Forall plain_id_event
    (delivered
       (left_by (Parse (holding (ready_parser accept_all)
                          (text ["WEBVTT"; ""; "id";
                                 "00:01:00.000 --> 01:00:00.000";
                                 "subtitle"; ""]))))).
Proof.
  apply (sample_ids_hold_no_arrow
           (holding (ready_parser accept_all)
              (text ["WEBVTT"; ""; "id"; "00:01:00.000 --> 01:00:00.000";
                     "subtitle"; ""])) true).
  - constructor.
  - vm_compute; reflexivity.
Defined.

(** A call that fails on its second block keeps the flags it has set. *)
Lemma flags_are_never_reset_witness :
  stays true
    (initialized_
       (left_by (Parse (holding (set_initialized (ready_parser accept_all) true)
                          (text ["00:01:00.000 --> 01:00:00.000"; "subtitle"; "";
                                 "not a cue"; ""]))))).
Proof.
  assert (H : Parse (holding (set_initialized (ready_parser accept_all) true)
                       (text ["00:01:00.000 --> 01:00:00.000"; "subtitle"; "";
                              "not a cue"; ""]))
              = Returns (false,
                  left_by (Parse (holding (set_initialized (ready_parser accept_all) true)
                             (text ["00:01:00.000 --> 01:00:00.000"; "subtitle"; "";
                                    "not a cue"; ""])))))
    by (vm_compute; reflexivity).
  exact (proj1 (flags_are_never_reset _ _ _ H)).
Defined.

(** A style block after a cue, in one call. *)
Lemma config_only_grows_witness :
  exists more,
    style_region_config_
      (left_by (Parse (holding (ready_parser accept_all)
                         (text ["WEBVTT"; ""; "STYLE"; "::cue { color:lime }"; "";
                                "00:01:00.000 --> 01:00:00.000"; "subtitle"; "";
                                "STYLE"; "::cue { color:red }"; ""]))))
    = style_region_config_ (ready_parser accept_all) ++ more.
Proof.
  assert (H : Parse (holding (ready_parser accept_all)
                       (text ["WEBVTT"; ""; "STYLE"; "::cue { color:lime }"; "";
                              "00:01:00.000 --> 01:00:00.000"; "subtitle"; "";
                              "STYLE"; "::cue { color:red }"; ""]))
              = Returns (true,
                  left_by (Parse (holding (ready_parser accept_all)
                       (text ["WEBVTT"; ""; "STYLE"; "::cue { color:lime }"; "";
                              "00:01:00.000 --> 01:00:00.000"; "subtitle"; "";
                              "STYLE"; "::cue { color:red }"; ""])))))
    by (vm_compute; reflexivity).
  exact (proj1 (config_only_grows _ _ _ H)).
Defined.

(** After the document of [ParseOneCue], whose last line is not ended. *)
Lemma a_call_without_new_data_does_nothing_witness :
  Parse (left_by (Parse (holding (ready_parser accept_all)
                           (text ["WEBVTT"; ""; "00:01:00.000 --> 01:00:00.000"]
                            ++ "subtitle"))))
  = Returns (true,
      left_by (Parse (holding (ready_parser accept_all)
                        (text ["WEBVTT"; ""; "00:01:00.000 --> 01:00:00.000"]
                         ++ "subtitle")))).
Proof.
  assert (H : Parse (holding (ready_parser accept_all)
                       (text ["WEBVTT"; ""; "00:01:00.000 --> 01:00:00.000"]
                        ++ "subtitle"))
              = Returns (true,
                  left_by (Parse (holding (ready_parser accept_all)
                            (text ["WEBVTT"; ""; "00:01:00.000 --> 01:00:00.000"]
                             ++ "subtitle")))))
    by (vm_compute; reflexivity).
  exact (proj1 (proj2 (a_call_without_new_data_does_nothing _ _ H))).
Defined.

Lemma style_and_region_lines_pass_one_test_witness :
  IsLikelyNote "REGION" = false /\ IsLikelyCueTiming "REGION" = false /\
  MaybeCueId "REGION" = true.
Proof.
  destruct (style_and_region_lines_pass_one_test "REGION"
              (or_intror eq_refl)) as (H1 & H2 & H3 & _).
  repeat split; assumption.
Defined.

(** [Init] as the test fixture calls it, and a second [Init] after it. *)
Lemma Init_binds_the_callbacks_once_witness :
  wired (ready_parser accept_all) /\
  forall init_cb media_cb text_cb key,
    Init true (ready_parser accept_all) init_cb media_cb text_cb key
    = Crashes (CheckFailed "init_cb_.is_null()").
Proof.
  destruct (Init_binds_the_callbacks_once true new_parser on_streams
              null_callback accept_all None (ready_parser accept_all) eq_refl)
    as [_ H].
  destruct (H eq_refl) as (Hw & _ & Hi). split; [exact Hw | exact Hi].
Defined.

(** A cue the sample callback refuses, then a style block. *)
Lemma refused_cue_leaves_the_config_open_witness :
  exists p1 p2,
    ParseBlock (ready_parser reject_all)
      ["00:01:00.000 --> 01:00:00.000"; "subtitle"] = Returns (false, p1)
    /\ stream_info_dispatched_ p1 = true
    /\ saw_cue_ p1 = false
    /\ ParseBlock p1 ["STYLE"; "::cue { color:lime }"] = Returns (true, p2)
    /\ style_region_config_ p2 <> style_region_config_ (ready_parser reject_all).
Proof.
  assert (Hb : Forall nonblank ["subtitle"]) by (repeat constructor; discriminate).
  assert (Ht : 60000 < 3600000) by reflexivity.
  destruct (refused_cue_leaves_the_config_open (ready_parser reject_all)
              ["00:01:00.000 --> 01:00:00.000"; "subtitle"] ""
              "00:01:00.000 --> 01:00:00.000" ["subtitle"] 60000 3600000
              (fun _ _ _ => false) ["STYLE"; "::cue { color:lime }"]
              eq_refl eq_refl eq_refl eq_refl eq_refl Hb eq_refl Ht eq_refl eq_refl)
    as (p1 & p2 & H1 & H2 & H3 & H4 & _ & H6 & _).
  exists p1, p2. repeat split; assumption.
Defined.

(* ================================================================== *)
(** ** The HTTP file *)

Section HttpFileProperties.
Import HttpFile.

Lemma set_since_app (before added : CURL) :
  set_since before (before ++ added)%list = added.
Proof.
  unfold set_since. induction before as [|x before IH]; [reflexivity|].
  simpl. exact IH.
Qed.

Lemma effective_app curl added opt :
  effective (curl ++ added)%list opt =
  match effective added opt with
  | Some v => Some v
  | None => effective curl opt
  end.
Proof.
  unfold effective. rewrite fold_left_app.
  generalize (fold_left
    (fun found setting =>
       if CURLoption_eq_dec (fst setting) opt then Some (snd setting) else found)
    curl None).
  induction added as [|x added IH] using rev_ind; intros o; [reflexivity|].
  rewrite !fold_left_app. simpl.
  destruct (CURLoption_eq_dec (fst x) opt); [reflexivity|]. apply IH.
Qed.

Lemma is_empty_iff s : is_empty s = true <-> s = "".
Proof. destruct s; simpl; split; congruence. Qed.

Lemma not_empty_iff s : negb (is_empty s) = true <-> s <> "".
Proof. destruct s; simpl; split; congruence. Qed.

(** The options [SetupRequestBase] sets, in order. *)
Lemma SetupRequestBase_sets flags f m :
  curl_ (SetupRequestBase flags f m) =
  (curl_ f ++
   [match m with
    | GET => (CURLOPT_HTTPGET, number 1)
    | POST => (CURLOPT_POST, number 1)
    | PUT => (CURLOPT_PUT, number 1)
    | PATCH => (CURLOPT_CUSTOMREQUEST, chars "PATCH")
    | DELETE => (CURLOPT_CUSTOMREQUEST, chars "DELETE")
    end;
    (CURLOPT_URL, chars (resource_url_ f));
    (CURLOPT_USERAGENT,
     chars (if is_empty (user_agent_ f) then kUserAgentString else user_agent_ f));
    (CURLOPT_TIMEOUT, number (timeout_in_seconds_ f));
    (CURLOPT_FAILONERROR, number 1);
    (CURLOPT_FOLLOWLOCATION, number 1);
    (CURLOPT_WRITEFUNCTION, AppendToString_callback);
    (CURLOPT_WRITEDATA, response_address)] ++
   (if negb (is_empty (cert_private_key_file_ f)) && negb (is_empty (cert_file_ f))
    then
      [(CURLOPT_SSLKEY, chars (cert_private_key_file_ f))] ++
      (if negb (is_empty (cert_private_key_pass_ f))
       then [(CURLOPT_KEYPASSWD, chars (cert_private_key_pass_ f))] else []) ++
      [(CURLOPT_SSLKEYTYPE, chars "PEM");
       (CURLOPT_SSLCERTTYPE, chars "PEM");
       (CURLOPT_SSLCERT, chars (cert_file_ f))]
    else []) ++
   (if negb (is_empty (ca_file_ f))
    then [(CURLOPT_SSL_VERIFYHOST, number 0); (CURLOPT_CAINFO, chars (ca_file_ f))]
    else []) ++
   [(CURLOPT_VERBOSE,
     number (int32_read_as_long (FLAGS_libcurl_verbosity flags)))])%list.
Proof.
  unfold SetupRequestBase, curl_easy_setopt.
  cbn [curl_ set_curl set_response_body user_agent_ timeout_in_seconds_
       resource_url_ cert_private_key_file_ cert_file_ cert_private_key_pass_
       ca_file_].
  destruct (negb (is_empty (cert_private_key_file_ f)) && negb (is_empty (cert_file_ f)));
    destruct (negb (is_empty (cert_private_key_pass_ f)));
    destruct (negb (is_empty (ca_file_ f)));
    destruct (is_empty (user_agent_ f));
    destruct m; cbn [app]; repeat rewrite <- app_assoc; reflexivity.
Qed.

(** What [SetupRequestBase] leaves as it was. *)
Lemma SetupRequestBase_frame flags f m :
  let f' := SetupRequestBase flags f m in
  resource_url_ f' = resource_url_ f /\ user_headers_ f' = user_headers_ f /\
  response_body_ f' = "" /\ task_exit_event_ f' = task_exit_event_ f /\
  timeout_in_seconds_ f' = timeout_in_seconds_ f.
Proof. repeat split. Qed.

Lemma fold_curl_slist_append l : forall headers,
  fold_left curl_slist_append l headers = (headers ++ l)%list.
Proof.
  induction l as [|x l IH]; intros headers; simpl.
  - now rewrite app_nil_r.
  - rewrite IH. unfold curl_slist_append. now rewrite <- app_assoc.
Qed.

(** The options [SetupRequestData] sets, in order. *)
Lemma SetupRequestData_sets f m :
  curl_ (SetupRequestData f m) =
  (curl_ f ++
   (if sends_body m
    then [(CURLOPT_READFUNCTION, read_callback_callback);
          (CURLOPT_READDATA, cache_address);
          (CURLOPT_UPLOAD, number 1)]
    else []) ++
   [(CURLOPT_HTTPHEADER, slist (request_headers f m))])%list.
Proof.
  unfold SetupRequestData, curl_easy_setopt. cbn [curl_ set_curl].
  destruct m; cbn [sends_body app]; repeat rewrite <- app_assoc; reflexivity.
Qed.

Lemma request_headers_eq f m :
  request_headers f m =
  ("Expect:" ::
   SplitString (user_headers_ f) newline KEEP_WHITESPACE SPLIT_WANT_NONEMPTY ++
   (if sends_body m
    then ["Content-Type: application/octet-stream"; "Transfer-Encoding: chunked"]
    else []))%list.
Proof.
  unfold request_headers. rewrite fold_curl_slist_append.
  unfold curl_slist_append.
  destruct m; cbn [sends_body app]; repeat rewrite <- app_assoc;
    try rewrite app_nil_r; reflexivity.
Qed.

(** No piece of a split holds a separator. *)
Lemma split_where_clean f s :
  Forall (fun p => Forall (fun c => f c = false) (list_ascii_of_string p))
    (split_where f s).
Proof.
  induction s as [|c r IH]; simpl.
  - repeat constructor.
  - destruct (f c) eqn:E.
    + constructor; [constructor | exact IH].
    + destruct (split_where f r) as [|p ps].
      * repeat constructor. exact E.
      * inversion IH; subst. constructor; [|assumption].
        simpl. constructor; assumption.
Qed.

Lemma user_headers_are_lines input :
  Forall (fun h => nonblank h /\ one_line h)
    (SplitString input newline KEEP_WHITESPACE SPLIT_WANT_NONEMPTY).
Proof.
  pose proof (SplitString_nonblank input newline KEEP_WHITESPACE) as Hn.
  unfold SplitString in *. destruct (is_empty input); [constructor|].
  rewrite Forall_forall in *. intros h Hh. split; [now apply Hn|].
  apply filter_In in Hh. destruct Hh as [Hh _].
  pose proof (split_where_clean (is_separator newline) input) as Hc.
  rewrite Forall_forall in Hc. specialize (Hc h Hh).
  unfold one_line. eapply Forall_impl; [|exact Hc].
  intros c Hsep ->. vm_compute in Hsep. discriminate.
Qed.

(** X13. A failed request says which method failed: the texts of the
    five methods differ from each other and from UNKNOWN, and the error
    message of a request, whatever the address, the reason and the
    response code in it, is the message of no other method. *)
Theorem failed_request_names_its_method :
  (forall m, method_as_text m <> "UNKNOWN") /\
  (forall m m', method_as_text m = method_as_text m' -> m = m') /\
  (forall f f' m m' transfer transfer',
     request_error_message f m transfer = request_error_message f' m' transfer' ->
     m = m').
Proof.
  split; [|split].
  - intros m; destruct m; discriminate.
  - intros m m'; destruct m, m'; simpl; congruence.
  - intros f f' m m' tr tr'. unfold request_error_message.
    destruct (result tr =? CURLE_HTTP_RETURNED_ERROR),
             (result tr' =? CURLE_HTTP_RETURNED_ERROR);
      destruct m, m'; simpl; intros H; try reflexivity; discriminate H.
Qed.

(** X14. The address of a file tells its name and its scheme: two files
    with the same address were made with the same name and the same
    scheme, and the constructor without a scheme makes an http address. *)
Theorem resource_url_tells_name_and_scheme flags flags' curl curl'
    name name' mode mode' https https' f f' :
  new flags curl name mode https = Some f ->
  new flags' curl' name' mode' https' = Some f' ->
  resource_url_ f = resource_url_ f' ->
  name = name' /\ https = https' /\
  (new_http flags curl name mode = Some f <-> https = false).
Proof.
  unfold new_http, new. destruct curl as [c|]; [|discriminate].
  destruct curl' as [c'|]; [|discriminate].
  intros H H'. inversion H; inversion H'; subst; clear H H'.
  cbn [resource_url_]. intros E.
  assert (Hs : https = https').
  { destruct https, https'; simpl in E; try reflexivity; discriminate E. }
  subst https'. split; [|split; [reflexivity|]].
  - destruct https; simpl in E; inversion E; reflexivity.
  - destruct https; split; intros H; try reflexivity; discriminate H.
Qed.

Lemma substring_all s : substring 0 (String.length s) s = s.
Proof. induction s as [|c s IH]; simpl; [reflexivity|]. now rewrite IH. Qed.

Lemma length_substring_0 n : forall s,
  (n <= String.length s)%nat -> String.length (substring 0 n s) = n.
Proof.
  induction n as [|n IH]; intros s H; destruct s as [|c s]; simpl in *;
    try reflexivity; try lia.
  rewrite IH; [reflexivity | lia].
Qed.

Lemma whole_piece piece response :
  Z.of_nat (String.length piece) < 2 ^ 64 ->
  AppendToString piece 1 (Z.of_nat (String.length piece)) response =
  (Z.of_nat (String.length piece), response ++ piece).
Proof.
  intros H. unfold AppendToString, wrap64.
  rewrite Z.mul_1_l, Z.mod_small by lia.
  now rewrite Nat2Z.id, substring_all.
Qed.

Lemma concat_nil_app a l : a ++ concat "" l = concat "" (a :: l).
Proof.
  destruct l as [|b l]; simpl; [apply append_nil_r | reflexivity].
Qed.

Lemma concat_nil_cons a l : concat "" (a :: l) = a ++ concat "" l.
Proof. symmetry. apply concat_nil_app. Qed.

(** The write callback, run on the pieces of a response. *)
Lemma collect_pieces pieces : forall f,
  let f' :=
    fold_left
      (fun f piece =>
         set_response_body f
           (snd (AppendToString piece 1 (Z.of_nat (String.length piece))
                   (response_body_ f))))
      pieces f in
  (exists body, f' = set_response_body f body) /\
  (Forall (fun piece => Z.of_nat (String.length piece) < 2 ^ 64) pieces ->
   response_body_ f' = response_body_ f ++ concat "" pieces).
Proof.
  induction pieces as [|piece pieces IH]; intros f; cbn zeta.
  - split.
    + exists (response_body_ f). now destruct f.
    + intros _. simpl. now rewrite append_nil_r.
  - cbn [fold_left]. specialize (IH (set_response_body f
      (snd (AppendToString piece 1 (Z.of_nat (String.length piece))
              (response_body_ f))))).
    cbn zeta in IH. destruct IH as [[body Hb] Hs]. split.
    + exists body. rewrite Hb. reflexivity.
    + intros H. inversion H as [|? ? Hp Hps]; subst.
      rewrite (Hs Hps). cbn [response_body_ set_response_body].
      rewrite (whole_piece _ _ Hp). cbn [snd].
      now rewrite append_assoc, concat_nil_cons.
Qed.

(** [Request], in one piece. *)
Lemma Request_eq flags perform f m :
  exists body,
    let transfer := perform (prepared flags f m) in
    let f' := SetupRequestData (SetupRequestBase flags f m) m in
    Request flags perform f m =
    (if negb (result transfer =? CURLE_OK)
     then mkStatus
            (if result transfer =? CURLE_OPERATION_TIMEDOUT
             then TIME_OUT else HTTP_FAILURE)
            (request_error_message f m transfer)
     else Status_OK,
     Signal (set_response_body f' body)) /\
    (Forall (fun piece => Z.of_nat (String.length piece) < 2 ^ 64)
       (received transfer) ->
     body = concat "" (received transfer)).
Proof.
  unfold Request, prepared.
  set (f' := SetupRequestData (SetupRequestBase flags f m) m).
  set (transfer := perform (curl_ f')).
  destruct (collect_pieces (received transfer) f') as [[body Hb] Hs].
  exists body. cbn zeta. rewrite Hb. split; [reflexivity|].
  intros H. specialize (Hs H). rewrite Hb in Hs.
  cbn [response_body_ set_response_body] in Hs. rewrite Hs. reflexivity.
Qed.

(** X15. The status of a request follows the result of the transfer and
    nothing else: it is OK exactly when the transfer ended with CURLE_OK,
    a time-out exactly when it ended with CURLE_OPERATION_TIMEDOUT, and an
    HTTP failure for every other result; a failure carries the message of
    the method, the address and the reason, and the file's event is
    signaled whatever the result was. *)
Theorem Request_status_follows_the_result flags perform f m :
  let transfer := perform (prepared flags f m) in
  let status := fst (Request flags perform f m) in
  (status = Status_OK <-> result transfer = CURLE_OK) /\
  (error_code status = TIME_OUT <-> result transfer = CURLE_OPERATION_TIMEDOUT) /\
  (error_code status = HTTP_FAILURE <->
   result transfer <> CURLE_OK /\ result transfer <> CURLE_OPERATION_TIMEDOUT) /\
  (result transfer <> CURLE_OK ->
   error_message status = request_error_message f m transfer /\
   error_message status <> "") /\
  task_exit_event_ (snd (Request flags perform f m)) = true.
Proof.
  destruct (Request_eq flags perform f m) as [body [E _]]. cbn zeta in *.
  rewrite E. cbn [fst snd]. clear E.
  set (transfer := perform (prepared flags f m)).
  assert (Hmsg : request_error_message f m transfer <> "").
  { unfold request_error_message.
    destruct (result transfer =? CURLE_HTTP_RETURNED_ERROR), m; discriminate. }
  unfold CURLE_OK, CURLE_OPERATION_TIMEDOUT.
  destruct (result transfer =? 0) eqn:E0; cbn [negb].
  - apply Z.eqb_eq in E0. rewrite E0. cbn [error_code error_message Status_OK].
    intuition (try discriminate; try lia).
  - apply Z.eqb_neq in E0.
    destruct (result transfer =? 28) eqn:E28; cbn [error_code error_message];
      [apply Z.eqb_eq in E28 | apply Z.eqb_neq in E28];
      intuition (try discriminate; try lia).
Qed.

(** X16. The response text of the file after a request is what the
    transfer received, its pieces in order, whatever the text was before
    (each piece shorter than 2^64 bytes, the range of the callback's
    sizes); the request leaves the name, the address and the settings of
    the file alone, and the handle as it was prepared. *)
Theorem Request_collects_the_response flags perform f m :
  Forall (fun piece => Z.of_nat (String.length piece) < 2 ^ 64)
    (received (perform (prepared flags f m))) ->
  let f' := snd (Request flags perform f m) in
  response_body_ f' = concat "" (received (perform (prepared flags f m))) /\
  curl_ f' = prepared flags f m /\
  file_name_ f' = file_name_ f /\ file_mode_ f' = file_mode_ f /\
  resource_url_ f' = resource_url_ f /\ user_agent_ f' = user_agent_ f /\
  user_headers_ f' = user_headers_ f /\ ca_file_ f' = ca_file_ f /\
  cert_file_ f' = cert_file_ f /\
  cert_private_key_file_ f' = cert_private_key_file_ f /\
  cert_private_key_pass_ f' = cert_private_key_pass_ f /\
  timeout_in_seconds_ f' = timeout_in_seconds_ f.
Proof.
  intros H. destruct (Request_eq flags perform f m) as [body [E Hb]].
  cbn zeta in *. rewrite E. cbn [snd]. rewrite (Hb H).
  repeat split.
Qed.

(** X21. The write callback takes all it is given: when the buffer holds
    the [size * nmemb] bytes it is called with, the response grows by
    exactly these bytes, its old text kept in front, and the callback
    returns their number. *)
Theorem AppendToString_takes_all_it_is_given ptr size nmemb response :
  0 <= size * nmemb <= Z.of_nat (String.length ptr) ->
  size * nmemb < 2 ^ 64 ->
  let (taken, response') := AppendToString ptr size nmemb response in
  taken = size * nmemb /\
  (exists bytes, response' = response ++ bytes /\
                 prefix bytes ptr = true /\
                 Z.of_nat (String.length bytes) = taken) /\
  Z.of_nat (String.length response') =
    Z.of_nat (String.length response) + taken.
Proof.
  intros H1 H2. unfold AppendToString, wrap64.
  rewrite Z.mod_small by lia.
  assert (Hl : String.length (substring 0 (Z.to_nat (size * nmemb)) ptr) =
               Z.to_nat (size * nmemb)) by (apply length_substring_0; lia).
  split; [reflexivity|]. split.
  - exists (substring 0 (Z.to_nat (size * nmemb)) ptr).
    split; [reflexivity|]. split; [|rewrite Hl; lia].
    clear. generalize (Z.to_nat (size * nmemb)) as n.
    induction ptr as [|c s IH]; intros n; destruct n; simpl; try reflexivity.
    rewrite IH. destruct (ascii_dec c c); [reflexivity | congruence].
  - rewrite length_append, Hl. lia.
Qed.

(** The options a request sets on the handle before the transfer. *)
Lemma prepared_sets flags f m :
  prepared flags f m =
  (curl_ f ++
   ([match m with
     | GET => (CURLOPT_HTTPGET, number 1)
     | POST => (CURLOPT_POST, number 1)
     | PUT => (CURLOPT_PUT, number 1)
     | PATCH => (CURLOPT_CUSTOMREQUEST, chars "PATCH")
     | DELETE => (CURLOPT_CUSTOMREQUEST, chars "DELETE")
     end;
     (CURLOPT_URL, chars (resource_url_ f));
     (CURLOPT_USERAGENT,
      chars (if is_empty (user_agent_ f) then kUserAgentString else user_agent_ f));
     (CURLOPT_TIMEOUT, number (timeout_in_seconds_ f));
     (CURLOPT_FAILONERROR, number 1);
     (CURLOPT_FOLLOWLOCATION, number 1);
     (CURLOPT_WRITEFUNCTION, AppendToString_callback);
     (CURLOPT_WRITEDATA, response_address)] ++
    (if negb (is_empty (cert_private_key_file_ f)) && negb (is_empty (cert_file_ f))
     then
       [(CURLOPT_SSLKEY, chars (cert_private_key_file_ f))] ++
       (if negb (is_empty (cert_private_key_pass_ f))
        then [(CURLOPT_KEYPASSWD, chars (cert_private_key_pass_ f))] else []) ++
       [(CURLOPT_SSLKEYTYPE, chars "PEM");
        (CURLOPT_SSLCERTTYPE, chars "PEM");
        (CURLOPT_SSLCERT, chars (cert_file_ f))]
     else []) ++
    (if negb (is_empty (ca_file_ f))
     then [(CURLOPT_SSL_VERIFYHOST, number 0); (CURLOPT_CAINFO, chars (ca_file_ f))]
     else []) ++
    [(CURLOPT_VERBOSE,
     number (int32_read_as_long (FLAGS_libcurl_verbosity flags)))] ++
    (if sends_body m
     then [(CURLOPT_READFUNCTION, read_callback_callback);
           (CURLOPT_READDATA, cache_address);
           (CURLOPT_UPLOAD, number 1)]
     else []) ++
    [(CURLOPT_HTTPHEADER, slist (request_headers f m))]))%list.
Proof.
  unfold prepared. rewrite SetupRequestData_sets, SetupRequestBase_sets.
  assert (Hh : request_headers (SetupRequestBase flags f m) m = request_headers f m)
    by reflexivity.
  rewrite Hh. repeat rewrite <- app_assoc. reflexivity.
Qed.

Ltac settle_in :=
  cbn [In app]; split;
  [ intros H; repeat (destruct H as [H|H]); try contradiction H;
    try discriminate H; inversion H; subst;
    repeat split; try reflexivity; discriminate
  | intros H; decompose [and] H; subst; try congruence; tauto ].

(** X17. The client certificate and the certificate authority, in the
    options a request sets: the private key and the certificate are set
    only together, when the file has both, and then to the file's; the key
    password only with them, when the file has one; the authority file
    when the file has one, and host verification is then switched off, and
    never set otherwise. *)
Theorem client_certificate_needs_key_and_certificate flags f m v :
  let added := set_since (curl_ f) (prepared flags f m) in
  (In (CURLOPT_SSLKEY, v) added <->
   v = chars (cert_private_key_file_ f) /\
   cert_private_key_file_ f <> "" /\ cert_file_ f <> "") /\
  (In (CURLOPT_SSLCERT, v) added <->
   v = chars (cert_file_ f) /\
   cert_private_key_file_ f <> "" /\ cert_file_ f <> "") /\
  (In (CURLOPT_KEYPASSWD, v) added <->
   v = chars (cert_private_key_pass_ f) /\
   cert_private_key_file_ f <> "" /\ cert_file_ f <> "" /\
   cert_private_key_pass_ f <> "") /\
  (In (CURLOPT_CAINFO, v) added <->
   v = chars (ca_file_ f) /\ ca_file_ f <> "") /\
  (In (CURLOPT_SSL_VERIFYHOST, v) added <->
   v = number 0 /\ ca_file_ f <> "").
Proof.
  cbn zeta. rewrite prepared_sets, set_since_app.
  generalize (request_headers f m) as headers. intros headers.
  destruct (cert_private_key_file_ f) as [|k1 key];
    destruct (cert_file_ f) as [|c1 cert];
    destruct (cert_private_key_pass_ f) as [|p1 pass];
    destruct (ca_file_ f) as [|a1 ca];
    destruct m; cbn [is_empty negb andb sends_body];
    (split; [|split; [|split; [|split]]]); settle_in.
Qed.

Lemma one_line_literal s :
  forallb (fun c => negb (Ascii.eqb c LF)) (list_ascii_of_string s) = true ->
  one_line s.
Proof.
  unfold one_line. intros H. rewrite forallb_forall in H.
  apply Forall_forall. intros c Hc ->. specialize (H _ Hc). discriminate H.
Qed.

Lemma split_where_single f s :
  Forall (fun c => f c = false) (list_ascii_of_string s) ->
  split_where f s = [s].
Proof.
  induction s as [|c r IH]; intros H; [reflexivity|].
  inversion H as [|? ? Hc Hr]; subst.
  now rewrite (split_where_char f c r r [] Hc (IH Hr)).
Qed.

Lemma one_line_clean s :
  one_line s -> Forall (fun c => Ascii.eqb LF c = false) (list_ascii_of_string s).
Proof.
  unfold one_line. apply Forall_impl. intros c Hc.
  destruct (Ascii.eqb LF c) eqn:E; [|reflexivity].
  apply Ascii.eqb_eq in E. now contradiction Hc.
Qed.

(** Lines without line feeds, joined by line feeds, are cut back into
    themselves. *)
Lemma split_lines_joined pieces :
  Forall one_line pieces -> pieces <> [] ->
  split_where (Ascii.eqb LF) (concat newline pieces) = pieces.
Proof.
  induction pieces as [|p rest IH]; intros H Hne; [congruence|].
  inversion H as [|? ? Hp Hrest]; subst.
  destruct rest as [|q rest].
  - simpl. apply split_where_single. now apply one_line_clean.
  - change (concat newline (p :: q :: rest))
      with (p ++ String LF (concat newline (q :: rest))).
    rewrite split_where_app by apply Ascii.eqb_refl.
    rewrite (split_where_single _ p (one_line_clean _ Hp)).
    rewrite IH by (assumption || discriminate). reflexivity.
Qed.

Lemma user_headers_eq input :
  SplitString input newline KEEP_WHITESPACE SPLIT_WANT_NONEMPTY =
  filter (fun piece => negb (is_empty piece)) (split_where (Ascii.eqb LF) input).
Proof.
  unfold SplitString, split_pieces. destruct input as [|c r]; [reflexivity|].
  cbn [is_empty].
  rewrite (split_where_ext (is_separator newline) (Ascii.eqb LF)); [reflexivity|].
  intros a. unfold is_separator, newline. simpl.
  rewrite orb_false_r. apply Ascii.eqb_sym.
Qed.

(** X18. The headers of a request: Expect: with no value first, then the
    lines of the upload header flag that are not empty, in their order,
    then, for the methods with a body and only for them, the content type
    and the chunked transfer encoding.  The lines of the flag are the texts
    without line feeds that, joined by line feeds, give the flag, and
    however the flag is written as such a join, the non-empty ones among
    them are the same.  Every header of the list is a single non-empty
    line. *)
Theorem request_headers_are_single_lines f m :
  exists lines,
    concat newline lines = user_headers_ f /\
    Forall one_line lines /\
    request_headers f m =
      ("Expect:" ::
       filter (fun line => negb (is_empty line)) lines ++
       (if sends_body m
        then ["Content-Type: application/octet-stream";
              "Transfer-Encoding: chunked"]
        else []))%list /\
    (forall lines',
       concat newline lines' = user_headers_ f -> Forall one_line lines' ->
       filter (fun line => negb (is_empty line)) lines' =
       filter (fun line => negb (is_empty line)) lines) /\
    Forall (fun h => nonblank h /\ one_line h) (request_headers f m).
Proof.
  exists (split_where (Ascii.eqb LF) (user_headers_ f)).
  pose proof (user_headers_are_lines (user_headers_ f)) as Hu.
  split; [apply (join_split_where LF)|]. split; [|split; [|split]].
  - pose proof (split_where_clean (Ascii.eqb LF) (user_headers_ f)) as Hc.
    eapply Forall_impl; [|exact Hc]. intros line Hl. unfold one_line.
    eapply Forall_impl; [|exact Hl]. intros c Hcl ->.
    rewrite Ascii.eqb_refl in Hcl. discriminate Hcl.
  - rewrite request_headers_eq, user_headers_eq. reflexivity.
  - intros lines' Hj Ho. destruct lines' as [|l ls].
    + simpl in Hj. rewrite <- Hj. reflexivity.
    + rewrite <- Hj. rewrite split_lines_joined; [reflexivity|exact Ho|discriminate].
  - rewrite request_headers_eq. constructor.
    + split; [discriminate | apply one_line_literal; reflexivity].
    + apply Forall_app. split; [exact Hu|].
      destruct (sends_body m); repeat constructor; try discriminate;
        apply one_line_literal; reflexivity.
Qed.

Lemma int32_read_as_long_cases n :
  (0 <= n < 2 ^ 31 -> int32_read_as_long n = n) /\
  (- 2 ^ 31 <= n < 0 -> int32_read_as_long n = n + 2 ^ 32).
Proof.
  unfold int32_read_as_long. split; intros H.
  - apply Z.mod_small. lia.
  - rewrite <- (Z.mod_small (n + 2 ^ 32) (2 ^ 32)) by lia.
    replace (n + 2 ^ 32) with (n + 1 * 2 ^ 32) by lia.
    now rewrite Z.mod_add by lia.
Qed.

(** The verbosity a transfer runs with. *)
Lemma prepared_verbosity flags f m :
  effective (prepared flags f m) CURLOPT_VERBOSE =
  Some (number (int32_read_as_long (FLAGS_libcurl_verbosity flags))).
Proof.
  rewrite prepared_sets.
  generalize (request_headers f m) as headers. intros headers.
  generalize (int32_read_as_long (FLAGS_libcurl_verbosity flags)) as v. intros v.
  destruct (negb (is_empty (cert_private_key_file_ f)) && negb (is_empty (cert_file_ f)));
    destruct (negb (is_empty (cert_private_key_pass_ f)));
    destruct (negb (is_empty (ca_file_ f)));
    destruct m; cbn [sends_body];
    rewrite effective_app; reflexivity.
Qed.

(** X19. What a transfer runs with, whatever was set on the handle
    before: the address of the file, the headers of the request, the user
    agent of the file or, when it has none, the packager's own, the write
    callback on the file's response, failing on HTTP errors and following
    redirects.  The verbosity flag is an int32 that libcurl reads as a
    long: a flag that is not negative arrives as it is, a negative one as
    the flag plus 2^32.  A method with a body switches uploading through
    the read callback on; a method without one sets none of the three
    options and so leaves them as an earlier request on the handle has set
    them.  GET, POST and PUT leave a custom request text of an earlier
    request in place. *)
Theorem transfer_runs_with_the_file_settings flags f m :
  let p := prepared flags f m in
  effective p CURLOPT_URL = Some (chars (resource_url_ f)) /\
  effective p CURLOPT_HTTPHEADER = Some (slist (request_headers f m)) /\
  effective p CURLOPT_USERAGENT =
    Some (chars (if is_empty (user_agent_ f)
                 then "shaka-packager-uploader/0.1" else user_agent_ f)) /\
  effective p CURLOPT_TIMEOUT = Some (number (timeout_in_seconds_ f)) /\
  effective p CURLOPT_WRITEFUNCTION = Some AppendToString_callback /\
  effective p CURLOPT_WRITEDATA = Some response_address /\
  effective p CURLOPT_FAILONERROR = Some (number 1) /\
  effective p CURLOPT_FOLLOWLOCATION = Some (number 1) /\
  (0 <= FLAGS_libcurl_verbosity flags < 2 ^ 31 ->
   effective p CURLOPT_VERBOSE = Some (number (FLAGS_libcurl_verbosity flags))) /\
  (- 2 ^ 31 <= FLAGS_libcurl_verbosity flags < 0 ->
   effective p CURLOPT_VERBOSE =
     Some (number (FLAGS_libcurl_verbosity flags + 2 ^ 32))) /\
  (forall opt,
     In opt [CURLOPT_UPLOAD; CURLOPT_READFUNCTION; CURLOPT_READDATA] ->
     effective p opt =
       if sends_body m
       then match opt with
            | CURLOPT_UPLOAD => Some (number 1)
            | CURLOPT_READFUNCTION => Some read_callback_callback
            | _ => Some cache_address
            end
       else effective (curl_ f) opt) /\
  effective p CURLOPT_CUSTOMREQUEST =
    match m with
    | PATCH => Some (chars "PATCH")
    | DELETE => Some (chars "DELETE")
    | _ => effective (curl_ f) CURLOPT_CUSTOMREQUEST
    end.
Proof.
  cbn zeta.
  pose proof (prepared_verbosity flags f m) as Hv.
  destruct (int32_read_as_long_cases (FLAGS_libcurl_verbosity flags)) as [Hpos Hneg].
  assert (Hv1 : 0 <= FLAGS_libcurl_verbosity flags < 2 ^ 31 ->
                effective (prepared flags f m) CURLOPT_VERBOSE =
                Some (number (FLAGS_libcurl_verbosity flags))).
  { intros H. now rewrite Hv, (Hpos H). }
  assert (Hv2 : - 2 ^ 31 <= FLAGS_libcurl_verbosity flags < 0 ->
                effective (prepared flags f m) CURLOPT_VERBOSE =
                Some (number (FLAGS_libcurl_verbosity flags + 2 ^ 32))).
  { intros H. now rewrite Hv, (Hneg H). }
  revert Hv1 Hv2. clear Hv Hpos Hneg.
  generalize (effective (prepared flags f m) CURLOPT_VERBOSE) as verbose.
  intros verbose Hv1 Hv2.
  rewrite prepared_sets.
  generalize (request_headers f m) as headers. intros headers.
  generalize (int32_read_as_long (FLAGS_libcurl_verbosity flags)) as v. intros v.
  assert (Hopt : forall opt,
    In opt [CURLOPT_UPLOAD; CURLOPT_READFUNCTION; CURLOPT_READDATA] ->
    opt = CURLOPT_UPLOAD \/ opt = CURLOPT_READFUNCTION \/ opt = CURLOPT_READDATA).
  { simpl. intuition. }
  destruct (negb (is_empty (cert_private_key_file_ f)) && negb (is_empty (cert_file_ f)));
    destruct (negb (is_empty (cert_private_key_pass_ f)));
    destruct (negb (is_empty (ca_file_ f)));
    destruct m; cbn [sends_body];
    (split; [rewrite effective_app; reflexivity|]);
    (split; [rewrite effective_app; reflexivity|]);
    (split; [rewrite effective_app; reflexivity|]);
    (split; [rewrite effective_app; reflexivity|]);
    (split; [rewrite effective_app; reflexivity|]);
    (split; [rewrite effective_app; reflexivity|]);
    (split; [rewrite effective_app; reflexivity|]);
    (split; [rewrite effective_app; reflexivity|]);
    (split; [exact Hv1|]); (split; [exact Hv2|]);
    (split; [|rewrite effective_app; reflexivity]);
    intros opt Ho; apply Hopt in Ho; destruct Ho as [->|[->| ->]];
    rewrite effective_app; reflexivity.
Qed.

(** The address and the custom request text a transfer runs with. *)
Lemma prepared_address_and_text flags f m :
  effective (prepared flags f m) CURLOPT_URL = Some (chars (resource_url_ f)) /\
  effective (prepared flags f m) CURLOPT_CUSTOMREQUEST =
    match m with
    | PATCH => Some (chars "PATCH")
    | DELETE => Some (chars "DELETE")
    | _ => effective (curl_ f) CURLOPT_CUSTOMREQUEST
    end.
Proof.
  rewrite prepared_sets.
  generalize (request_headers f m) as headers. intros headers.
  destruct (negb (is_empty (cert_private_key_file_ f)) && negb (is_empty (cert_file_ f)));
    destruct (negb (is_empty (cert_private_key_pass_ f)));
    destruct (negb (is_empty (ca_file_ f)));
    destruct m; cbn [sends_body];
    split; rewrite effective_app; reflexivity.
Qed.

(** X20. Deleting succeeds exactly when the transfer ended with CURLE_OK.
    The member runs one DELETE request on the file; the static function
    runs it on a file made for the name and the scheme, with the custom
    request text DELETE and the address of that file, and gives nothing
    when no handle could be had. *)
Theorem Delete_succeeds_exactly_on_CURLE_OK flags perform :
  (forall f,
     (fst (Delete flags perform f) = true <->
      result (perform (prepared flags f DELETE)) = CURLE_OK) /\
     snd (Delete flags perform f) = snd (Request flags perform f DELETE) /\
     effective (prepared flags f DELETE) CURLOPT_CUSTOMREQUEST =
       Some (chars "DELETE")) /\
  (forall name https,
     Delete_static flags None perform name https = None) /\
  (forall curl name https,
     exists f,
       new flags (Some curl) name "w" https = Some f /\
       Delete_static flags (Some curl) perform name https =
         Some (result (perform (prepared flags f DELETE)) =? CURLE_OK) /\
       effective (prepared flags f DELETE) CURLOPT_URL =
         Some (chars ((if https then "https://" else "http://") ++ name))).
Proof.
  assert (HD : forall f,
    fst (Delete flags perform f) =
    (result (perform (prepared flags f DELETE)) =? CURLE_OK)).
  { intros f. unfold Delete.
    destruct (Request_eq flags perform f DELETE) as [body [E _]].
    cbn zeta in E. rewrite E. cbn [fst].
    destruct (result (perform (prepared flags f DELETE)) =? CURLE_OK);
      cbn [negb]; [reflexivity|].
    unfold is_OK. cbn [error_code].
    now destruct (result (perform (prepared flags f DELETE)) =? CURLE_OPERATION_TIMEDOUT). }
  split; [|split].
  - intros f. split; [|split].
    + rewrite HD. apply Z.eqb_eq.
    + unfold Delete. now destruct (Request flags perform f DELETE).
    + destruct (prepared_address_and_text flags f DELETE) as [_ H].
      exact H.
  - reflexivity.
  - intros curl name https. eexists. split; [reflexivity|]. split.
    + unfold Delete_static, new. rewrite HD. reflexivity.
    + destruct (prepared_address_and_text flags
        (mk name "w" (FLAGS_user_agent flags) (FLAGS_http_upload_headers flags)
           (FLAGS_https_ca_file flags) (FLAGS_https_cert_file flags)
           (FLAGS_https_cert_private_key_file flags)
           (FLAGS_https_cert_private_key_password flags) 0
           (if https then "https://" ++ name else "http://" ++ name) "" curl false)
        DELETE) as [H _].
      rewrite H. cbn [resource_url_]. now destruct https.
Qed.

(** Two names, one scheme. *)
Lemma resource_url_tells_name_and_scheme_witness :
  new (flags_with_headers "") (Some []) "host/live.mpd" "w" false
    = Some (upload_file "host/live.mpd" "") /\
  (new_http (flags_with_headers "") (Some []) "host/live.mpd" "w"
     = Some (upload_file "host/live.mpd" "") <-> false = false).
Proof.
  split; [reflexivity|].
  exact (proj2 (proj2 (resource_url_tells_name_and_scheme
    (flags_with_headers "") (flags_with_headers "") (Some []) (Some [])
    "host/live.mpd" "host/live.mpd" "w" "w" false false
    (upload_file "host/live.mpd" "") (upload_file "host/live.mpd" "")
    eq_refl eq_refl eq_refl))).
Defined.

(** A response that arrives in two pieces. *)
Lemma Request_collects_the_response_witness :
  response_body_
    (snd (Request (flags_with_headers "") (answers ["<ok"; "/>"])
            (upload_file "host/live.mpd" "") PUT))
  = "<ok/>".
Proof.
  assert (H : Forall (fun piece => Z.of_nat (String.length piece) < 2 ^ 64)
                (received (answers ["<ok"; "/>"]
                   (prepared (flags_with_headers "")
                      (upload_file "host/live.mpd" "") PUT))))
    by (repeat constructor).
  exact (proj1 (Request_collects_the_response (flags_with_headers "")
                  (answers ["<ok"; "/>"]) (upload_file "host/live.mpd" "") PUT H)).
Defined.

(** Three bytes of a buffer of five. *)
Lemma AppendToString_takes_all_it_is_given_witness :
  let (taken, response') := AppendToString "hello" 1 3 "ab" in
  taken = 1 * 3 /\
  (exists bytes, response' = "ab" ++ bytes /\
                 prefix bytes "hello" = true /\
                 Z.of_nat (String.length bytes) = taken) /\
  Z.of_nat (String.length response') = Z.of_nat (String.length "ab") + taken.
Proof.
  apply (AppendToString_takes_all_it_is_given "hello" 1 3 "ab").
  - simpl. lia.
  - reflexivity.
Defined.

End HttpFileProperties.
